(** * Rule-set compiler: parsing, inclusion flattening and assembly

    A shallow embedding of [ListInfo] (the per-file rule collection of the Go
    sources) with its parser ([parseRule], [parseInclusion], [parseTypeRule],
    [parseAttribute], [classifyRule]), its inclusion resolver ([Flatten]),
    its assembler ([ToGeoSite]), its text exporters ([ToPlainText],
    [ToGFWList], [ToSurgeList], [ToMihomoList], [ToQuantumultXList]) and the
    flag loops of [main], together with the properties the design document states about
    them and further properties that the code shows. *)

From Stdlib Require Import Ascii String List Sorted Lia Bool Arith.
From stdpp Require Import base option gmap strings list fin_maps sorting.

Set Warnings "-register-all".

(** ** Go's [strings] package

    Go strings are byte sequences; they are modelled as [string] (a list of
    [ascii] bytes), and the functions below follow the package on those
    bytes.

    The white space of [TrimSpace] is that of [unicode.IsSpace], read off the
    UTF-8 bytes: the six ASCII bytes of the package's table ([\t], [\n],
    [\v], [\f], [\r] and the blank) and the encodings of U+0085, U+00A0,
    U+1680, U+2000 to U+200A, U+2028, U+2029, U+202F, U+205F and U+3000.  Bytes
    that are no valid UTF-8 decode to [utf8.RuneError], which is no white
    space.

    [ToLower] and [ToUpper] are written out for a string of ASCII bytes, where
    the package maps the ASCII letters and nothing else.  On a string with a
    byte above 127 the package maps every rune through the case tables of the
    [unicode] package, which are not embedded: there the result is what the
    class [Unicode] gives, and every property below holds for every instance
    of the class.

    Every call of [Split] in the sources passes a one-byte separator, so the
    separator is an [ascii]. *)

(** [strings.Map(unicode.ToLower, s)] and [strings.Map(unicode.ToUpper, s)],
    which [ToLower] and [ToUpper] return for a string that is not ASCII. *)
Class Unicode : Type := {
  Map_ToLower : string -> string;
  Map_ToUpper : string -> string
}.

Module strings.

Definition asciiSpace (c : ascii) : bool :=
  match c with
  | "009" | "010" | "011" | "012" | "013" | " " => true
  | _ => false
  end%char.

(** A byte below [utf8.RuneSelf]. *)
Definition isASCIIByte (c : ascii) : bool :=
  match c with Ascii _ _ _ _ _ _ _ b7 => negb b7 end.

Fixpoint isASCII (s : string) : bool :=
  match s with
  | EmptyString => true
  | String c s' => isASCIIByte c && isASCII s'
  end.

(** The two-byte encodings of white space: U+0085 and U+00A0. *)
Definition spaceRune2 (c d : ascii) : bool :=
  Ascii.eqb c "194" && (Ascii.eqb d "133" || Ascii.eqb d "160").

(** The three-byte encodings of white space: U+1680; U+2000 to U+200A,
    U+2028, U+2029 and U+202F; U+205F; U+3000. *)
Definition spaceRune3 (c d e : ascii) : bool :=
  (Ascii.eqb c "225" && Ascii.eqb d "154" && Ascii.eqb e "128")
  || (Ascii.eqb c "226" && Ascii.eqb d "128"
      && (((128 <=? nat_of_ascii e) && (nat_of_ascii e <=? 138))
          || Ascii.eqb e "168" || Ascii.eqb e "169" || Ascii.eqb e "175"))
  || (Ascii.eqb c "226" && Ascii.eqb d "129" && Ascii.eqb e "159")
  || (Ascii.eqb c "227" && Ascii.eqb d "128" && Ascii.eqb e "128").

(** What follows the first rune of [s], when that rune is white space. *)
Definition leadSpace (s : string) : option string :=
  match s with
  | EmptyString => None
  | String c s1 =>
      if asciiSpace c then Some s1
      else match s1 with
           | EmptyString => None
           | String d s2 =>
               if spaceRune2 c d then Some s2
               else match s2 with
                    | EmptyString => None
                    | String e s3 => if spaceRune3 c d e then Some s3 else None
                    end
           end
  end.

(** [strings.TrimLeftFunc(s, unicode.IsSpace)]: [s] from its first rune that
    is no white space. *)
Fixpoint TrimLeftSpace (s : string) : string :=
  match s with
  | EmptyString => EmptyString
  | String c s1 =>
      if asciiSpace c then TrimLeftSpace s1
      else match s1 with
           | EmptyString => s
           | String d s2 =>
               if spaceRune2 c d then TrimLeftSpace s2
               else match s2 with
                    | EmptyString => s
                    | String e s3 => if spaceRune3 c d e then TrimLeftSpace s3 else s
                    end
           end
  end.

(** [strings.TrimRightFunc(s, unicode.IsSpace)]: [s] without its longest
    suffix made of white-space runes.  The package decodes the runes from the
    end; it finds the same suffix, since the encoding of a white-space rune
    starts with a byte that no encoding holds at a later place. *)
Fixpoint TrimRightSpace (s : string) : string :=
  match s with
  | EmptyString => EmptyString
  | String c s' =>
      match TrimLeftSpace s with
      | EmptyString => EmptyString
      | _ => String c (TrimRightSpace s')
      end
  end.

(** [strings.TrimSpace]: the leading and the trailing white space removed. *)
Definition TrimSpace (s : string) : string := TrimRightSpace (TrimLeftSpace s).

Definition lowerByte (c : ascii) : ascii :=
  let n := nat_of_ascii c in
  if (65 <=? n) && (n <=? 90) then ascii_of_nat (n + 32) else c.

Definition upperByte (c : ascii) : ascii :=
  let n := nat_of_ascii c in
  if (97 <=? n) && (n <=? 122) then ascii_of_nat (n - 32) else c.

Fixpoint mapBytes (f : ascii -> ascii) (s : string) : string :=
  match s with
  | EmptyString => EmptyString
  | String c s' => String (f c) (mapBytes f s')
  end.

Definition ToLower {U : Unicode} (s : string) : string :=
  if isASCII s then mapBytes lowerByte s else Map_ToLower s.
Definition ToUpper {U : Unicode} (s : string) : string :=
  if isASCII s then mapBytes upperByte s else Map_ToUpper s.

(** [strings.Split s sep]: the pieces of [s] between the occurrences of
    [sep]; always at least one piece, [[s]] itself when [sep] does not occur. *)
Fixpoint Split (s : string) (sep : ascii) : list string :=
  match s with
  | EmptyString => [EmptyString]
  | String c s' =>
      if Ascii.eqb c sep then EmptyString :: Split s' sep
      else match Split s' sep with
           | [] => [String c EmptyString]
           | w :: ws => String c w :: ws
           end
  end.

(** [strings.Join], the inverse of [Split]. *)
Fixpoint Join (ws : list string) (sep : ascii) : string :=
  match ws with
  | [] => EmptyString
  | [w] => w
  | w :: ws' => w +:+ String sep (Join ws' sep)
  end.

Definition HasPrefix (s prefix : string) : bool := String.prefix prefix s.

Fixpoint dropBytes (n : nat) (s : string) : string :=
  match n, s with
  | S n', String _ s' => dropBytes n' s'
  | _, _ => s
  end.

Definition TrimPrefix (s prefix : string) : string :=
  if HasPrefix s prefix then dropBytes (String.length prefix) s else s.

(** [strings.Contains s substr]: [substr] occurs somewhere in [s]. *)
Fixpoint Contains (s substr : string) : bool :=
  String.prefix substr s ||
  match s with
  | EmptyString => false
  | String _ s' => Contains s' substr
  end.

(** The byte [sep] occurs in [s] ([strings.IndexByte(s, sep) >= 0]). *)
Fixpoint hasByte (sep : ascii) (s : string) : bool :=
  match s with
  | EmptyString => false
  | String c s' => Ascii.eqb c sep || hasByte sep s'
  end.

(** [strings.TrimRight s cutset], for a cutset of one byte: [s] without its
    trailing run of that byte. *)
Fixpoint TrimRight (s : string) (cutset : ascii) : string :=
  match s with
  | EmptyString => EmptyString
  | String c s' =>
      match TrimRight s' cutset with
      | EmptyString => if Ascii.eqb c cutset then EmptyString else String c EmptyString
      | t => String c t
      end
  end.

End strings.

(** An [error] is the message handed to [errors.New]. *)
Definition error : Type := string.

Module errors.
Definition New (msg : string) : error := msg.
End errors.

(** ** The rule records of [routercommon]

    [Domain_Type] is the generated enumeration; its zero value is
    [Domain_Plain], which is what a fresh [router.Domain] holds. *)
Inductive Domain_Type : Type :=
| Domain_Plain
| Domain_Regex
| Domain_RootDomain
| Domain_Full.

Inductive Domain_Attribute_TypedValue : Type :=
| Domain_Attribute_NoValue
| Domain_Attribute_BoolValue (BoolValue : bool)
| Domain_Attribute_IntValue (IntValue : Z).

Record Domain_Attribute : Type := mkAttribute {
  Key : string;
  TypedValue : Domain_Attribute_TypedValue
}.

Record Domain : Type := mkDomain {
  Type_ : Domain_Type;
  Value : string;
  Attribute : list Domain_Attribute
}.

Record GeoSite_ : Type := mkGeoSite {
  CountryCode : string;
  GeoSite_Domain : list Domain
}.

#[global] Instance Domain_Type_eq_dec : EqDecision Domain_Type.
Proof. solve_decision. Defined.
#[global] Instance TypedValue_eq_dec : EqDecision Domain_Attribute_TypedValue.
Proof. solve_decision. Defined.
#[global] Instance Domain_Attribute_eq_dec : EqDecision Domain_Attribute.
Proof. solve_decision. Defined.
#[global] Instance Domain_eq_dec : EqDecision Domain.
Proof. solve_decision. Defined.

(** The zero value of [router.Domain] ([var rule router.Domain]). *)
Definition zeroDomain : Domain := mkDomain Domain_Plain EmptyString [].

(** [fileName] and [attribute] are string types. *)
Abbreviation fileName := string.
Abbreviation attribute := string.

(** What a Go call yields: a value, an [error], or a run-time panic (a nil
    pointer dereference, an index out of range). *)
Inductive outcome (A : Type) : Type :=
| Ok (a : A)
| Err (e : error)
| Panic (msg : string).
Arguments Ok {A} a.
Arguments Err {A} e.
Arguments Panic {A} msg.

(** ** [ListInfo] *)
Record ListInfo : Type := mkListInfo {
  Name : fileName;
  HasInclusion : bool;
  InclusionAttributeMap : gmap fileName (list attribute);
  FullTypeList : list Domain;
  KeywordTypeList : list Domain;
  RegexpTypeList : list Domain;
  AttributeRuleUniqueList : list Domain;
  DomainTypeList : list Domain;
  DomainTypeUniqueList : list Domain;
  AttributeRuleListMap : gmap attribute (list Domain);
  GeoSite : option GeoSite_
}.

(** [NewListInfo]: empty maps and empty slices; [Name] is the zero string. *)
Definition NewListInfo : ListInfo :=
  {| Name := EmptyString;
     HasInclusion := false;
     InclusionAttributeMap := ∅;
     FullTypeList := [];
     KeywordTypeList := [];
     RegexpTypeList := [];
     AttributeRuleUniqueList := [];
     DomainTypeList := [];
     DomainTypeUniqueList := [];
     AttributeRuleListMap := ∅;
     GeoSite := None |}.

(** Field assignments [l.F = v]. *)
Definition set_Name (v : fileName) (l : ListInfo) : ListInfo :=
  mkListInfo v (HasInclusion l) (InclusionAttributeMap l) (FullTypeList l)
    (KeywordTypeList l) (RegexpTypeList l) (AttributeRuleUniqueList l)
    (DomainTypeList l) (DomainTypeUniqueList l) (AttributeRuleListMap l) (GeoSite l).
Definition set_HasInclusion (v : bool) (l : ListInfo) : ListInfo :=
  mkListInfo (Name l) v (InclusionAttributeMap l) (FullTypeList l)
    (KeywordTypeList l) (RegexpTypeList l) (AttributeRuleUniqueList l)
    (DomainTypeList l) (DomainTypeUniqueList l) (AttributeRuleListMap l) (GeoSite l).
Definition set_InclusionAttributeMap (v : gmap fileName (list attribute))
    (l : ListInfo) : ListInfo :=
  mkListInfo (Name l) (HasInclusion l) v (FullTypeList l)
    (KeywordTypeList l) (RegexpTypeList l) (AttributeRuleUniqueList l)
    (DomainTypeList l) (DomainTypeUniqueList l) (AttributeRuleListMap l) (GeoSite l).
Definition set_FullTypeList (v : list Domain) (l : ListInfo) : ListInfo :=
  mkListInfo (Name l) (HasInclusion l) (InclusionAttributeMap l) v
    (KeywordTypeList l) (RegexpTypeList l) (AttributeRuleUniqueList l)
    (DomainTypeList l) (DomainTypeUniqueList l) (AttributeRuleListMap l) (GeoSite l).
Definition set_KeywordTypeList (v : list Domain) (l : ListInfo) : ListInfo :=
  mkListInfo (Name l) (HasInclusion l) (InclusionAttributeMap l) (FullTypeList l)
    v (RegexpTypeList l) (AttributeRuleUniqueList l)
    (DomainTypeList l) (DomainTypeUniqueList l) (AttributeRuleListMap l) (GeoSite l).
Definition set_RegexpTypeList (v : list Domain) (l : ListInfo) : ListInfo :=
  mkListInfo (Name l) (HasInclusion l) (InclusionAttributeMap l) (FullTypeList l)
    (KeywordTypeList l) v (AttributeRuleUniqueList l)
    (DomainTypeList l) (DomainTypeUniqueList l) (AttributeRuleListMap l) (GeoSite l).
Definition set_AttributeRuleUniqueList (v : list Domain) (l : ListInfo) : ListInfo :=
  mkListInfo (Name l) (HasInclusion l) (InclusionAttributeMap l) (FullTypeList l)
    (KeywordTypeList l) (RegexpTypeList l) v
    (DomainTypeList l) (DomainTypeUniqueList l) (AttributeRuleListMap l) (GeoSite l).
Definition set_DomainTypeList (v : list Domain) (l : ListInfo) : ListInfo :=
  mkListInfo (Name l) (HasInclusion l) (InclusionAttributeMap l) (FullTypeList l)
    (KeywordTypeList l) (RegexpTypeList l) (AttributeRuleUniqueList l)
    v (DomainTypeUniqueList l) (AttributeRuleListMap l) (GeoSite l).
Definition set_DomainTypeUniqueList (v : list Domain) (l : ListInfo) : ListInfo :=
  mkListInfo (Name l) (HasInclusion l) (InclusionAttributeMap l) (FullTypeList l)
    (KeywordTypeList l) (RegexpTypeList l) (AttributeRuleUniqueList l)
    (DomainTypeList l) v (AttributeRuleListMap l) (GeoSite l).
Definition set_AttributeRuleListMap (v : gmap attribute (list Domain))
    (l : ListInfo) : ListInfo :=
  mkListInfo (Name l) (HasInclusion l) (InclusionAttributeMap l) (FullTypeList l)
    (KeywordTypeList l) (RegexpTypeList l) (AttributeRuleUniqueList l)
    (DomainTypeList l) (DomainTypeUniqueList l) v (GeoSite l).
Definition set_GeoSite (v : option GeoSite_) (l : ListInfo) : ListInfo :=
  mkListInfo (Name l) (HasInclusion l) (InclusionAttributeMap l) (FullTypeList l)
    (KeywordTypeList l) (RegexpTypeList l) (AttributeRuleUniqueList l)
    (DomainTypeList l) (DomainTypeUniqueList l) (AttributeRuleListMap l) v.

(** [m[k]] on a map of slices: the nil slice when [k] is absent. *)
Definition slice_at {V : Type} (m : gmap string (list V)) (k : string) : list V :=
  default [] (m !! k).

(** [m[k] = append(m[k], vs...)]. *)
Definition append_at {V : Type} (k : string) (vs : list V)
    (m : gmap string (list V)) : gmap string (list V) :=
  <[k := slice_at m k ++ vs]> m.

(** ** The rule parser *)
Section parser.
Context {U : Unicode}.

(** [parseInclusion]: the target is the text before the first [@], trimmed
    and upper-cased.  Without any [@] the placeholder attribute ["@"] is
    recorded; otherwise each non-empty segment after an [@] is recorded as
    ["@" + segment], trimmed and lower-cased. *)
Definition parseInclusion (l : ListInfo) (inclusion : string) : ListInfo :=
  let inclusionVal := strings.TrimPrefix (strings.TrimSpace inclusion) "include:" in
  let l := set_HasInclusion true l in
  let inclusionValSlice := strings.Split inclusionVal "@" in
  let filename := strings.ToUpper (strings.TrimSpace (hd EmptyString inclusionValSlice)) in
  match inclusionValSlice with
  | [_] =>
      set_InclusionAttributeMap (append_at filename ["@"] (InclusionAttributeMap l)) l
  | _ =>
      foldl (fun l attr =>
               let attr := strings.ToLower (strings.TrimSpace attr) in
               if decide (attr = EmptyString) then l
               else set_InclusionAttributeMap
                      (append_at filename ["@" +:+ attr] (InclusionAttributeMap l)) l)
            l (tl inclusionValSlice)
  end.

(** [parseTypeRule]: writes [rule.Type] and [rule.Value] and returns the
    error, if any.  The [switch] on [len(kv)] has the cases 1 and 2 only: with
    two or more colons nothing is written and [nil] is returned. *)
Definition parseTypeRule (domain : string) (rule : Domain) : Domain * option error :=
  let kv := strings.Split domain ":" in
  match kv with
  | [kv0] =>
      (mkDomain Domain_RootDomain (strings.ToLower (strings.TrimSpace kv0))
                (Attribute rule), None)
  | [kv0; kv1] =>
      let ruleType := strings.TrimSpace kv0 in
      let ruleVal := strings.TrimSpace kv1 in
      let rule := mkDomain (Type_ rule) (strings.ToLower ruleVal) (Attribute rule) in
      let lowered := strings.ToLower ruleType in
      if decide (lowered = "full") then
        (mkDomain Domain_Full (Value rule) (Attribute rule), None)
      else if decide (lowered = "domain") then
        (mkDomain Domain_RootDomain (Value rule) (Attribute rule), None)
      else if decide (lowered = "keyword") then
        (mkDomain Domain_Plain (Value rule) (Attribute rule), None)
      else if decide (lowered = "regexp") then
        (mkDomain Domain_Regex ruleVal (Attribute rule), None)
      else (rule, Some (errors.New ("unknown domain type: " +:+ ruleType)))
  | _ => (rule, None)
  end.

(** [parseAttribute]: [attr[0]] panics on the empty string; [parseRule] only
    passes non-empty tokens. *)
Definition parseAttribute (attr : string) : outcome Domain_Attribute :=
  match attr with
  | EmptyString => Panic "index out of range"
  | String c rest =>
      if negb (Ascii.eqb c "@") then Err (errors.New ("invalid attribute: " +:+ attr))
      else Ok (mkAttribute (strings.ToLower rest) (Domain_Attribute_BoolValue true))
  end.

(** The loop of [parseRule] over [parts[1:]]. *)
Fixpoint parseAttributes (parts : list string) (rule : Domain) : outcome Domain :=
  match parts with
  | [] => Ok rule
  | attrString :: rest =>
      let attrString := strings.TrimSpace attrString in
      if decide (attrString = EmptyString) then parseAttributes rest rule
      else match parseAttribute attrString with
           | Ok attr =>
               parseAttributes rest
                 (mkDomain (Type_ rule) (Value rule) (Attribute rule ++ [attr]))
           | Err e => Err e
           | Panic msg => Panic msg
           end
  end.

(** [parseRule]: the receiver after the call (only an inclusion line changes
    it) and what is returned: [Ok None] for [(nil, nil)], [Ok (Some rule)] for
    [(&rule, nil)]. *)
Definition parseRule (l : ListInfo) (line : string) : ListInfo * outcome (option Domain) :=
  let line := strings.TrimSpace line in
  if decide (line = EmptyString) then (l, Err (errors.New "empty line"))
  else if strings.HasPrefix line "include:" then (parseInclusion l line, Ok None)
  else
    let parts := strings.Split line " " in
    let ruleWithType := strings.TrimSpace (hd EmptyString parts) in
    if decide (ruleWithType = EmptyString) then (l, Err (errors.New "empty rule"))
    else
      match parseTypeRule ruleWithType zeroDomain with
      | (_, Some err) => (l, Err err)
      | (rule, None) =>
          match parseAttributes (tl parts) rule with
          | Ok rule => (l, Ok (Some rule))
          | Err e => (l, Err e)
          | Panic msg => (l, Panic msg)
          end
      end.

(** The key under which [classifyRule] files a tagged rule: ["@cn@ads"]. *)
Definition attrsString (attrs : list Domain_Attribute) : attribute :=
  foldl (fun acc attr => acc +:+ ("@" +:+ Key attr)) EmptyString attrs.

(** [classifyRule] *)
Definition classifyRule (l : ListInfo) (rule : Domain) : ListInfo :=
  match Attribute rule with
  | _ :: _ =>
      let l := set_AttributeRuleUniqueList (AttributeRuleUniqueList l ++ [rule]) l in
      set_AttributeRuleListMap
        (append_at (attrsString (Attribute rule)) [rule] (AttributeRuleListMap l)) l
  | [] =>
      match Type_ rule with
      | Domain_Full => set_FullTypeList (FullTypeList l ++ [rule]) l
      | Domain_RootDomain => set_DomainTypeList (DomainTypeList l ++ [rule]) l
      | Domain_Plain => set_KeywordTypeList (KeywordTypeList l ++ [rule]) l
      | Domain_Regex => set_RegexpTypeList (RegexpTypeList l ++ [rule]) l
      end
  end.

(** The end of the loop body of [ProcessList], from the call of [parseRule]
    on. *)
Definition processLine (l : ListInfo) (line : string) : outcome ListInfo :=
  match parseRule l line with
  | (_, Err e) => Err e
  | (_, Panic msg) => Panic msg
  | (l, Ok None) => Ok l
  | (l, Ok (Some parsedRule)) => Ok (classifyRule l parsedRule)
  end.

(** [ProcessList], on the lines that the scanner yields.  The helpers
    [isEmpty] and [removeComment] are not among the sources; the function is
    parametric in them. *)
Section ProcessList.
Variables (isEmpty : string -> bool) (removeComment : string -> string).

Definition processListStep (st : outcome ListInfo) (line : string) : outcome ListInfo :=
  match st with
  | Ok l =>
      if isEmpty line then Ok l
      else
        let line := removeComment line in
        if isEmpty line then Ok l else processLine l line
  | _ => st
  end.

Definition ProcessList (l : ListInfo) (lines : list string) : outcome ListInfo :=
  foldl processListStep (Ok l) lines.

End ProcessList.

End parser.

(** ** The domain trie *)
Module DomainTrie.

(** Modelled from the spec: the trie's source file is not among the sources;
    [Flatten] only shows its interface ([NewDomainTrie] and
    [Insert(value) (bool, error)]).  The design document describes a
    reverse-label trie whose nodes may be marked terminal ("covers everything
    under here"). *)
Inductive node : Type := Node { leaf : bool; children : gmap string node }.

Definition newNode : node := Node false ∅.

(** Modelled from the spec: the walk of one insertion along the labels, least
    significant label first.  The value is accepted if no prefix of its label
    path (the whole path included) ends in a terminal node; on acceptance the
    node at the end of the path is marked terminal and whatever was below it
    is pruned.  A rejected value leaves the trie as it was. *)
Fixpoint insertPath (n : node) (path : list string) : node * bool :=
  if leaf n then (n, false)
  else match path with
       | [] => (Node true ∅, true)
       | part :: rest =>
           let child := default newNode (children n !! part) in
           let '(child', accepted) := insertPath child rest in
           if accepted then (Node false (<[part := child']> (children n)), true)
           else (n, false)
       end.

Record t : Type := mkTrie { root : node }.

(** Modelled from the spec: the empty trie. *)
Definition NewDomainTrie : t := mkTrie newNode.

(** The label path of a value: [strings.Split(value, ".")], right to left. *)
Definition labelPath (domain : string) : list string :=
  rev (strings.Split domain ".").

(** Modelled from the spec: [insert(value) -> accepted]; the contract names no
    failure, so the [error] of the Go signature is always [nil]. *)
Definition Insert (trie : t) (domain : string) : t * (bool * option error) :=
  let '(root', accepted) := insertPath (root trie) (labelPath domain) in
  (mkTrie root', (accepted, None)).

(** A label path is covered when one of its prefixes ends in a terminal node. *)
Fixpoint covered (n : node) (path : list string) : bool :=
  leaf n ||
  match path with
  | [] => false
  | part :: rest =>
      match children n !! part with
      | Some child => covered child rest
      | None => false
      end
  end.

End DomainTrie.

(** ** What the Go runtime leaves open

    [range] over a map visits every entry once, in an order of the runtime's
    choosing; [sort.Slice] returns the slice reordered so that no element is
    [less] than one before it, with no promise for ties.  The development is
    parametric in both: every property below holds for each runtime that
    keeps these promises. *)
Class GoRuntime : Type := {
  map_range : forall {V : Type}, gmap string V -> list (string * V);
  map_range_perm : forall (V : Type) (m : gmap string V),
    map_range m ≡ₚ map_to_list m;
  sort_Slice : forall {A : Type}, (A -> A -> bool) -> list A -> list A;
  sort_Slice_perm : forall (A : Type) (less : A -> A -> bool) (x : list A),
    sort_Slice less x ≡ₚ x;
  sort_Slice_sorted : forall (A : Type) (key : A -> nat) (x : list A),
    StronglySorted (fun a b => key a <= key b)
                   (sort_Slice (fun a b => key a <? key b) x)
}.

(** The insertion sort that [sort.Slice] runs on slices of at most twelve
    elements: each element in turn moves left past the elements it is [less]
    than.  [sift] works on the sorted prefix in reverse. *)
Fixpoint sift {A : Type} (less : A -> A -> bool) (x : A) (rprefix : list A) : list A :=
  match rprefix with
  | [] => [x]
  | y :: rest => if less x y then y :: sift less x rest else x :: rprefix
  end.

Definition insertionSort {A : Type} (less : A -> A -> bool) (x : list A) : list A :=
  rev (foldl (fun rprefix a => sift less a rprefix) [] x).

(** ** The registry and [Flatten] *)

(** [ListInfoMap] maps a file name to a pointer to its [ListInfo].  The map
    doubles as the store: the pointer of a file is its key, the receiver of
    [Flatten] is the entry [self], and a write through the receiver is a
    write to that entry, seen by every later read of [lm[self]]. *)
Abbreviation ListInfoMap := (gmap fileName ListInfo).

(** The number of labels that [Flatten] sorts by. *)
Definition labelCount (domain : Domain) : nat :=
  length (strings.Split (Value domain) ".").

Section Flatten.
Context {rt : GoRuntime}.

(** The case ["@"]: everything of [includedList] is appended.  Each statement
    reads one field of [includedList] and writes the same field of [l], and the
    map loop writes only the key it is visiting, so also when [includedList]
    is [l] itself every read sees the value from before this step. *)
Definition includeAll (l includedList : ListInfo) : ListInfo :=
  let l := set_FullTypeList (FullTypeList l ++ FullTypeList includedList) l in
  let l := set_DomainTypeList (DomainTypeList l ++ DomainTypeList includedList) l in
  let l := set_KeywordTypeList (KeywordTypeList l ++ KeywordTypeList includedList) l in
  let l := set_RegexpTypeList (RegexpTypeList l ++ RegexpTypeList includedList) l in
  let l := set_AttributeRuleUniqueList
             (AttributeRuleUniqueList l ++ AttributeRuleUniqueList includedList) l in
  foldl (fun l '(attr, domainList) =>
           set_AttributeRuleListMap (append_at attr domainList (AttributeRuleListMap l)) l)
        l (map_range (AttributeRuleListMap includedList)).

(** The test of the default case on one key of the included map. *)
Definition attrMatches (attr attrWanted : attribute) : bool :=
  strings.Contains (attr +:+ "@") (attrWanted +:+ "@").

(** The default case: the groups whose key matches [attrWanted].  The loop
    adds no key to [l.AttributeRuleListMap] and writes only the key it is
    visiting, so also when [includedList] is [l] itself each [domainList] is
    the group from before this step. *)
Definition includeWanted (attrWanted : attribute) (l includedList : ListInfo) : ListInfo :=
  foldl (fun l '(attr, domainList) =>
           if attrMatches attr attrWanted then
             let l := set_AttributeRuleListMap
                        (append_at attr domainList (AttributeRuleListMap l)) l in
             set_AttributeRuleUniqueList (AttributeRuleUniqueList l ++ domainList) l
           else l)
        l (map_range (AttributeRuleListMap includedList)).

(** One pass of the inner loop, for [attrWanted] of the file [filename].
    [lm[filename]] of an absent file is the nil pointer, and the first
    field read through it panics. *)
Definition includeStep (self filename : fileName) (st : outcome ListInfoMap)
    (attrWanted : attribute) : outcome ListInfoMap :=
  match st with
  | Ok lm =>
      match lm !! self, lm !! filename with
      | Some l, Some includedList =>
          Ok (<[self := if decide (attrWanted = "@") then includeAll l includedList
                        else includeWanted attrWanted l includedList]> lm)
      | _, _ => Panic "nil pointer dereference"
      end
  | _ => st
  end.

(** The two nested loops over [l.InclusionAttributeMap]. *)
Definition includeLoops (self : fileName) (l : ListInfo) (lm : ListInfoMap)
    : outcome ListInfoMap :=
  foldl (fun st '(filename, attrs) => foldl (includeStep self filename) st attrs)
        (Ok lm) (map_range (InclusionAttributeMap l)).

(** The loop over the sorted [l.DomainTypeList]: the values the trie accepts
    are appended to [uniqueList]. *)
Fixpoint insertLoop (trie : DomainTrie.t) (domains uniqueList : list Domain)
    : outcome (list Domain) :=
  match domains with
  | [] => Ok uniqueList
  | domain :: rest =>
      match DomainTrie.Insert trie (Value domain) with
      | (_, (_, Some err)) => Err err
      | (trie, (success, None)) =>
          insertLoop trie rest (if success then uniqueList ++ [domain] else uniqueList)
      end
  end.

(** [Flatten], called on the file [self] of the registry [lm]. *)
Definition Flatten (lm : ListInfoMap) (self : fileName) : outcome ListInfoMap :=
  match lm !! self with
  | None => Panic "nil pointer dereference"
  | Some l =>
      match (if HasInclusion l then includeLoops self l lm else Ok lm) with
      | Ok lm =>
          match lm !! self with
          | None => Panic "nil pointer dereference"
          | Some l =>
              let l := set_DomainTypeList
                         (sort_Slice (fun a b => labelCount a <? labelCount b)
                                     (DomainTypeList l)) l in
              match insertLoop DomainTrie.NewDomainTrie (DomainTypeList l)
                               (DomainTypeUniqueList l) with
              | Ok uniqueList => Ok (<[self := set_DomainTypeUniqueList uniqueList l]> lm)
              | Err err => Err err
              | Panic msg => Panic msg
              end
          end
      | other => other
      end
  end.

End Flatten.

(** ** [ToGeoSite] *)

(** The loop that clears [ifKeep] at the first excluded attribute. *)
Fixpoint ifKeepLoop (excludeAttrsMap : gmap attribute bool)
    (attrs : list Domain_Attribute) : bool :=
  match attrs with
  | [] => true
  | attr :: rest =>
      if default false (excludeAttrsMap !! Key attr) then false
      else ifKeepLoop excludeAttrsMap rest
  end.

(** One loop over [l.AttributeRuleUniqueList], for the rules of type [ty].
    [excludeAttrs] is [None] for the nil map; an absent key reads as the nil
    inner map. *)
Definition appendTagged (ty : Domain_Type)
    (excludeAttrs : option (gmap fileName (gmap attribute bool)))
    (l : ListInfo) (domains : list Domain) : list Domain :=
  foldl (fun out domain =>
           if decide (Type_ domain = ty) then
             match excludeAttrs ≫= (fun m => m !! Name l) with
             | Some excludeAttrsMap =>
                 if ifKeepLoop excludeAttrsMap (Attribute domain)
                 then out ++ [domain] else out
             | None => out ++ [domain]
             end
           else out)
        domains (AttributeRuleUniqueList l).

Definition ToGeoSite (excludeAttrs : option (gmap fileName (gmap attribute bool)))
    (l : ListInfo) : ListInfo :=
  let domains := [] ++ FullTypeList l in
  let domains := appendTagged Domain_Full excludeAttrs l domains in
  let domains := domains ++ DomainTypeUniqueList l in
  let domains := appendTagged Domain_RootDomain excludeAttrs l domains in
  set_GeoSite (Some (mkGeoSite (Name l) domains)) l.

(** ** The flags of [main] *)
Section flags.
Context {U : Unicode}.

(** The body of the loop of [main] over the entries of [*excludeAttrs]:
    [excludeAttrsInFile[filename]] is made anew, then each non-empty
    attribute, trimmed, is set in it. *)
Definition excludeEntry (excludeAttrsInFile : gmap fileName (gmap attribute bool))
    (exFilenameAttr : string) : gmap fileName (gmap attribute bool) :=
  let exFilenameAttr := strings.TrimSpace exFilenameAttr in
  let exFilenameAttrMap := strings.Split exFilenameAttr "@" in
  let filename := strings.ToUpper (strings.TrimSpace (hd EmptyString exFilenameAttrMap)) in
  let excludeAttrsInFile := <[filename := ∅]> excludeAttrsInFile in
  foldl (fun m attr =>
           let attr := strings.TrimSpace attr in
           if decide (String.length attr = 0) then m
           else <[filename := <[attr := true]> (default ∅ (m !! filename))]> m)
        excludeAttrsInFile (tl exFilenameAttrMap).

(** "Process and split *excludeRules": the map that [main] hands to the
    assembler, from the value of the flag [excludeattrs]. *)
Definition parseExcludeAttrs (excludeAttrs : string)
    : gmap fileName (gmap attribute bool) :=
  if decide (excludeAttrs = EmptyString) then ∅
  else foldl excludeEntry ∅ (strings.Split excludeAttrs ",").

(** "Process and split *exportLists": the names that [main] exports, from
    the value of the flag [exportlists]. *)
Definition parseExportLists (exportLists : string) : list string :=
  if decide (exportLists = EmptyString) then []
  else foldl (fun exportListsSlice exportList =>
                let exportList := strings.TrimSpace exportList in
                if decide (0 < String.length exportList)
                then exportListsSlice ++ [exportList] else exportListsSlice)
             [] (strings.Split exportLists ",").

End flags.

(** ** The text exporters

    A byte slice is a [string]; [append(bytes, []byte(s)...)] is [bytes +:+ s].
    The header of each file holds [time.Now().Format(time.RFC1123)]: the
    formatted time is the parameter [now].  Each exporter reads
    [l.GeoSite.Domain], which panics while [l.GeoSite] is nil. *)

(** The two header lines that the exporters share. *)
Definition generatedHeader (now : string) : string :=
  ("# Generated by https://github.com/caocaocc/rule-set" +:+ String "010" EmptyString)
  +:+ ("# Last Modified: " +:+ now +:+ String "010" (String "010" EmptyString)).

(** The text of one rule in [ToPlainText]: [type:value], then [:@a1,@a2]
    for a tagged rule, the trailing commas trimmed. *)
Definition plainTextRule (rule : Domain) (ruleVal : string) : string :=
  let ruleString :=
    match Type_ rule with
    | Domain_Full => "full:" +:+ ruleVal
    | Domain_RootDomain => "domain:" +:+ ruleVal
    | Domain_Plain => "keyword:" +:+ ruleVal
    | Domain_Regex => "regexp:" +:+ ruleVal
    end in
  match Attribute rule with
  | [] => ruleString
  | _ :: _ =>
      let ruleString := ruleString +:+ ":" in
      let ruleString :=
        foldl (fun ruleString attr => ruleString +:+ ("@" +:+ Key attr +:+ ","))
              ruleString (Attribute rule) in
      strings.TrimRight ruleString ","
  end.

(** [ToPlainText] *)
Definition ToPlainText (now : string) (l : ListInfo) : outcome string :=
  match GeoSite l with
  | None => Panic "nil pointer dereference"
  | Some geosite =>
      Ok (foldl (fun plaintextBytes rule =>
                   let ruleVal := strings.TrimSpace (Value rule) in
                   if decide (String.length ruleVal = 0) then plaintextBytes
                   else plaintextBytes
                        +:+ (plainTextRule rule ruleVal +:+ String "010" EmptyString))
                (generatedHeader now) (GeoSite_Domain geosite))
  end.

(** [ToSurgeList] *)
Definition ToSurgeList (now : string) (l : ListInfo) : outcome string :=
  match GeoSite l with
  | None => Panic "nil pointer dereference"
  | Some geosite =>
      Ok (foldl (fun surgeBytes rule =>
                   let ruleVal := strings.TrimSpace (Value rule) in
                   if decide (String.length ruleVal = 0) then surgeBytes
                   else match Type_ rule with
                        | Domain_Full =>
                            surgeBytes +:+ ("DOMAIN," +:+ ruleVal +:+ String "010" EmptyString)
                        | Domain_RootDomain =>
                            surgeBytes
                            +:+ ("DOMAIN-SUFFIX," +:+ ruleVal +:+ String "010" EmptyString)
                        | _ => surgeBytes
                        end)
                (generatedHeader now) (GeoSite_Domain geosite))
  end.

(** [ToMihomoList] *)
Definition ToMihomoList (now : string) (l : ListInfo) : outcome string :=
  match GeoSite l with
  | None => Panic "nil pointer dereference"
  | Some geosite =>
      Ok (foldl (fun yamlBytes rule =>
                   let ruleVal := strings.TrimSpace (Value rule) in
                   if decide (String.length ruleVal = 0) then yamlBytes
                   else match Type_ rule with
                        | Domain_Full =>
                            yamlBytes
                            +:+ ("  - '" +:+ ruleVal +:+ "'" +:+ String "010" EmptyString)
                        | Domain_RootDomain =>
                            yamlBytes
                            +:+ ("  - '+." +:+ ruleVal +:+ "'" +:+ String "010" EmptyString)
                        | _ => yamlBytes
                        end)
                (generatedHeader now +:+ ("payload:" +:+ String "010" EmptyString))
                (GeoSite_Domain geosite))
  end.

(** The policy that [ToQuantumultXList] picks by the name of the list. *)
Definition policyOf (name : fileName) : string :=
  if decide (name = "PRIVATE") then "direct"
  else if decide (name = "CN") then "direct"
  else if decide (name = "TLD-CN") then "direct"
  else if decide (name = "GEOLOCATION-CN") then "direct"
  else if decide (name = "BILIBILI") then "direct"
  else "proxy".

(** [ToQuantumultXList] *)
Definition ToQuantumultXList (now : string) (l : ListInfo) : outcome string :=
  let policy := policyOf (Name l) in
  match GeoSite l with
  | None => Panic "nil pointer dereference"
  | Some geosite =>
      Ok (foldl (fun qxBytes rule =>
                   let ruleVal := strings.TrimSpace (Value rule) in
                   if decide (String.length ruleVal = 0) then qxBytes
                   else match Type_ rule with
                        | Domain_Full =>
                            qxBytes +:+ ("host, " +:+ ruleVal +:+ ", " +:+ policy
                                         +:+ String "010" EmptyString)
                        | Domain_RootDomain =>
                            qxBytes +:+ ("host-suffix, " +:+ ruleVal +:+ ", " +:+ policy
                                         +:+ String "010" EmptyString)
                        | _ => qxBytes
                        end)
                (generatedHeader now) (GeoSite_Domain geosite))
  end.

(** [ToGFWList].  [time.LoadLocation] returns the location, or nil with an
    error that is dropped; [Time.In] panics on the nil location, before
    anything of [l] is read.  [now] is the time in the location, formatted,
    or [None] when the location did not load. *)
Definition ToGFWList (now : option string) (l : ListInfo) : outcome string :=
  match now with
  | None => Panic "time: missing Location in call to Time.In"
  | Some now =>
  let timeString := "! Last Modified: " +:+ now +:+ String "010" EmptyString in
  let gfwlistBytes := "[AutoProxy 0.2.9]" +:+ String "010" EmptyString in
  let gfwlistBytes := gfwlistBytes +:+ timeString in
  let gfwlistBytes := gfwlistBytes +:+ ("! Expires: 24h" +:+ String "010" EmptyString) in
  let gfwlistBytes :=
    gfwlistBytes +:+ ("! HomePage: https://github.com/caocaocc/rule-set"
                      +:+ String "010" EmptyString) in
  let gfwlistBytes :=
    gfwlistBytes
    +:+ ("! GitHub URL: https://raw.githubusercontent.com/caocaocc/rule-set/release/gfwlist.txt"
         +:+ String "010" EmptyString) in
  let gfwlistBytes :=
    gfwlistBytes
    +:+ ("! jsdelivr URL: https://cdn.jsdelivr.net/gh/caocaocc/rule-set@release/gfwlist.txt"
         +:+ String "010" EmptyString) in
  let gfwlistBytes := gfwlistBytes +:+ String "010" EmptyString in
  match GeoSite l with
  | None => Panic "nil pointer dereference"
  | Some geosite =>
      Ok (foldl (fun gfwlistBytes rule =>
                   let ruleVal := strings.TrimSpace (Value rule) in
                   if decide (String.length ruleVal = 0) then gfwlistBytes
                   else match Type_ rule with
                        | Domain_Full =>
                            let gfwlistBytes :=
                              gfwlistBytes
                              +:+ ("|http://" +:+ ruleVal +:+ String "010" EmptyString) in
                            gfwlistBytes
                            +:+ ("|https://" +:+ ruleVal +:+ String "010" EmptyString)
                        | Domain_RootDomain =>
                            gfwlistBytes +:+ ("||" +:+ ruleVal +:+ String "010" EmptyString)
                        | Domain_Plain =>
                            gfwlistBytes +:+ (ruleVal +:+ String "010" EmptyString)
                        | Domain_Regex =>
                            gfwlistBytes
                            +:+ ("/" +:+ ruleVal +:+ "/" +:+ String "010" EmptyString)
                        end)
                gfwlistBytes (GeoSite_Domain geosite))
  end
  end.

(** * Vocabulary of the properties *)

(** [a] is a strict dot-suffix of [b]: [b] is [x.a] for some [x]. *)
Definition strictDotSuffix (a b : string) : Prop :=
  exists x, b = x +:+ String "." a.

(** What [insertLoop] keeps: the candidates under whose label path no earlier
    candidate's label path lies. *)
Fixpoint keepUncovered (seen : list string) (domains : list Domain) : list Domain :=
  match domains with
  | [] => []
  | domain :: rest =>
      (if bool_decide (Exists (fun e => DomainTrie.labelPath e `prefix_of`
                                         DomainTrie.labelPath (Value domain)) seen)
       then [] else [domain])
      ++ keepUncovered (Value domain :: seen) rest
  end.

(** The trie covers exactly what lies under the values seen so far. *)
Definition tracks (trie : DomainTrie.t) (seen : list string) : Prop :=
  forall p, DomainTrie.covered (DomainTrie.root trie) p = true <->
            exists e, In e seen /\ DomainTrie.labelPath e `prefix_of` p.

(** [l'] is [l] with rules appended: the lists of [l] are prefixes of the
    lists of [l'], group by group for the tagged-rule map, and the other
    fields are the same. *)
Record extends (l l' : ListInfo) : Prop := mkExtends {
  ext_Name : Name l' = Name l;
  ext_HasInclusion : HasInclusion l' = HasInclusion l;
  ext_InclusionAttributeMap : InclusionAttributeMap l' = InclusionAttributeMap l;
  ext_FullTypeList : FullTypeList l `prefix_of` FullTypeList l';
  ext_KeywordTypeList : KeywordTypeList l `prefix_of` KeywordTypeList l';
  ext_RegexpTypeList : RegexpTypeList l `prefix_of` RegexpTypeList l';
  ext_AttributeRuleUniqueList :
    AttributeRuleUniqueList l `prefix_of` AttributeRuleUniqueList l';
  ext_DomainTypeList : DomainTypeList l `prefix_of` DomainTypeList l';
  ext_DomainTypeUniqueList : DomainTypeUniqueList l' = DomainTypeUniqueList l;
  ext_AttributeRuleListMap : forall k,
    slice_at (AttributeRuleListMap l) k `prefix_of` slice_at (AttributeRuleListMap l') k;
  ext_GeoSite : GeoSite l' = GeoSite l
}.

(** The map loop of both cases: [m[attr] = append(m[attr], domainList...)]
    for each listed entry. *)
Definition appendGroups (groups : list (attribute * list Domain))
    (m : gmap attribute (list Domain)) : gmap attribute (list Domain) :=
  foldl (fun m '(attr, domainList) => append_at attr domainList m) m groups.

(** The groups that the default case takes. *)
Definition wantedGroups (attrWanted : attribute) (groups : list (attribute * list Domain))
    : list (attribute * list Domain) :=
  filter (fun g => attrMatches g.1 attrWanted = true) groups.

(** [lm'] is [lm] with rules appended to the entry [self], and nothing else
    changed. *)
Definition frame (self : fileName) (lm lm' : ListInfoMap) : Prop :=
  (forall f, f <> self -> lm' !! f = lm !! f) /\
  exists l l', lm !! self = Some l /\ lm' !! self = Some l' /\ extends l l'.

(** A property of the store of an [Ok] outcome. *)
Definition okP {A : Type} (P : A -> Prop) (st : outcome A) : Prop :=
  match st with Ok a => P a | _ => True end.


(** [Flatten] without the trie: the entry [self] after the loops, with its
    suffix list sorted and the uncovered candidates appended to the unique
    list. *)
Definition flattened {rt : GoRuntime} (l1 : ListInfo) : ListInfo :=
  let sorted := sort_Slice (fun a b => labelCount a <? labelCount b) (DomainTypeList l1) in
  set_DomainTypeUniqueList (DomainTypeUniqueList l1 ++ keepUncovered [] sorted)
    (set_DomainTypeList sorted l1).

(** The exclusion set of the file holds one of the tags of the rule. *)
Definition excluded (excludeAttrs : option (gmap fileName (gmap attribute bool)))
    (name : fileName) (domain : Domain) : Prop :=
  exists excludeAttrsMap attr,
    excludeAttrs ≫= (fun m => m !! name) = Some excludeAttrsMap /\
    In attr (Attribute domain) /\ excludeAttrsMap !! Key attr = Some true.

(** A tagged rule of type [ty] that the exclusion set of the file lets through. *)
Definition survives (excludeAttrs : option (gmap fileName (gmap attribute bool)))
    (name : fileName) (ty : Domain_Type) (domain : Domain) : Prop :=
  Type_ domain = ty /\ ~ excluded excludeAttrs name domain.

(** The rules handed to the exporters. *)
Definition compiled (excludeAttrs : option (gmap fileName (gmap attribute bool)))
    (l : ListInfo) : list Domain :=
  from_option GeoSite_Domain [] (GeoSite (ToGeoSite excludeAttrs l)).

(** ** Well-formed collections

    What the parser establishes and [Flatten] keeps: each untagged list holds
    untagged rules of its own type, the tagged list holds tagged rules, and
    every group of the tagged-rule map is filed under the key of its rules. *)
Definition untaggedOf (ty : Domain_Type) (domains : list Domain) : Prop :=
  Forall (fun d => Type_ d = ty /\ Attribute d = []) domains.

Record wellFormed (l : ListInfo) : Prop := mkWellFormed {
  wf_Full : untaggedOf Domain_Full (FullTypeList l);
  wf_Keyword : untaggedOf Domain_Plain (KeywordTypeList l);
  wf_Regexp : untaggedOf Domain_Regex (RegexpTypeList l);
  wf_Domain : untaggedOf Domain_RootDomain (DomainTypeList l);
  wf_Unique : untaggedOf Domain_RootDomain (DomainTypeUniqueList l);
  wf_Tagged : Forall (fun d => Attribute d <> []) (AttributeRuleUniqueList l);
  wf_Groups : forall k ds, AttributeRuleListMap l !! k = Some ds ->
    Forall (fun d => Attribute d <> [] /\ attrsString (Attribute d) = k) ds
}.

(** The kind that a type prefix names. *)
Definition kindOf {U : Unicode} (ruleType : string) : option Domain_Type :=
  if decide (strings.ToLower ruleType = "full") then Some Domain_Full
  else if decide (strings.ToLower ruleType = "domain") then Some Domain_RootDomain
  else if decide (strings.ToLower ruleType = "keyword") then Some Domain_Plain
  else if decide (strings.ToLower ruleType = "regexp") then Some Domain_Regex
  else None.

(** [part] stands in [whole], in one piece and in its order. *)
Definition segmentOf {A : Type} (part whole : list A) : Prop :=
  exists pre post, whole = pre ++ part ++ post.

(** The lists of [target] stand, each in one piece, in the lists of [l]. *)
Record holdsAll (target l : ListInfo) : Prop := mkHoldsAll {
  holds_Full : segmentOf (FullTypeList target) (FullTypeList l);
  holds_Keyword : segmentOf (KeywordTypeList target) (KeywordTypeList l);
  holds_Regexp : segmentOf (RegexpTypeList target) (RegexpTypeList l);
  holds_Domain : segmentOf (DomainTypeList target) (DomainTypeList l);
  holds_Tagged :
    segmentOf (AttributeRuleUniqueList target) (AttributeRuleUniqueList l);
  holds_Groups : forall k,
    segmentOf (slice_at (AttributeRuleListMap target) k)
              (slice_at (AttributeRuleListMap l) k)
}.

(** The tags that a group key spells: ["@cn@ads"] spells [cn] and [ads]. *)
Definition keyTags (k : attribute) : list string := tl (strings.Split k "@").

(** Membership of a tag in a list of tags is decidable. *)
#[global] Instance In_tag_dec (w : string) (ws : list string) : Decision (In w ws) :=
  in_dec String.string_dec w ws.




(** ** What the parser stores *)

(** The value that the parser stores: trimmed, with neither blank nor colon,
    and lower-case unless the rule is a regular expression. *)
Definition storedValue {U : Unicode} (ty : Domain_Type) (v : string) : Prop :=
  strings.TrimSpace v = v /\ strings.hasByte " " v = false /\
  strings.hasByte ":" v = false /\
  (ty <> Domain_Regex -> strings.ToLower v = v).

(** The tags that the parser stores: lower-case keys without a blank, each
    with the value [true]. *)
Definition storedTag {U : Unicode} (a : Domain_Attribute) : Prop :=
  strings.ToLower (Key a) = Key a /\ strings.hasByte " " (Key a) = false /\
  TypedValue a = Domain_Attribute_BoolValue true.

(** The inclusion loops end well or in the panic of a nil dereference. *)
Definition okOrNil (st : outcome ListInfoMap) : Prop :=
  match st with
  | Ok _ => True
  | Err _ => False
  | Panic msg => msg = "nil pointer dereference"
  end.

(** ** The entries of the flag [excludeattrs] *)

(** The file that an entry names. *)
Definition entryFile {U : Unicode} (exFilenameAttr : string) : fileName :=
  strings.ToUpper (strings.TrimSpace
    (hd EmptyString (strings.Split (strings.TrimSpace exFilenameAttr) "@"))).

(** The tags that an entry lists. *)
Definition entryTags (exFilenameAttr : string) : list attribute :=
  filter (fun attr => attr <> EmptyString)
         (map strings.TrimSpace
              (tl (strings.Split (strings.TrimSpace exFilenameAttr) "@"))).

(** The exclusion set that holds the given tags. *)
Definition tagSet (tags : list attribute) : gmap attribute bool :=
  list_to_map (map (fun attr => (attr, true)) tags).

(** ** The lines of the exporters *)

(** The text of the given lines, each ended by a line feed. *)
Definition lines (ls : list string) : string :=
  foldr (fun line rest => line +:+ String "010" rest) EmptyString ls.

(** The value of the rule is not blank. *)
Definition nonBlank (rule : Domain) : Prop :=
  strings.TrimSpace (Value rule) <> EmptyString.

(** The rule is a full-domain rule or a suffix rule. *)
Definition listed (rule : Domain) : Prop :=
  Type_ rule = Domain_Full \/ Type_ rule = Domain_RootDomain.

#[global] Instance nonBlank_dec rule : Decision (nonBlank rule).
Proof. unfold nonBlank. apply _. Defined.

#[global] Instance listed_dec rule : Decision (listed rule).
Proof. unfold listed. apply _. Defined.

(** The line of a rule in each format, without its line feed. *)
Definition plainTextLine (rule : Domain) : string :=
  plainTextRule rule (strings.TrimSpace (Value rule)).

Definition surgeLine (rule : Domain) : string :=
  (if decide (Type_ rule = Domain_Full) then "DOMAIN," else "DOMAIN-SUFFIX,")
  +:+ strings.TrimSpace (Value rule).

Definition mihomoLine (rule : Domain) : string :=
  (if decide (Type_ rule = Domain_Full) then "  - '" else "  - '+.")
  +:+ strings.TrimSpace (Value rule) +:+ "'".

Definition quantumultXLine (policy : string) (rule : Domain) : string :=
  (if decide (Type_ rule = Domain_Full) then "host, " else "host-suffix, ")
  +:+ strings.TrimSpace (Value rule) +:+ ", " +:+ policy.

(** The header of the GFWList file. *)
Definition gfwHeader (now : string) : string :=
  lines ["[AutoProxy 0.2.9]"; "! Last Modified: " +:+ now; "! Expires: 24h";
         "! HomePage: https://github.com/caocaocc/rule-set";
         "! GitHub URL: https://raw.githubusercontent.com/caocaocc/rule-set/release/gfwlist.txt";
         "! jsdelivr URL: https://cdn.jsdelivr.net/gh/caocaocc/rule-set@release/gfwlist.txt";
         EmptyString].

(** The lines of a rule in the GFWList file. *)
Definition gfwLines (rule : Domain) : list string :=
  let ruleVal := strings.TrimSpace (Value rule) in
  match Type_ rule with
  | Domain_Full => ["|http://" +:+ ruleVal; "|https://" +:+ ruleVal]
  | Domain_RootDomain => ["||" +:+ ruleVal]
  | Domain_Plain => [ruleVal]
  | Domain_Regex => ["/" +:+ ruleVal +:+ "/"]
  end.

(** An ASCII byte that is no white space. *)
Definition plainByte (c : ascii) : bool :=
  strings.isASCIIByte c && negb (strings.asciiSpace c).

(** A byte that starts the encoding of a white-space rune. *)
Definition leadByte (c : ascii) : bool :=
  strings.asciiSpace c || Ascii.eqb c "194" || Ascii.eqb c "225"
  || Ascii.eqb c "226" || Ascii.eqb c "227".

(** The number of occurrences of a byte ([strings.Count] for one byte). *)
Fixpoint countByte (c : ascii) (s : string) : nat :=
  match s with
  | EmptyString => 0
  | String d s' => (if Ascii.eqb d c then 1 else 0) + countByte c s'
  end.

(** * Sample files *)

(** The strings of the sample files are ASCII, where the instances of
    [Unicode] all agree.  To evaluate the parser on them, an instance that
    maps the ASCII letters of any string. *)
#[global] Instance ascii_letters : Unicode :=
  {| Map_ToLower := strings.mapBytes strings.lowerByte;
     Map_ToUpper := strings.mapBytes strings.upperByte |}.

(** A file given by its lines, none of them blank or with a comment: the
    helpers of [ProcessList] have nothing to skip and nothing to cut. *)
Definition parseLines {U : Unicode} (name : fileName) (lines : list string) : outcome ListInfo :=
  ProcessList (fun _ => false) (fun line => line) (set_Name name NewListInfo) lines.

(** The registry of the files that parse, each under its name. *)
Definition registry {U : Unicode} (files : list (fileName * list string)) : ListInfoMap :=
  foldl (fun lm '(name, lines) =>
           match parseLines name lines with
           | Ok l => <[name := l]> lm
           | _ => lm
           end) ∅ files.

(** The values of a list of rules. *)
Definition values (domains : list Domain) : list string := map Value domains.

(** The registry after [Flatten] on a file, when it succeeds. *)
Definition flattenOk (rt : GoRuntime) (lm : ListInfoMap) (self : fileName) : ListInfoMap :=
  match @Flatten rt lm self with
  | Ok lm' => lm'
  | _ => lm
  end.

(** The file [name] of the registry, flattened. *)
Definition flattenedFile (rt : GoRuntime) (lm : ListInfoMap) (name : fileName) : ListInfo :=
  default NewListInfo (flattenOk rt lm name !! name).


(** A file with a chain of three suffix rules, each under the one before. *)
Definition chainFiles : ListInfoMap :=
  registry [("A", ["a.b.example.com"; "b.example.com"; "example.com"; "direct.net"])].



(** A file with rules of the four kinds, tagged and untagged. *)
Definition mixedFiles : ListInfoMap :=
  registry [("CN", ["full:www.example.com"; "full:host.test @cn @ads";
                    "keyword:pixel"; "keyword:tracker @cn";
                    "regexp:^ad[0-9]+\.example$"; "example.com";
                    "shop.example.com @ads"; "cdn.example.net @cn"])].

(** [B] includes [A] without a filter. *)
Definition includingFiles : list (fileName * list string) :=
  [("A", ["example.com"; "mail.example.com"; "full:login.example.com";
          "keyword:exam"; "regexp:^ex[a-z]+\.com$"; "full:cn.example.com @cn";
          "ads.example.org @ads @cn"]);
   ("B", ["direct.net"; " include:a "; "full:www.direct.net"])].


(** A file that holds rules of every kind, and one that includes it. *)
Definition typedFiles : ListInfoMap :=
  registry [("BASE", ["full:a.example.org"; "keyword:exa"; "regexp:^b\.example$";
                      "example.org"; "sub.example.org @cn"]);
            ("TOP", ["include:base"; "include:base @cn"; "top.example"])].

(** The exclusion configuration [{CN: {ads}}]. *)
Definition excludeAds : option (gmap fileName (gmap attribute bool)) :=
  Some {["CN" := {["ads" := true]}]}.

(** Rules of the file [CN] of [mixedFiles]. *)
Definition hostTest : Domain :=
  mkDomain Domain_Full "host.test"
    [mkAttribute "cn" (Domain_Attribute_BoolValue true);
     mkAttribute "ads" (Domain_Attribute_BoolValue true)].

Definition cdnExampleNet : Domain :=
  mkDomain Domain_RootDomain "cdn.example.net"
    [mkAttribute "cn" (Domain_Attribute_BoolValue true)].

Definition keywordTracker : Domain :=
  mkDomain Domain_Plain "tracker" [mkAttribute "cn" (Domain_Attribute_BoolValue true)].

Definition keywordPixel : Domain := mkDomain Domain_Plain "pixel" [].

(** A file that includes a file that is not in the registry. *)
Definition danglingFiles : ListInfoMap :=
  registry [("A", ["include:b"; "a.com"])].

(** An exclusion configuration that names another file only. *)
Definition excludeElsewhere : option (gmap fileName (gmap attribute bool)) :=
  Some {["GEOLOCATION-CN" := {["ads" := true]}]}.

(** An untagged rule of the file [CN] of [mixedFiles]. *)
Definition wwwExampleCom : Domain := mkDomain Domain_Full "www.example.com" [].

(** A file whose suffix rules are not declared by label count. *)
Definition orderFiles : ListInfoMap :=
  registry [("A", ["www.example.org"; "example.com"; "full:login.example.org"])].

(** * Properties *)

(** ** Strings *)
Module strings_facts.
Import strings.

Lemma sapp_cons c (a b : string) : String c a +:+ b = String c (a +:+ b).
Proof. reflexivity. Qed.

Lemma sapp_nil_r (a : string) : a +:+ EmptyString = a.
Proof. induction a as [|c a IH]; [reflexivity|]. rewrite sapp_cons, IH. reflexivity. Qed.

Lemma sapp_assoc (a b c : string) : (a +:+ b) +:+ c = a +:+ (b +:+ c).
Proof.
  induction a as [|x a IH]; [reflexivity|].
  rewrite !sapp_cons, IH. reflexivity.
Qed.

Lemma Split_not_nil s sep : Split s sep <> [].
Proof.
  destruct s as [|c s]; simpl; [discriminate|].
  destruct (Ascii.eqb c sep); [discriminate|].
  destruct (Split s sep); discriminate.
Qed.

Lemma Split_length_pos s sep : 1 <= length (Split s sep).
Proof.
  pose proof (Split_not_nil s sep) as H.
  destruct (Split s sep); [congruence | simpl; lia].
Qed.

(** Splitting distributes over a separator. *)
Lemma Split_app x a sep :
  Split (x +:+ String sep a) sep = Split x sep ++ Split a sep.
Proof.
  induction x as [|c x IH].
  - simpl. unfold String.append. simpl. rewrite Ascii.eqb_refl. reflexivity.
  - rewrite sapp_cons. simpl. destruct (Ascii.eqb c sep).
    + rewrite IH. reflexivity.
    + rewrite IH. pose proof (Split_not_nil x sep) as Hx.
      destruct (Split x sep); [congruence | reflexivity].
Qed.

Lemma Split_no_sep s sep : hasByte sep s = false -> Split s sep = [s].
Proof.
  induction s as [|c s IH]; simpl; [reflexivity|].
  intros [Hc Hs]%orb_false_iff. rewrite Hc, (IH Hs). reflexivity.
Qed.

Lemma Split_pieces_no_sep s sep : Forall (fun w => hasByte sep w = false) (Split s sep).
Proof.
  induction s as [|c s IH]; simpl.
  - constructor; [reflexivity | constructor].
  - destruct (Ascii.eqb c sep) eqn:Hc.
    + constructor; [reflexivity | exact IH].
    + destruct (Split s sep) as [|w ws]; [repeat constructor; simpl; rewrite Hc; reflexivity|].
      inversion IH; subst. constructor; [simpl; rewrite Hc; assumption | assumption].
Qed.

Lemma Join_cons w ws sep :
  ws <> [] -> Join (w :: ws) sep = w +:+ String sep (Join ws sep).
Proof. destruct ws; [congruence | reflexivity]. Qed.

Lemma Join_Split s sep : Join (Split s sep) sep = s.
Proof.
  induction s as [|c s IH]; [reflexivity|]. simpl.
  destruct (Ascii.eqb c sep) eqn:Hc.
  - apply Ascii.eqb_eq in Hc. subst c.
    rewrite Join_cons by apply Split_not_nil. rewrite IH. reflexivity.
  - pose proof (Split_not_nil s sep) as Hne.
    destruct (Split s sep) as [|w ws]; [congruence|].
    destruct ws as [|w' ws].
    + simpl in *. congruence.
    + rewrite Join_cons by discriminate. rewrite Join_cons in IH by discriminate.
      rewrite sapp_cons, IH. reflexivity.
Qed.

Lemma Join_app xs ys sep :
  xs <> [] -> ys <> [] ->
  Join (xs ++ ys) sep = Join xs sep +:+ String sep (Join ys sep).
Proof.
  induction xs as [|x xs IH]; [congruence|]. intros _ Hys.
  destruct xs as [|x' xs].
  - simpl app. rewrite Join_cons by assumption. reflexivity.
  - change ((x :: x' :: xs) ++ ys) with (x :: ((x' :: xs) ++ ys)).
    rewrite Join_cons by (simpl; discriminate).
    rewrite IH by (assumption || discriminate).
    rewrite (Join_cons x (x' :: xs)) by discriminate.
    rewrite sapp_assoc, sapp_cons. reflexivity.
Qed.

Lemma prefix_app p s : String.prefix p (p +:+ s) = true.
Proof.
  induction p as [|c p IH]; [destruct s; reflexivity|].
  rewrite sapp_cons. simpl. destruct (ascii_dec c c); [exact IH | congruence].
Qed.

Lemma prefix_inv p s : String.prefix p s = true -> exists post, s = p +:+ post.
Proof.
  revert s. induction p as [|c p IH]; intros s H.
  - exists s. reflexivity.
  - destruct s as [|d s]; simpl in H; [discriminate|].
    destruct (ascii_dec c d); [|discriminate]. subst d.
    destruct (IH _ H) as [post ->]. exists post. reflexivity.
Qed.

Lemma Contains_unfold s sub :
  Contains s sub =
  String.prefix sub s ||
  match s with EmptyString => false | String _ s' => Contains s' sub end.
Proof. destruct s; reflexivity. Qed.

(** [Contains] finds exactly the occurrences. *)
Lemma Contains_spec s sub :
  Contains s sub = true <-> exists pre post, s = pre +:+ sub +:+ post.
Proof.
  split.
  - induction s as [|c s IH]; rewrite Contains_unfold.
    + rewrite orb_false_r. intros H. apply prefix_inv in H as [post ->].
      exists EmptyString, post. reflexivity.
    + intros [H|H]%orb_true_iff.
      * apply prefix_inv in H as [post H]. exists EmptyString, post. exact H.
      * destruct (IH H) as (pre & post & ->). exists (String c pre), post. reflexivity.
  - intros (pre & post & ->). induction pre as [|c pre IH].
    + change (EmptyString +:+ sub +:+ post) with (sub +:+ post).
      rewrite Contains_unfold, prefix_app. reflexivity.
    + rewrite sapp_cons, Contains_unfold, IH. apply orb_true_r.
Qed.

End strings_facts.

(** ** White space *)
Section space_facts.
Import strings strings_facts.

Lemma plainByte_not_space c : plainByte c = true -> asciiSpace c = false.
Proof. unfold plainByte. intros [_ H]%andb_true_iff. apply negb_true_iff, H. Qed.

Lemma plainByte_not_lead c : plainByte c = true -> leadByte c = false.
Proof. destruct c as [[] [] [] [] [] [] [] []]; vm_compute; congruence. Qed.

Lemma asciiSpace_lead c : asciiSpace c = true -> leadByte c = true.
Proof. unfold leadByte. intros ->. reflexivity. Qed.

(** A byte that starts no white-space rune starts no white space. *)
Lemma leadSpace_not_lead c s : leadByte c = false -> leadSpace (String c s) = None.
Proof.
  unfold leadByte. rewrite !orb_false_iff. intros [[[[Hs H2] H3] H4] H5].
  unfold leadSpace, spaceRune2, spaceRune3. rewrite Hs, H2, H3, H4, H5.
  destruct s as [|d [|e s3]]; reflexivity.
Qed.

Lemma leadSpace_plain c s : plainByte c = true -> leadSpace (String c s) = None.
Proof. intros H. apply leadSpace_not_lead, plainByte_not_lead, H. Qed.

Lemma leadSpace_lead c s r : leadSpace (String c s) = Some r -> leadByte c = true.
Proof.
  intros H. destruct (leadByte c) eqn:E; [reflexivity|].
  rewrite (leadSpace_not_lead _ _ E) in H. discriminate.
Qed.

(** The later bytes of the encoding of a white-space rune start none. *)
Lemma spaceRune2_tail c d : spaceRune2 c d = true -> leadByte d = false.
Proof.
  unfold spaceRune2. rewrite andb_true_iff, orb_true_iff, !Ascii.eqb_eq.
  intros [_ [->| ->]]; reflexivity.
Qed.

Lemma range_tail e :
  (128 <=? nat_of_ascii e) && (nat_of_ascii e <=? 138) = true -> leadByte e = false.
Proof. destruct e as [[] [] [] [] [] [] [] []]; vm_compute; congruence. Qed.

Lemma spaceRune3_tail c d e :
  spaceRune3 c d e = true -> leadByte d = false /\ leadByte e = false.
Proof.
  unfold spaceRune3. rewrite !orb_true_iff, !andb_true_iff, !orb_true_iff, !Ascii.eqb_eq.
  intros [[[[[_ ->] ->]|[[_ ->] [[[He| ->]| ->]| ->]]]|[[_ ->] ->]]|[[_ ->] ->]];
    try (split; reflexivity).
  split; [reflexivity | apply range_tail, He].
Qed.

Lemma spaceRune2_head c d : spaceRune2 c d = true -> asciiSpace c = false.
Proof.
  unfold spaceRune2. rewrite andb_true_iff, Ascii.eqb_eq. intros [-> _]. reflexivity.
Qed.

Lemma spaceRune3_head c d e :
  spaceRune3 c d e = true -> asciiSpace c = false /\ spaceRune2 c d = false.
Proof.
  unfold spaceRune3, spaceRune2.
  rewrite !orb_true_iff, !andb_true_iff, !orb_true_iff, !Ascii.eqb_eq.
  intros [[[[[-> _] _]|[[-> _] _]]|[[-> _] _]]|[[-> _] _]]; split; reflexivity.
Qed.

(** The encodings of white space, put before any string. *)
Lemma leadSpace_1 c r : asciiSpace c = true -> leadSpace (String c r) = Some r.
Proof. intros Hc. simpl. rewrite Hc. reflexivity. Qed.

Lemma leadSpace_2 c d r : spaceRune2 c d = true -> leadSpace (String c (String d r)) = Some r.
Proof. intros H2. simpl. rewrite (spaceRune2_head _ _ H2), H2. reflexivity. Qed.

Lemma leadSpace_3 c d e r :
  spaceRune3 c d e = true -> leadSpace (String c (String d (String e r))) = Some r.
Proof.
  intros H3. destruct (spaceRune3_head _ _ _ H3) as [Hc H2].
  simpl. rewrite Hc, H2, H3. reflexivity.
Qed.

(** [TrimLeftSpace] drops white-space runes as long as one leads. *)
Lemma TrimLeftSpace_unfold s :
  TrimLeftSpace s = match leadSpace s with
                    | Some r => TrimLeftSpace r
                    | None => s
                    end.
Proof.
  destruct s as [|c [|d [|e s3]]]; simpl; [reflexivity| | |].
  - destruct (asciiSpace c); reflexivity.
  - destruct (asciiSpace c); [reflexivity|]. destruct (spaceRune2 c d); reflexivity.
  - destruct (asciiSpace c); [reflexivity|]. destruct (spaceRune2 c d); [reflexivity|].
    destruct (spaceRune3 c d e); reflexivity.
Qed.

(** What [leadSpace] drops: one, two or three bytes. *)
Lemma leadSpace_inv s r :
  leadSpace s = Some r ->
  (exists c, s = String c r /\ asciiSpace c = true)
  \/ (exists c d, s = String c (String d r) /\ spaceRune2 c d = true)
  \/ (exists c d e, s = String c (String d (String e r)) /\ spaceRune3 c d e = true).
Proof.
  destruct s as [|c s1]; simpl; [discriminate|].
  destruct (asciiSpace c) eqn:Hc; [intros [= <-]; left; eauto|].
  destruct s1 as [|d s2]; [discriminate|].
  destruct (spaceRune2 c d) eqn:H2; [intros [= <-]; right; left; eauto|].
  destruct s2 as [|e s3]; [discriminate|].
  destruct (spaceRune3 c d e) eqn:H3; [intros [= <-]; right; right; eauto 6|discriminate].
Qed.

Lemma leadSpace_length s r : leadSpace s = Some r -> String.length r < String.length s.
Proof.
  intros [(c & -> & _)|[(c & d & -> & _)|(c & d & e & -> & _)]]%leadSpace_inv; simpl; lia.
Qed.

Lemma leadSpace_app a r b : leadSpace a = Some r -> leadSpace (a +:+ b) = Some (r +:+ b).
Proof.
  intros [(c & -> & Hc)|[(c & d & -> & H2)|(c & d & e & -> & H3)]]%leadSpace_inv;
    rewrite !sapp_cons.
  - apply leadSpace_1, Hc.
  - apply leadSpace_2, H2.
  - apply leadSpace_3, H3.
Qed.

(** Induction along the runes that [TrimLeftSpace] drops. *)
Lemma trimLeft_ind (P : string -> Prop) :
  (forall s, leadSpace s = None -> P s) ->
  (forall s r, leadSpace s = Some r -> P r -> P s) ->
  forall s, P s.
Proof.
  intros Hnone Hsome s.
  remember (String.length s) as n eqn:Hn. revert s Hn.
  induction n as [n IH] using lt_wf_ind. intros s ->.
  destruct (leadSpace s) as [r|] eqn:E; [|apply Hnone, E].
  apply (Hsome s r E). apply (IH (String.length r)); [|reflexivity].
  apply leadSpace_length, E.
Qed.

Lemma TrimLeftSpace_lead s : leadSpace (TrimLeftSpace s) = None.
Proof.
  induction s as [s E|s r E IH] using trimLeft_ind; rewrite TrimLeftSpace_unfold, E; auto.
Qed.

Lemma TrimLeftSpace_fixed s : leadSpace s = None -> TrimLeftSpace s = s.
Proof. intros E. rewrite TrimLeftSpace_unfold, E. reflexivity. Qed.

Lemma TrimLeftSpace_idem s : TrimLeftSpace (TrimLeftSpace s) = TrimLeftSpace s.
Proof. apply TrimLeftSpace_fixed, TrimLeftSpace_lead. Qed.

Lemma TrimLeftSpace_space c s : asciiSpace c = true -> TrimLeftSpace (String c s) = TrimLeftSpace s.
Proof. intros Hc. simpl. rewrite Hc. reflexivity. Qed.

Lemma TrimLeftSpace_plain c s : plainByte c = true -> TrimLeftSpace (String c s) = String c s.
Proof. intros Hc. apply TrimLeftSpace_fixed, leadSpace_plain, Hc. Qed.

Lemma TrimLeftSpace_head s c r : TrimLeftSpace s = String c r -> asciiSpace c = false.
Proof.
  intros E. pose proof (TrimLeftSpace_lead s) as H. rewrite E in H.
  simpl in H. destruct (asciiSpace c); [discriminate | reflexivity].
Qed.

(** What is dropped on the left holds white space only, and what is kept is
    the end of the string. *)
Lemma TrimLeftSpace_drop a r b : leadSpace a = Some r -> TrimLeftSpace (a +:+ b) = TrimLeftSpace (r +:+ b).
Proof. intros E. rewrite TrimLeftSpace_unfold, (leadSpace_app _ _ b E). reflexivity. Qed.

Lemma TrimLeftSpace_split s :
  exists pre, s = pre +:+ TrimLeftSpace s /\ TrimLeftSpace pre = EmptyString.
Proof.
  induction s as [s E|s r E (pre & Hpre & Hall)] using trimLeft_ind.
  - exists EmptyString. rewrite (TrimLeftSpace_fixed _ E). auto.
  - rewrite (TrimLeftSpace_unfold s), E.
    apply leadSpace_inv in E as [(c & -> & Hc)|[(c & d & -> & H2)|(c & d & e & -> & H3)]].
    + exists (String c pre). rewrite sapp_cons, <- Hpre. split; [reflexivity|].
      rewrite TrimLeftSpace_unfold, (leadSpace_1 _ _ Hc). exact Hall.
    + exists (String c (String d pre)). rewrite !sapp_cons, <- Hpre. split; [reflexivity|].
      rewrite TrimLeftSpace_unfold, (leadSpace_2 _ _ _ H2). exact Hall.
    + exists (String c (String d (String e pre))). rewrite !sapp_cons, <- Hpre.
      split; [reflexivity|].
      rewrite TrimLeftSpace_unfold, (leadSpace_3 _ _ _ _ H3). exact Hall.
Qed.

(** White space before a string does not count. *)
Lemma TrimLeftSpace_app a b :
  TrimLeftSpace a = EmptyString -> TrimLeftSpace (a +:+ b) = TrimLeftSpace b.
Proof.
  induction a as [a E|a r E IH] using trimLeft_ind.
  - rewrite (TrimLeftSpace_fixed _ E). intros ->. reflexivity.
  - rewrite (TrimLeftSpace_unfold a), E. intros Hr.
    rewrite (TrimLeftSpace_drop _ _ b E). apply IH, Hr.
Qed.

Lemma hasByte_app c a b : hasByte c (a +:+ b) = hasByte c a || hasByte c b.
Proof.
  induction a as [|d a IH]; [reflexivity|].
  rewrite sapp_cons. simpl. rewrite IH, orb_assoc. reflexivity.
Qed.

Lemma countByte_app c a b : countByte c (a +:+ b) = countByte c a + countByte c b.
Proof.
  induction a as [|d a IH]; [reflexivity|].
  rewrite sapp_cons. simpl. rewrite IH. lia.
Qed.

Lemma hasByte_count c s : hasByte c s = false <-> countByte c s = 0.
Proof.
  induction s as [|d s IH]; simpl; [tauto|].
  destruct (Ascii.eqb d c); simpl; [split; [discriminate | lia] | exact IH].
Qed.

Lemma isASCII_app a b : isASCII (a +:+ b) = isASCII a && isASCII b.
Proof.
  induction a as [|c a IH]; [reflexivity|].
  rewrite sapp_cons. simpl. rewrite IH, andb_assoc. reflexivity.
Qed.

(** The bytes of the longer encodings of white space are above 127. *)
Lemma spaceRune2_bytes c d :
  spaceRune2 c d = true -> isASCIIByte c = false /\ isASCIIByte d = false.
Proof.
  unfold spaceRune2. rewrite andb_true_iff, orb_true_iff, !Ascii.eqb_eq.
  intros [-> [->| ->]]; split; reflexivity.
Qed.

Lemma range_byte e :
  (128 <=? nat_of_ascii e) && (nat_of_ascii e <=? 138) = true -> isASCIIByte e = false.
Proof. destruct e as [[] [] [] [] [] [] [] []]; vm_compute; congruence. Qed.

Lemma spaceRune3_bytes c d e :
  spaceRune3 c d e = true ->
  isASCIIByte c = false /\ isASCIIByte d = false /\ isASCIIByte e = false.
Proof.
  unfold spaceRune3. rewrite !orb_true_iff, !andb_true_iff, !orb_true_iff, !Ascii.eqb_eq.
  intros [[[[[-> ->] ->]|[[-> ->] [[[He| ->]| ->]| ->]]]|[[-> ->] ->]]|[[-> ->] ->]];
    try (repeat split; reflexivity).
  repeat split; try reflexivity. apply range_byte, He.
Qed.

Lemma plainByte_eqb b c :
  plainByte c = true -> asciiSpace b = true \/ isASCIIByte b = false -> Ascii.eqb b c = false.
Proof.
  intros Hc Hb. destruct (Ascii.eqb b c) eqn:E; [|reflexivity].
  apply Ascii.eqb_eq in E. subst b. unfold plainByte in Hc.
  apply andb_true_iff in Hc as [H1 H2%negb_true_iff]. destruct Hb; congruence.
Qed.

(** A dropped white-space rune holds no plain byte. *)
Lemma leadSpace_count c s r :
  plainByte c = true -> leadSpace s = Some r -> countByte c s = countByte c r.
Proof.
  intros Hc [(b & -> & Hb)|[(b & d & -> & H2)|(b & d & e & -> & H3)]]%leadSpace_inv; simpl.
  - rewrite (plainByte_eqb b c Hc) by auto. reflexivity.
  - destruct (spaceRune2_bytes _ _ H2) as [Hb Hd].
    rewrite (plainByte_eqb b c Hc), (plainByte_eqb d c Hc) by auto. reflexivity.
  - destruct (spaceRune3_bytes _ _ _ H3) as (Hb & Hd & He).
    rewrite (plainByte_eqb b c Hc), (plainByte_eqb d c Hc), (plainByte_eqb e c Hc) by auto.
    reflexivity.
Qed.

Lemma countByte_TrimLeftSpace c s :
  plainByte c = true -> countByte c (TrimLeftSpace s) = countByte c s.
Proof.
  intros Hc. induction s as [s E|s r E IH] using trimLeft_ind.
  - rewrite (TrimLeftSpace_fixed _ E). reflexivity.
  - rewrite TrimLeftSpace_unfold, E, IH. symmetry. apply leadSpace_count; assumption.
Qed.

Lemma hasByte_TrimLeftSpace c s :
  hasByte c s = false -> hasByte c (TrimLeftSpace s) = false.
Proof.
  destruct (TrimLeftSpace_split s) as (pre & Hs & _). intros H.
  rewrite Hs, hasByte_app in H. apply orb_false_iff in H. tauto.
Qed.

(** A string of white space holds no plain byte. *)
Lemma allSpace_count c p :
  plainByte c = true -> TrimLeftSpace p = EmptyString -> countByte c p = 0.
Proof.
  intros Hc Hp. rewrite <- (countByte_TrimLeftSpace c p Hc), Hp. reflexivity.
Qed.

(** ** The right end *)

Lemma TrimRightSpace_unfold c s :
  TrimRightSpace (String c s)
  = if decide (TrimLeftSpace (String c s) = EmptyString) then EmptyString
    else String c (TrimRightSpace s).
Proof.
  change (TrimRightSpace (String c s))
    with (match TrimLeftSpace (String c s) with
          | EmptyString => EmptyString
          | _ => String c (TrimRightSpace s)
          end).
  destruct (TrimLeftSpace (String c s)); [reflexivity|].
  rewrite decide_False by discriminate. reflexivity.
Qed.

(** Everything goes on the right exactly when everything goes on the left. *)
Lemma TrimRightSpace_empty s : TrimRightSpace s = EmptyString <-> TrimLeftSpace s = EmptyString.
Proof.
  destruct s as [|c s]; [tauto|]. rewrite TrimRightSpace_unfold.
  case_decide; [tauto|]. split; [discriminate | contradiction].
Qed.

(** What is dropped on the right holds white space only, and what is kept is
    the start of the string. *)
Lemma TrimRightSpace_split s :
  exists post, s = TrimRightSpace s +:+ post /\ TrimLeftSpace post = EmptyString.
Proof.
  induction s as [|c s (post & Hs & Hpost)].
  - exists EmptyString. auto.
  - rewrite TrimRightSpace_unfold. case_decide as Hall.
    + exists (String c s). auto.
    + exists post. rewrite sapp_cons, <- Hs. auto.
Qed.

Lemma hasByte_TrimRightSpace c s :
  hasByte c s = false -> hasByte c (TrimRightSpace s) = false.
Proof.
  destruct (TrimRightSpace_split s) as (post & Hs & _). intros H.
  rewrite Hs, hasByte_app in H. apply orb_false_iff in H. tauto.
Qed.

Lemma countByte_TrimRightSpace c s :
  plainByte c = true -> countByte c (TrimRightSpace s) = countByte c s.
Proof.
  intros Hc. destruct (TrimRightSpace_split s) as (post & Hs & Hpost).
  rewrite Hs at 2. rewrite countByte_app, (allSpace_count c post Hc Hpost). lia.
Qed.

Lemma TrimRightSpace_cons c r :
  plainByte c = true -> TrimRightSpace (String c r) = String c (TrimRightSpace r).
Proof.
  intros Hc. rewrite TrimRightSpace_unfold, (TrimLeftSpace_plain _ _ Hc).
  rewrite decide_False by discriminate. reflexivity.
Qed.

(** A start of a string that leads with no white space leads with none. *)
Lemma leadSpace_prefix p x : leadSpace (p +:+ x) = None -> p <> EmptyString -> leadSpace p = None.
Proof.
  intros H Hp. destruct (leadSpace p) as [r|] eqn:E; [|reflexivity].
  rewrite (leadSpace_app _ _ x E) in H. discriminate.
Qed.

Lemma TrimRightSpace_lead s : leadSpace s = None -> leadSpace (TrimRightSpace s) = None.
Proof.
  intros E. destruct (TrimRightSpace_split s) as (post & Hs & _).
  destruct (TrimRightSpace s) as [|c t] eqn:Et; [reflexivity|].
  apply (leadSpace_prefix _ post); [rewrite <- Hs; exact E | discriminate].
Qed.

Lemma TrimRightSpace_idem s : TrimRightSpace (TrimRightSpace s) = TrimRightSpace s.
Proof.
  induction s as [|c s IH]; [reflexivity|].
  rewrite TrimRightSpace_unfold. case_decide as Hall; [reflexivity|].
  rewrite TrimRightSpace_unfold, IH. case_decide as Hall'; [|reflexivity].
  exfalso. apply Hall. destruct (TrimRightSpace_split s) as (post & Hs & Hpost).
  rewrite Hs at 1. rewrite <- sapp_cons, (TrimLeftSpace_app _ _ Hall'). exact Hpost.
Qed.

Lemma allSpace_first d x : TrimLeftSpace (String d x) = EmptyString -> leadByte d = true.
Proof.
  intros H. destruct (leadSpace (String d x)) as [r|] eqn:E.
  - apply (leadSpace_lead _ _ _ E).
  - rewrite (TrimLeftSpace_fixed _ E) in H. discriminate.
Qed.

(** White space after a string does not count. *)
Lemma allSpace_cut a post :
  TrimLeftSpace post = EmptyString ->
  TrimLeftSpace (a +:+ post) = EmptyString -> TrimLeftSpace a = EmptyString.
Proof.
  intros Hpost. induction a as [a E|a r E IH] using trimLeft_ind.
  - destruct a as [|c a]; [reflexivity|]. intros H. exfalso.
    rewrite sapp_cons in H.
    destruct (leadSpace (String c (a +:+ post))) as [r|] eqn:E';
      [|rewrite (TrimLeftSpace_fixed _ E') in H; discriminate].
    clear H.
    apply leadSpace_inv in E' as [(b & Hb & Hs)|[(b & d & Hb & H2)|(b & d & e & Hb & H3)]];
      injection Hb as <- Hb.
    + rewrite (leadSpace_1 _ _ Hs) in E. discriminate.
    + pose proof (spaceRune2_tail _ _ H2) as Hd.
      destruct a as [|a0 a]; [change (EmptyString +:+ post) with post in Hb|].
      * rewrite Hb in Hpost. apply allSpace_first in Hpost. congruence.
      * rewrite sapp_cons in Hb. injection Hb as -> _.
        rewrite (leadSpace_2 _ _ _ H2) in E. discriminate.
    + destruct (spaceRune3_tail _ _ _ H3) as [Hd He].
      destruct a as [|a0 a]; [change (EmptyString +:+ post) with post in Hb|].
      * rewrite Hb in Hpost. apply allSpace_first in Hpost. congruence.
      * rewrite sapp_cons in Hb. injection Hb as -> Hb.
        destruct a as [|a1 a]; [change (EmptyString +:+ post) with post in Hb|].
        -- rewrite Hb in Hpost. apply allSpace_first in Hpost. congruence.
        -- rewrite sapp_cons in Hb. injection Hb as -> _.
           rewrite (leadSpace_3 _ _ _ _ H3) in E. discriminate.
  - intros H. rewrite (TrimLeftSpace_drop _ _ post E) in H.
    rewrite TrimLeftSpace_unfold, E. apply IH, H.
Qed.

Lemma TrimRightSpace_app a post :
  TrimLeftSpace post = EmptyString -> TrimRightSpace (a +:+ post) = TrimRightSpace a.
Proof.
  intros Hpost. induction a as [|c a IH].
  - apply TrimRightSpace_empty. exact Hpost.
  - rewrite sapp_cons, !TrimRightSpace_unfold, IH, <- sapp_cons.
    destruct (decide (TrimLeftSpace (String c a) = EmptyString)) as [Ha|Ha].
    + rewrite decide_True; [reflexivity|]. rewrite (TrimLeftSpace_app _ _ Ha). exact Hpost.
    + rewrite decide_False; [reflexivity|]. intros H. apply Ha.
      apply (allSpace_cut _ post Hpost H).
Qed.

Lemma TrimRightSpace_keep c x :
  leadByte c = false -> TrimRightSpace (String c x) = String c (TrimRightSpace x).
Proof.
  intros Hc. rewrite TrimRightSpace_unfold.
  rewrite (TrimLeftSpace_fixed _ (leadSpace_not_lead c x Hc)).
  rewrite decide_False by discriminate. reflexivity.
Qed.

(** The two ends are trimmed independently. *)
Lemma TrimLeft_TrimRight s :
  TrimLeftSpace (TrimRightSpace s) = TrimRightSpace (TrimLeftSpace s).
Proof.
  induction s as [s E|s r E IH] using trimLeft_ind.
  - rewrite (TrimLeftSpace_fixed _ E). apply TrimLeftSpace_fixed, TrimRightSpace_lead, E.
  - rewrite (TrimLeftSpace_unfold s), E, <- IH.
    destruct (decide (TrimLeftSpace s = EmptyString)) as [Hall|Hsome].
    + rewrite (proj2 (TrimRightSpace_empty s) Hall).
      rewrite TrimLeftSpace_unfold, E in Hall.
      rewrite (proj2 (TrimRightSpace_empty r) Hall). reflexivity.
    + assert (Hs : TrimRightSpace s <> EmptyString)
        by (intros H; apply Hsome, TrimRightSpace_empty, H).
      apply leadSpace_inv in E as [(c & -> & Hc)|[(c & d & -> & H2)|(c & d & e & -> & H3)]];
        rewrite TrimRightSpace_unfold in Hs |- *; rewrite decide_False in Hs |- * by exact Hsome.
      * rewrite TrimLeftSpace_unfold, (leadSpace_1 _ _ Hc). reflexivity.
      * rewrite (TrimRightSpace_keep d r (spaceRune2_tail _ _ H2)).
        rewrite TrimLeftSpace_unfold, (leadSpace_2 _ _ _ H2). reflexivity.
      * destruct (spaceRune3_tail _ _ _ H3) as [Hd He].
        rewrite (TrimRightSpace_keep d _ Hd), (TrimRightSpace_keep e r He).
        rewrite TrimLeftSpace_unfold, (leadSpace_3 _ _ _ _ H3). reflexivity.
Qed.

(** ** Both ends *)

Lemma TrimSpace_TrimRightSpace s : TrimSpace (TrimRightSpace s) = TrimSpace s.
Proof. unfold TrimSpace. rewrite TrimLeft_TrimRight, TrimRightSpace_idem. reflexivity. Qed.

Lemma TrimSpace_lead s : leadSpace (TrimSpace s) = None.
Proof. apply TrimRightSpace_lead, TrimLeftSpace_lead. Qed.

Lemma TrimSpace_idem s : TrimSpace (TrimSpace s) = TrimSpace s.
Proof.
  unfold TrimSpace at 1. rewrite (TrimLeftSpace_fixed _ (TrimSpace_lead s)).
  apply TrimRightSpace_idem.
Qed.

Lemma TrimSpace_cons c r :
  plainByte c = true -> TrimSpace (String c r) = String c (TrimRightSpace r).
Proof.
  intros Hc. unfold TrimSpace. rewrite (TrimLeftSpace_plain _ _ Hc).
  apply TrimRightSpace_cons, Hc.
Qed.

Lemma TrimSpace_space c s : asciiSpace c = true -> TrimSpace (String c s) = TrimSpace s.
Proof. intros Hc. unfold TrimSpace. rewrite (TrimLeftSpace_space _ _ Hc). reflexivity. Qed.

(** A trimmed string that is not empty starts with a byte that is no white space. *)
Lemma TrimSpace_head s c r : TrimSpace s = String c r -> asciiSpace c = false.
Proof.
  intros E. pose proof (TrimSpace_lead s) as H. rewrite E in H.
  simpl in H. destruct (asciiSpace c); [discriminate | reflexivity].
Qed.

Lemma TrimSpace_empty s : TrimSpace s = EmptyString <-> TrimLeftSpace s = EmptyString.
Proof.
  unfold TrimSpace. rewrite TrimRightSpace_empty, TrimLeftSpace_idem. tauto.
Qed.

Lemma TrimSpace_fixed_right v : TrimSpace v = v -> TrimRightSpace v = v.
Proof. intros H. rewrite <- H. unfold TrimSpace. apply TrimRightSpace_idem. Qed.

Lemma TrimSpace_fixed s : leadSpace s = None -> TrimSpace s = TrimRightSpace s.
Proof. intros E. unfold TrimSpace. rewrite (TrimLeftSpace_fixed _ E). reflexivity. Qed.

Lemma hasByte_TrimSpace c s : hasByte c s = false -> hasByte c (TrimSpace s) = false.
Proof. intros H. apply hasByte_TrimRightSpace, hasByte_TrimLeftSpace, H. Qed.

Lemma countByte_TrimSpace c s :
  plainByte c = true -> countByte c (TrimSpace s) = countByte c s.
Proof.
  intros Hc. unfold TrimSpace.
  rewrite countByte_TrimRightSpace, countByte_TrimLeftSpace by exact Hc. reflexivity.
Qed.

(** White space after a string does not count for [TrimSpace] either. *)
Lemma TrimSpace_app a post :
  TrimLeftSpace post = EmptyString -> TrimSpace (a +:+ post) = TrimSpace a.
Proof.
  intros Hpost. unfold TrimSpace.
  rewrite <- !TrimLeft_TrimRight, (TrimRightSpace_app _ _ Hpost). reflexivity.
Qed.

(** ** Pieces and white space *)

Lemma Split_hd_prefix s sep : exists x, s = hd EmptyString (Split s sep) +:+ x.
Proof.
  induction s as [|c s (x & Hx)]; [exists EmptyString; reflexivity|]. simpl.
  destruct (Ascii.eqb c sep).
  - exists (String c s). reflexivity.
  - pose proof (Split_not_nil s sep) as Hne.
    destruct (Split s sep) as [|w ws]; [congruence|]. simpl in *.
    exists x. rewrite sapp_cons, <- Hx. reflexivity.
Qed.

(** What follows the last separator only lengthens the last piece. *)
Lemma Split_app_tail a post sep :
  hasByte sep post = false ->
  exists init wl, Split a sep = init ++ [wl] /\ Split (a +:+ post) sep = init ++ [wl +:+ post].
Proof.
  intros Hpost. induction a as [|c a (init & wl & Ha & Hap)].
  - exists [], EmptyString. split; [reflexivity|]. apply (Split_no_sep _ _ Hpost).
  - rewrite sapp_cons. simpl. rewrite Ha, Hap. destruct (Ascii.eqb c sep).
    + exists (EmptyString :: init), wl. auto.
    + destruct init as [|w0 init]; simpl.
      * exists [], (String c wl). auto.
      * exists (String c w0 :: init), wl. auto.
Qed.

(** Trimming the right end of a string changes its last piece only, and
    takes white space off it, when the separator is no white space. *)
Lemma Split_TrimRightSpace t sep :
  plainByte sep = true ->
  exists init wl post,
    TrimLeftSpace post = EmptyString /\
    Split (TrimRightSpace t) sep = init ++ [wl] /\ Split t sep = init ++ [wl +:+ post].
Proof.
  intros Hsep. destruct (TrimRightSpace_split t) as (post & Ht & Hpost).
  assert (Hno : hasByte sep post = false)
    by (apply hasByte_count, allSpace_count; assumption).
  destruct (Split_app_tail (TrimRightSpace t) post sep Hno) as (init & wl & H1 & H2).
  exists init, wl, post. rewrite <- Ht in H2. auto.
Qed.

(** The first token of a trimmed, non-empty line is not empty after trimming. *)
Lemma first_token_not_empty line :
  TrimSpace line <> EmptyString ->
  TrimSpace (hd EmptyString (Split (TrimSpace line) " ")) <> EmptyString.
Proof.
  intros Hne. pose proof (TrimSpace_lead line) as Hlead.
  destruct (Split_hd_prefix (TrimSpace line) " ") as (x & Hx).
  destruct (TrimSpace line) as [|c r] eqn:E; [congruence|].
  assert (Hc : Ascii.eqb c " " = false).
  { destruct (Ascii.eqb c " ") eqn:Hc; [|reflexivity].
    apply Ascii.eqb_eq in Hc. subst c. discriminate Hlead. }
  revert Hx. simpl. rewrite Hc.
  pose proof (Split_not_nil r " ") as Hr.
  destruct (Split r " ") as [|w ws]; [congruence|]. simpl. intros Hx.
  assert (Hw : leadSpace (String c w) = None).
  { apply (leadSpace_prefix _ x); [rewrite <- Hx; exact Hlead | discriminate]. }
  rewrite (TrimSpace_fixed _ Hw). intros H%TrimRightSpace_empty.
  rewrite (TrimLeftSpace_fixed _ Hw) in H. discriminate.
Qed.

End space_facts.

(** ** Strings of ASCII bytes *)
Section ascii_facts.
Context {U : Unicode}.
Import strings strings_facts.

Lemma plainByte_ascii c : isASCIIByte c = true -> asciiSpace c = false -> plainByte c = true.
Proof. unfold plainByte. intros -> ->. reflexivity. Qed.

(** On an ASCII byte the two ends are trimmed as the table of the package
    says. *)
Lemma TrimLeftSpace_ascii c s :
  isASCIIByte c = true ->
  TrimLeftSpace (String c s) = if asciiSpace c then TrimLeftSpace s else String c s.
Proof.
  intros Hc. destruct (asciiSpace c) eqn:Hs.
  - apply TrimLeftSpace_space, Hs.
  - apply TrimLeftSpace_plain, plainByte_ascii; assumption.
Qed.

Lemma TrimRightSpace_ascii c s :
  isASCIIByte c = true ->
  TrimRightSpace (String c s)
  = match TrimRightSpace s with
    | EmptyString => if asciiSpace c then EmptyString else String c EmptyString
    | t => String c t
    end.
Proof.
  intros Hc. rewrite TrimRightSpace_unfold, (TrimLeftSpace_ascii _ _ Hc).
  destruct (asciiSpace c) eqn:Hs.
  - destruct (TrimRightSpace s) as [|d t] eqn:E.
    + rewrite decide_True; [reflexivity|]. apply TrimRightSpace_empty, E.
    + rewrite decide_False; [reflexivity|]. intros H%TrimRightSpace_empty. congruence.
  - rewrite decide_False by discriminate. destruct (TrimRightSpace s); reflexivity.
Qed.

Lemma isASCII_TrimLeftSpace s : isASCII s = true -> isASCII (TrimLeftSpace s) = true.
Proof.
  destruct (TrimLeftSpace_split s) as (pre & Hs & _). intros H.
  rewrite Hs, isASCII_app in H. apply andb_true_iff in H. tauto.
Qed.

Lemma isASCII_TrimRightSpace s : isASCII s = true -> isASCII (TrimRightSpace s) = true.
Proof.
  destruct (TrimRightSpace_split s) as (post & Hs & _). intros H.
  rewrite Hs, isASCII_app in H. apply andb_true_iff in H. tauto.
Qed.

Lemma isASCII_TrimSpace s : isASCII s = true -> isASCII (TrimSpace s) = true.
Proof. intros H. apply isASCII_TrimRightSpace, isASCII_TrimLeftSpace, H. Qed.

Lemma isASCII_Split s sep :
  isASCII s = true -> Forall (fun w => isASCII w = true) (Split s sep).
Proof.
  induction s as [|c s IH]; simpl.
  - intros _. repeat constructor.
  - intros [Hc Hs]%andb_true_iff. specialize (IH Hs).
    destruct (Ascii.eqb c sep).
    + constructor; [reflexivity | exact IH].
    + destruct (Split s sep) as [|w ws]; [repeat constructor; simpl; rewrite Hc; reflexivity|].
      inversion IH; subst. constructor; [simpl; rewrite Hc; assumption | assumption].
Qed.

Lemma isASCIIByte_lowerByte c : isASCIIByte (lowerByte c) = isASCIIByte c.
Proof. destruct c as [[] [] [] [] [] [] [] []]; vm_compute; reflexivity. Qed.

Lemma isASCII_lower s : isASCII (mapBytes lowerByte s) = isASCII s.
Proof.
  induction s as [|c s IH]; [reflexivity|]. simpl.
  rewrite isASCIIByte_lowerByte, IH. reflexivity.
Qed.

Lemma ToLower_ascii s : isASCII s = true -> ToLower s = mapBytes lowerByte s.
Proof. intros H. unfold ToLower. rewrite H. reflexivity. Qed.

Lemma ToUpper_ascii s : isASCII s = true -> ToUpper s = mapBytes upperByte s.
Proof. intros H. unfold ToUpper. rewrite H. reflexivity. Qed.

Lemma isASCII_ToLower s : isASCII s = true -> isASCII (ToLower s) = true.
Proof. intros H. rewrite (ToLower_ascii _ H), isASCII_lower. exact H. Qed.

End ascii_facts.


(** ** The rule parser *)
Section parser_facts.
Context {U : Unicode}.
Import strings strings_facts.

Lemma Split_head c r sep :
  Ascii.eqb c sep = false ->
  exists w, hd EmptyString (Split (String c r) sep) = String c w.
Proof.
  intros Hc. simpl. rewrite Hc.
  destruct (Split r sep) as [|w ws]; simpl; eauto.
Qed.

Lemma asciiSpace_blank c : asciiSpace c = false -> Ascii.eqb c " " = false.
Proof.
  intros Hc. destruct (Ascii.eqb c " ") eqn:E; [|reflexivity].
  apply Ascii.eqb_eq in E. subst c. discriminate.
Qed.

(** The loop over the attribute tokens fails only with the error of
    [parseAttribute] on one of them, and never panics. *)
Lemma parseAttributes_outcome parts rule :
  match parseAttributes parts rule with
  | Ok rule' => Type_ rule' = Type_ rule /\ Value rule' = Value rule
  | Err e => exists attr, In attr parts /\ TrimSpace attr <> EmptyString
                          /\ parseAttribute (TrimSpace attr) = Err e
  | Panic _ => False
  end.
Proof.
  revert rule. induction parts as [|a parts IH]; intros rule; simpl; [auto|].
  destruct (decide (TrimSpace a = EmptyString)) as [Ha|Ha].
  - specialize (IH rule). destruct (parseAttributes parts rule); auto.
    destruct IH as (attr & ? & ? & ?). exists attr. auto.
  - destruct (parseAttribute (TrimSpace a)) as [at'|e|msg] eqn:Hp.
    + specialize (IH (mkDomain (Type_ rule) (Value rule) (Attribute rule ++ [at']))).
      destruct (parseAttributes parts _); auto.
      destruct IH as (attr & ? & ? & ?). exists attr. auto.
    + exists a. auto.
    + unfold parseAttribute in Hp. destruct (TrimSpace a) as [|c r]; [congruence|].
      destruct (negb (Ascii.eqb c "@")); discriminate.
Qed.

End parser_facts.

(** C10. A line that is not empty after trimming and does not start with
    [include:] has a first blank-separated token that is not empty after
    trimming, so [parseRule] never returns its "empty rule" error (nor
    "empty line") on it and never panics: when it fails, the error is the one
    [parseTypeRule] returned for the rule token or the one [parseAttribute]
    returned for one of the attribute tokens. *)
Theorem parseRule_empty_rule_unreachable {U : Unicode} (l : ListInfo) (line : string) :
  strings.TrimSpace line <> EmptyString ->
  strings.HasPrefix (strings.TrimSpace line) "include:" = false ->
  let parts := strings.Split (strings.TrimSpace line) " " in
  let ruleWithType := strings.TrimSpace (hd EmptyString parts) in
  ruleWithType <> EmptyString
  /\ snd (parseRule l line) <> Err (errors.New "empty rule")
  /\ snd (parseRule l line) <> Err (errors.New "empty line")
  /\ (forall msg, snd (parseRule l line) <> Panic msg)
  /\ (forall e, snd (parseRule l line) = Err e ->
        snd (parseTypeRule ruleWithType zeroDomain) = Some e
        \/ exists attr, In attr (tl parts)
             /\ strings.TrimSpace attr <> EmptyString
             /\ parseAttribute (strings.TrimSpace attr) = Err e).
Proof.
  intros Hne Hinc parts ruleWithType.
  assert (Htok : ruleWithType <> EmptyString) by (apply first_token_not_empty; exact Hne).
  assert (Hwhy : forall e, snd (parseRule l line) = Err e ->
            snd (parseTypeRule ruleWithType zeroDomain) = Some e
            \/ exists attr, In attr (tl parts)
                 /\ strings.TrimSpace attr <> EmptyString
                 /\ parseAttribute (strings.TrimSpace attr) = Err e).
  { intros e. unfold parseRule.
    destruct (decide (strings.TrimSpace line = EmptyString)); [congruence|].
    rewrite Hinc. fold parts. fold ruleWithType.
    destruct (decide (ruleWithType = EmptyString)); [congruence|].
    destruct (parseTypeRule ruleWithType zeroDomain) as [rule [err|]] eqn:Ht; simpl.
    - intros [= ->]. left. reflexivity.
    - pose proof (parseAttributes_outcome (tl parts) rule) as Ha.
      destruct (parseAttributes (tl parts) rule); simpl; try discriminate.
      intros [= ->]. right. exact Ha. }
  assert (Hprefix : forall e, snd (parseRule l line) = Err e ->
            exists x, e = "unknown domain type: " +:+ x \/ e = "invalid attribute: " +:+ x).
  { intros e He. destruct (Hwhy e He) as [Ht|(attr & _ & _ & Ha)].
    - unfold parseTypeRule in Ht.
      destruct (strings.Split ruleWithType ":") as [|kv0 [|kv1 [|? ?]]];
        simpl in Ht; try discriminate.
      repeat (case_match; simpl in Ht; try discriminate).
      injection Ht as <-. eexists. left. reflexivity.
    - unfold parseAttribute in Ha.
      destruct (strings.TrimSpace attr) as [|c r] eqn:E; [discriminate|].
      destruct (negb (Ascii.eqb c "@")); [|discriminate].
      injection Ha as <-. eexists. right. reflexivity. }
  split; [exact Htok|]. split; [|split; [|split; [|exact Hwhy]]].
  - intros H. destruct (Hprefix _ H) as [x [Hx|Hx]]; discriminate Hx.
  - intros H. destruct (Hprefix _ H) as [x [Hx|Hx]]; discriminate Hx.
  - intros msg. unfold parseRule.
    destruct (decide (strings.TrimSpace line = EmptyString)); [congruence|].
    rewrite Hinc. fold parts. fold ruleWithType.
    destruct (decide (ruleWithType = EmptyString)); [congruence|].
    destruct (parseTypeRule ruleWithType zeroDomain) as [rule [err|]]; simpl; [discriminate|].
    pose proof (parseAttributes_outcome (tl parts) rule) as Ha.
    destruct (parseAttributes (tl parts) rule); simpl; try discriminate. contradiction.
Qed.

Lemma parseRule_empty_rule_unreachable_witness :
  strings.TrimSpace "  keyword:Foo bar " <> EmptyString
  /\ snd (parseRule NewListInfo "  keyword:Foo bar ") = Err "invalid attribute: bar"
  /\ snd (parseRule NewListInfo "  keyword:Foo bar ") <> Err (errors.New "empty rule").
Proof.
  split; [vm_compute; discriminate|]. split; [vm_compute; reflexivity|].
  apply (parseRule_empty_rule_unreachable NewListInfo "  keyword:Foo bar ");
    [vm_compute; discriminate | vm_compute; reflexivity].
Defined.

(** ** A runtime that keeps the promises

    [range] in the order of [map_to_list], and [sort.Slice] as the insertion
    sort it runs on short slices. *)
Section reference_runtime.
Context {A : Type} (key : A -> nat).

Let less : A -> A -> bool := fun a b => key a <? key b.

Lemma sift_perm (lt : A -> A -> bool) x rprefix : sift lt x rprefix ≡ₚ x :: rprefix.
Proof.
  induction rprefix as [|y rest IH]; simpl; [reflexivity|].
  destruct (lt x y); [|reflexivity]. rewrite IH. apply Permutation_swap.
Qed.

Lemma foldl_sift_perm (lt : A -> A -> bool) x acc :
  foldl (fun rprefix a => sift lt a rprefix) acc x ≡ₚ x ++ acc.
Proof.
  revert acc. induction x as [|a x IH]; intros acc; simpl; [reflexivity|].
  rewrite IH, sift_perm. symmetry. apply Permutation_middle.
Qed.

Lemma insertionSort_perm (lt : A -> A -> bool) x : insertionSort lt x ≡ₚ x.
Proof.
  unfold insertionSort. rewrite <- Permutation_rev, foldl_sift_perm, app_nil_r.
  reflexivity.
Qed.

Lemma sift_sorted x rprefix :
  StronglySorted (fun a b => key b <= key a) rprefix ->
  StronglySorted (fun a b => key b <= key a) (sift less x rprefix).
Proof.
  induction rprefix as [|y rest IH]; simpl; intros Hs.
  - repeat constructor.
  - apply StronglySorted_inv in Hs as [Hrest Hy]. unfold less at 1.
    destruct (key x <? key y) eqn:E.
    + apply Nat.ltb_lt in E. constructor; [exact (IH Hrest)|].
      rewrite sift_perm. constructor; [lia | exact Hy].
    + apply Nat.ltb_ge in E. constructor; [constructor; assumption|].
      constructor; [exact E|]. eapply Forall_impl; [exact Hy|].
      simpl. intros z Hz. lia.
Qed.

Lemma foldl_sift_sorted x acc :
  StronglySorted (fun a b => key b <= key a) acc ->
  StronglySorted (fun a b => key b <= key a)
                 (foldl (fun rprefix a => sift less a rprefix) acc x).
Proof.
  revert acc. induction x as [|a x IH]; intros acc Hs; simpl; [exact Hs|].
  apply IH, sift_sorted, Hs.
Qed.

Lemma rev_sorted (l : list A) :
  StronglySorted (fun a b => key b <= key a) l ->
  StronglySorted (fun a b => key a <= key b) (rev l).
Proof.
  induction l as [|a l IH]; simpl; intros Hs; [constructor|].
  apply StronglySorted_inv in Hs as [Hl Ha].
  apply StronglySorted_app_2; [|exact (IH Hl)|repeat constructor].
  intros x1 x2 H1 ->%list_elem_of_singleton.
  rewrite Forall_forall in Ha. apply Ha. apply list_elem_of_In, in_rev, list_elem_of_In, H1.
Qed.

Lemma insertionSort_sorted x :
  StronglySorted (fun a b => key a <= key b)
                 (insertionSort (fun a b => key a <? key b) x).
Proof. apply rev_sorted, foldl_sift_sorted. constructor. Qed.

End reference_runtime.

Definition reference_runtime : GoRuntime :=
  {| map_range := fun V m => map_to_list m;
     map_range_perm := fun V m => reflexivity (map_to_list m);
     sort_Slice := @insertionSort;
     sort_Slice_perm := @insertionSort_perm;
     sort_Slice_sorted := @insertionSort_sorted |}.

(** ** Examples *)

Example parse_ex1 :
  parseRule NewListInfo "full:Example.COM @CN @ads"
  = (NewListInfo,
     Ok (Some (mkDomain Domain_Full "example.com"
                 [mkAttribute "cn" (Domain_Attribute_BoolValue true);
                  mkAttribute "ads" (Domain_Attribute_BoolValue true)]))).
Proof. vm_compute. reflexivity. Qed.

Example parse_ex2 :
  InclusionAttributeMap (fst (parseRule NewListInfo "include:google @cn @Ads")) !! "GOOGLE"
  = Some ["@cn"; "@ads"].
Proof. vm_compute. reflexivity. Qed.

Example parse_ex3 :
  snd (parseRule NewListInfo "regexp:^a:b$") = Ok (Some zeroDomain).
Proof. vm_compute. reflexivity. Qed.

Example flatten_ex1 :
  let lm := registry [("A", ["mail.example.com"; "example.com"; "a.b.c.org"; "c.org"; "x.net"])] in
  (fun r => match r with
            | Ok lm' => option_map (fun l => values (DomainTypeUniqueList l)) (lm' !! "A")
            | _ => None end) (@Flatten reference_runtime lm "A")
  = Some ["example.com"; "c.org"; "x.net"].
Proof. vm_compute. reflexivity. Qed.

Example parseRule_include_line :
  InclusionAttributeMap (fst (parseRule NewListInfo " include:geolocation-!cn  "))
  = {["GEOLOCATION-!CN" := ["@"]]}.
Proof. vm_compute. reflexivity. Qed.

(** ** The domain trie *)
Module DomainTrie_facts.
Import DomainTrie.

Lemma covered_unfold n path :
  covered n path =
  leaf n ||
  match path with
  | [] => false
  | part :: rest =>
      match children n !! part with
      | Some child => covered child rest
      | None => false
      end
  end.
Proof. destruct path; reflexivity. Qed.

Lemma insertPath_unfold n path :
  insertPath n path =
  if leaf n then (n, false)
  else match path with
       | [] => (Node true ∅, true)
       | part :: rest =>
           let child := default newNode (children n !! part) in
           let '(child', accepted) := insertPath child rest in
           if accepted then (Node false (<[part := child']> (children n)), true)
           else (n, false)
       end.
Proof. destruct path; reflexivity. Qed.

Lemma covered_newNode path : covered newNode path = false.
Proof. destruct path; reflexivity. Qed.

(** A value is accepted exactly when its path is not yet covered. *)
Lemma insertPath_accepted n path :
  snd (insertPath n path) = negb (covered n path).
Proof.
  revert n. induction path as [|part rest IH]; intros n;
    rewrite insertPath_unfold, covered_unfold; destruct (leaf n) eqn:Hl; try reflexivity.
  simpl. destruct (children n !! part) as [child|] eqn:Hc; simpl.
  - specialize (IH child). destruct (insertPath child rest) as [child' acc].
    simpl in IH. rewrite <- IH. destruct acc; reflexivity.
  - specialize (IH newNode). rewrite covered_newNode in IH.
    destruct (insertPath newNode rest) as [child' acc]. simpl in IH. subst acc. reflexivity.
Qed.

Lemma insertPath_rejected n path :
  snd (insertPath n path) = false -> fst (insertPath n path) = n.
Proof.
  rewrite insertPath_unfold. destruct (leaf n); [reflexivity|].
  destruct path as [|part rest]; [discriminate|]. simpl.
  destruct (insertPath _ rest) as [child' [|]]; [discriminate | reflexivity].
Qed.

(** After acceptance, the path is covered. *)
Lemma insertPath_covers n path :
  snd (insertPath n path) = true -> covered (fst (insertPath n path)) path = true.
Proof.
  revert n. induction path as [|part rest IH]; intros n;
    rewrite insertPath_unfold; destruct (leaf n) eqn:Hl; try discriminate.
  - reflexivity.
  - simpl. specialize (IH (default newNode (children n !! part))).
    destruct (insertPath _ rest) as [child' [|]]; [|discriminate].
    intros _. simpl in *. rewrite lookup_insert_eq. apply IH. reflexivity.
Qed.

(** What was covered stays covered. *)
Lemma insertPath_mono n path q :
  covered n q = true -> covered (fst (insertPath n path)) q = true.
Proof.
  revert n q. induction path as [|part rest IH]; intros n q Hq;
    rewrite insertPath_unfold; destruct (leaf n) eqn:Hl; try exact Hq.
  - destruct q; reflexivity.
  - simpl. pose proof (IH (default newNode (children n !! part))) as IHc.
    destruct (insertPath _ rest) as [child' [|]]; [|exact Hq].
    simpl in *. rewrite covered_unfold in Hq. rewrite Hl in Hq. simpl in Hq.
    destruct q as [|q0 qr]; [discriminate|].
    rewrite covered_unfold. simpl.
    destruct (decide (part = q0)) as [->|Hne].
    + rewrite lookup_insert_eq.
      destruct (children n !! q0) as [c|]; [|discriminate]. apply IHc, Hq.
    + rewrite lookup_insert_ne by exact Hne. exact Hq.
Qed.

(** Whatever is covered after an acceptance was covered before, or lies
    under the accepted path. *)
Lemma insertPath_covered_inv n path q :
  snd (insertPath n path) = true ->
  covered (fst (insertPath n path)) q = true ->
  covered n q = true \/ path `prefix_of` q.
Proof.
  revert n q. induction path as [|part rest IH]; intros n q;
    rewrite insertPath_unfold; destruct (leaf n) eqn:Hl; try discriminate.
  - intros _ _. right. apply prefix_nil.
  - simpl. pose proof (IH (default newNode (children n !! part))) as IHc.
    destruct (insertPath _ rest) as [child' [|]]; [|discriminate].
    simpl in *. intros _. rewrite covered_unfold. simpl.
    destruct q as [|q0 qr]; [discriminate|].
    destruct (decide (part = q0)) as [->|Hne].
    + rewrite lookup_insert_eq. intros Hc.
      destruct (IHc qr eq_refl Hc) as [H|H].
      * left. rewrite covered_unfold, Hl. simpl.
        destruct (children n !! q0) as [c|]; [exact H|].
        simpl in H. rewrite covered_newNode in H. discriminate.
      * right. apply prefix_cons, H.
    + rewrite lookup_insert_ne by exact Hne. intros Hc. left.
      rewrite covered_unfold, Hl. exact Hc.
Qed.

Lemma covered_app n p q : covered n p = true -> covered n (p ++ q) = true.
Proof.
  revert n. induction p as [|part rest IH]; intros n; rewrite !covered_unfold.
  - simpl. rewrite orb_false_r. intros ->. reflexivity.
  - simpl. destruct (leaf n); [reflexivity|]. simpl.
    destruct (children n !! part); [apply IH | discriminate].
Qed.

Lemma covered_prefix n p q : p `prefix_of` q -> covered n p = true -> covered n q = true.
Proof. intros [k ->]. apply covered_app. Qed.

Lemma tracks_new : tracks NewDomainTrie [].
Proof.
  intros p. simpl. rewrite covered_newNode. split; [discriminate|].
  intros (e & [] & _).
Qed.

Lemma Insert_accepts trie seen v :
  tracks trie seen ->
  fst (snd (Insert trie v)) = true <->
  ~ exists e, In e seen /\ labelPath e `prefix_of` labelPath v.
Proof.
  intros Ht. unfold Insert.
  pose proof (insertPath_accepted (root trie) (labelPath v)) as Ha.
  destruct (insertPath (root trie) (labelPath v)) as [root' acc]. simpl in *.
  subst acc. rewrite negb_true_iff, <- not_true_iff_false, (Ht (labelPath v)).
  reflexivity.
Qed.

Lemma Insert_tracks trie seen v :
  tracks trie seen -> tracks (fst (Insert trie v)) (v :: seen).
Proof.
  intros Ht p. unfold Insert.
  pose proof (insertPath_accepted (root trie) (labelPath v)) as Ha.
  pose proof (insertPath_rejected (root trie) (labelPath v)) as Hr.
  pose proof (insertPath_covers (root trie) (labelPath v)) as Hc.
  pose proof (insertPath_mono (root trie) (labelPath v) p) as Hm.
  pose proof (insertPath_covered_inv (root trie) (labelPath v) p) as Hi.
  destruct (insertPath (root trie) (labelPath v)) as [root' acc]. simpl in *.
  destruct acc.
  - split.
    + intros Hp. destruct (Hi eq_refl Hp) as [H|H].
      * apply Ht in H as (e & He & Hpre). exists e. auto.
      * exists v. auto.
    + intros (e & [<-|He] & Hpre).
      * eapply covered_prefix; [exact Hpre | apply Hc; reflexivity].
      * apply Hm, Ht. exists e. auto.
  - rewrite (Hr eq_refl). symmetry in Ha. apply negb_false_iff in Ha. split.
    + intros Hp. apply Ht in Hp as (e & He & Hpre). exists e. auto.
    + intros (e & [<-|He] & Hpre).
      * eapply covered_prefix; [exact Hpre | exact Ha].
      * apply Ht. exists e. auto.
Qed.

Lemma Insert_no_error trie v : snd (snd (Insert trie v)) = None.
Proof. unfold Insert. destruct (insertPath _ _). reflexivity. Qed.

End DomainTrie_facts.

(** ** Suffix deduplication *)

Section dedup_facts.
Import strings strings_facts DomainTrie DomainTrie_facts.



Lemma insertLoop_keepUncovered domains trie seen uniqueList :
  tracks trie seen ->
  insertLoop trie domains uniqueList = Ok (uniqueList ++ keepUncovered seen domains).
Proof.
  revert trie seen uniqueList.
  induction domains as [|d rest IH]; intros trie seen uniqueList Ht; simpl.
  - rewrite app_nil_r. reflexivity.
  - pose proof (Insert_no_error trie (Value d)) as Hne.
    pose proof (Insert_accepts trie seen (Value d) Ht) as Hacc.
    pose proof (Insert_tracks trie seen (Value d) Ht) as Ht'.
    destruct (Insert trie (Value d)) as [trie' [success err]]. simpl in *. subst err.
    rewrite (IH trie' (Value d :: seen)) by exact Ht'.
    destruct success.
    + rewrite bool_decide_eq_false_2.
      * rewrite <- app_assoc. reflexivity.
      * intros (e & He & Hp)%Exists_exists. apply (proj1 Hacc eq_refl).
        exists e. split; [apply list_elem_of_In, He | exact Hp].
    + rewrite bool_decide_eq_true_2; [reflexivity|].
      apply Exists_exists.
      destruct (decide (Exists (fun e => labelPath e `prefix_of` labelPath (Value d)) seen))
        as [H|H]; [apply Exists_exists in H; exact H|].
      exfalso. assert (false = true); [|discriminate]. apply Hacc.
      intros (e & He & Hp). apply H, Exists_exists. exists e.
      split; [apply list_elem_of_In, He | exact Hp].
Qed.

Lemma keepUncovered_In seen domains d :
  In d (keepUncovered seen domains) <->
  exists pre post, domains = pre ++ d :: post /\
    forall e, In e seen \/ In e (values pre) ->
              ~ labelPath e `prefix_of` labelPath (Value d).
Proof.
  revert seen. induction domains as [|d0 rest IH]; intros seen; simpl.
  - split; [contradiction|]. intros (pre & post & H & _). destruct pre; discriminate.
  - rewrite in_app_iff, IH. split.
    + intros [H|(pre & post & -> & Hn)].
      * case_bool_decide as Hd; [contradiction|]. destruct H as [<-|[]].
        exists [], rest. split; [reflexivity|]. intros e [He|[]] Hp.
        apply Hd, Exists_exists. exists e. split; [apply list_elem_of_In, He | exact Hp].
      * exists (d0 :: pre), post. split; [reflexivity|]. intros e He. apply Hn.
        simpl in *. tauto.
    + intros (pre & post & Heq & Hn). destruct pre as [|p pre]; simpl in Heq.
      * injection Heq as -> ->. left. rewrite bool_decide_eq_false_2; [left; reflexivity|].
        intros (e & He & Hp)%Exists_exists. apply (Hn e); [|exact Hp].
        left. apply list_elem_of_In, He.
      * injection Heq as -> ->. right. exists pre, post. split; [reflexivity|].
        intros e He. apply Hn. simpl in *. tauto.
Qed.



End dedup_facts.

(** ** Inclusion steps in closed form *)

Section include_facts.
Context {rt : GoRuntime}.

Lemma extends_refl l : extends l l.
Proof. constructor; reflexivity. Qed.

Lemma extends_trans l1 l2 l3 : extends l1 l2 -> extends l2 l3 -> extends l1 l3.
Proof.
  intros [] []. constructor; try congruence; try (etrans; eassumption).
  intros k. etrans; eauto.
Qed.

Lemma slice_at_append_at {V} (m : gmap string (list V)) k vs k' :
  slice_at (append_at k vs m) k' =
  if decide (k = k') then slice_at m k ++ vs else slice_at m k'.
Proof.
  unfold slice_at, append_at. rewrite lookup_insert.
  destruct (decide (k = k')) as [->|]; reflexivity.
Qed.

Lemma slice_at_insert {V} (m : gmap string (list V)) k vs k' :
  slice_at (<[k := vs]> m) k' = if decide (k = k') then vs else slice_at m k'.
Proof.
  unfold slice_at. rewrite lookup_insert.
  destruct (decide (k = k')); reflexivity.
Qed.

Lemma slice_at_None {V} (m : gmap string (list V)) k : m !! k = None -> slice_at m k = [].
Proof. unfold slice_at. intros ->. reflexivity. Qed.

Lemma appendGroups_cons attr domainList groups m :
  appendGroups ((attr, domainList) :: groups) m =
  appendGroups groups (append_at attr domainList m).
Proof. reflexivity. Qed.

(** On a list without repeated keys, each listed group is appended once. *)
Lemma slice_at_appendGroups groups m k :
  NoDup groups.*1 ->
  slice_at (appendGroups groups m) k =
  slice_at m k ++ slice_at (list_to_map groups : gmap attribute (list Domain)) k.
Proof.
  revert m. induction groups as [|[attr dl] groups IH]; intros m Hnd.
  - simpl. rewrite (slice_at_None ∅) by apply lookup_empty.
    rewrite app_nil_r. reflexivity.
  - rewrite appendGroups_cons. simpl in Hnd. apply NoDup_cons in Hnd as [Hnotin Hnd].
    rewrite IH by exact Hnd. rewrite slice_at_append_at.
    rewrite list_to_map_cons, slice_at_insert.
    destruct (decide (attr = k)) as [->|Hne]; [|reflexivity].
    rewrite (slice_at_None (list_to_map groups))
      by (apply not_elem_of_list_to_map_1; exact Hnotin).
    rewrite app_nil_r. reflexivity.
Qed.

Lemma appendGroups_prefix groups m k :
  slice_at m k `prefix_of` slice_at (appendGroups groups m) k.
Proof.
  revert m. induction groups as [|[attr dl] groups IH]; intros m; [reflexivity|].
  rewrite appendGroups_cons. etrans; [|apply IH].
  rewrite slice_at_append_at. destruct (decide (attr = k)) as [->|]; [|reflexivity].
  apply prefix_app_r. reflexivity.
Qed.

Lemma map_range_lookup {V} (m : gmap string V) k v :
  (k, v) ∈ map_range m <-> m !! k = Some v.
Proof. rewrite (map_range_perm V m). apply elem_of_map_to_list. Qed.

Lemma map_range_NoDup {V} (m : gmap string V) : NoDup (map_range m).*1.
Proof.
  assert ((map_range m).*1 ≡ₚ (map_to_list m).*1) as ->
    by (apply fmap_Permutation, map_range_perm).
  apply NoDup_fst_map_to_list.
Qed.

Lemma list_to_map_map_range {V} (m : gmap string V) :
  (list_to_map (map_range m) : gmap string V) = m.
Proof.
  apply map_eq. intros k. apply option_eq. intros v.
  rewrite <- elem_of_list_to_map by apply map_range_NoDup.
  apply map_range_lookup.
Qed.

(** [includeAll] without the loop. *)
Lemma includeAll_closed l includedList :
  includeAll l includedList =
  mkListInfo (Name l) (HasInclusion l) (InclusionAttributeMap l)
    (FullTypeList l ++ FullTypeList includedList)
    (KeywordTypeList l ++ KeywordTypeList includedList)
    (RegexpTypeList l ++ RegexpTypeList includedList)
    (AttributeRuleUniqueList l ++ AttributeRuleUniqueList includedList)
    (DomainTypeList l ++ DomainTypeList includedList)
    (DomainTypeUniqueList l)
    (appendGroups (map_range (AttributeRuleListMap includedList)) (AttributeRuleListMap l))
    (GeoSite l).
Proof.
  unfold includeAll, appendGroups.
  generalize (map_range (AttributeRuleListMap includedList)) as groups.
  set (l0 := set_AttributeRuleUniqueList _ _).
  change (FullTypeList l ++ FullTypeList includedList) with (FullTypeList l0).
  change (KeywordTypeList l ++ KeywordTypeList includedList) with (KeywordTypeList l0).
  change (RegexpTypeList l ++ RegexpTypeList includedList) with (RegexpTypeList l0).
  change (AttributeRuleUniqueList l ++ AttributeRuleUniqueList includedList)
    with (AttributeRuleUniqueList l0).
  change (DomainTypeList l ++ DomainTypeList includedList) with (DomainTypeList l0).
  change (AttributeRuleListMap l) with (AttributeRuleListMap l0).
  change (Name l) with (Name l0). change (HasInclusion l) with (HasInclusion l0).
  change (InclusionAttributeMap l) with (InclusionAttributeMap l0).
  change (DomainTypeUniqueList l) with (DomainTypeUniqueList l0).
  change (GeoSite l) with (GeoSite l0).
  generalize l0. clear. intros l groups. revert l.
  induction groups as [|[attr dl] groups IH]; intros l; simpl; [destruct l; reflexivity|].
  rewrite IH. reflexivity.
Qed.

(** [includeWanted] without the loop. *)
Lemma includeWanted_closed attrWanted l includedList :
  let groups := wantedGroups attrWanted (map_range (AttributeRuleListMap includedList)) in
  includeWanted attrWanted l includedList =
  mkListInfo (Name l) (HasInclusion l) (InclusionAttributeMap l)
    (FullTypeList l) (KeywordTypeList l) (RegexpTypeList l)
    (AttributeRuleUniqueList l ++ concat groups.*2)
    (DomainTypeList l) (DomainTypeUniqueList l)
    (appendGroups groups (AttributeRuleListMap l))
    (GeoSite l).
Proof.
  unfold includeWanted, wantedGroups, appendGroups.
  generalize (map_range (AttributeRuleListMap includedList)) as groups.
  intros groups. revert l.
  induction groups as [|[attr dl] groups IH]; intros l; simpl.
  - destruct l; simpl. rewrite app_nil_r. reflexivity.
  - rewrite filter_cons. simpl. destruct (attrMatches attr attrWanted) eqn:Hm.
    + rewrite decide_True by reflexivity. rewrite IH. simpl.
      rewrite <- app_assoc. reflexivity.
    + rewrite decide_False by discriminate. apply IH.
Qed.

Lemma includeAll_extends l includedList : extends l (includeAll l includedList).
Proof.
  rewrite includeAll_closed. constructor; simpl; try reflexivity;
    try (apply prefix_app_r; reflexivity).
  intros k. apply appendGroups_prefix.
Qed.

Lemma includeWanted_extends attrWanted l includedList :
  extends l (includeWanted attrWanted l includedList).
Proof.
  rewrite includeWanted_closed. constructor; simpl; try reflexivity;
    try (apply prefix_app_r; reflexivity).
  intros k. apply appendGroups_prefix.
Qed.

End include_facts.

(** ** [Flatten]: what it writes and what it leaves alone *)

Section flatten_facts.
Context {rt : GoRuntime}.
Import DomainTrie_facts.

Lemma frame_refl self lm l : lm !! self = Some l -> frame self lm lm.
Proof. intros H. split; [reflexivity|]. exists l, l. auto using extends_refl. Qed.

Lemma frame_trans self lm1 lm2 lm3 :
  frame self lm1 lm2 -> frame self lm2 lm3 -> frame self lm1 lm3.
Proof.
  intros [H1 (l1 & l2 & Ha & Hb & He)] [H2 (l2' & l3 & Hc & Hd & He')].
  split; [intros f Hf; rewrite H2, H1 by exact Hf; reflexivity|].
  exists l1, l3. split; [exact Ha|]. split; [exact Hd|].
  rewrite Hb in Hc. injection Hc as <-. eapply extends_trans; eassumption.
Qed.

(** What one step does to the store. *)
Lemma includeStep_Ok self filename lm attrWanted lm' :
  includeStep self filename (Ok lm) attrWanted = Ok lm' ->
  exists l includedList,
    lm !! self = Some l /\ lm !! filename = Some includedList /\
    lm' = <[self := if decide (attrWanted = "@") then includeAll l includedList
                    else includeWanted attrWanted l includedList]> lm.
Proof.
  unfold includeStep. destruct (lm !! self) as [l|]; [|discriminate].
  destruct (lm !! filename) as [includedList|]; [|discriminate].
  intros [= <-]. eauto.
Qed.

Lemma includeStep_frame self filename lm attrWanted lm' :
  includeStep self filename (Ok lm) attrWanted = Ok lm' -> frame self lm lm'.
Proof.
  intros (l & incl & Hl & Hi & ->)%includeStep_Ok. split.
  - intros f Hf. rewrite lookup_insert_ne by congruence. reflexivity.
  - exists l. eexists. split; [exact Hl|]. split; [apply lookup_insert_eq|].
    destruct (decide (attrWanted = "@"));
      [apply includeAll_extends | apply includeWanted_extends].
Qed.

Lemma foldl_okP {A B : Type} (P : A -> Prop) (f : outcome A -> B -> outcome A) xs st :
  (forall st b, okP P st -> okP P (f st b)) ->
  okP P st -> okP P (foldl f st xs).
Proof.
  intros Hf. revert st. induction xs as [|x xs IH]; intros st Hst; simpl; [exact Hst|].
  apply IH, Hf, Hst.
Qed.


Lemma includeStep_okP (P : ListInfoMap -> Prop) self filename :
  (forall lm attrWanted lm',
     P lm -> includeStep self filename (Ok lm) attrWanted = Ok lm' -> P lm') ->
  forall st attrWanted, okP P st -> okP P (includeStep self filename st attrWanted).
Proof.
  intros Hstep [lm|e|msg] attrWanted Hst; try exact I.
  destruct (includeStep self filename (Ok lm) attrWanted) as [lm'| |] eqn:E; try exact I.
  simpl. eapply Hstep; eassumption.
Qed.

(** An invariant of the steps is an invariant of the two loops. *)
Lemma includeLoops_okP (P : ListInfoMap -> Prop) self l lm :
  (forall filename lm attrWanted lm',
     P lm -> includeStep self filename (Ok lm) attrWanted = Ok lm' -> P lm') ->
  P lm -> okP P (includeLoops self l lm).
Proof.
  intros Hstep HP. unfold includeLoops. apply foldl_okP; [|exact HP].
  intros st [filename attrs] Hst. apply foldl_okP; [|exact Hst].
  intros st' attrWanted. apply includeStep_okP. apply Hstep.
Qed.

Lemma includeLoops_frame self l lm lm' :
  lm !! self = Some l -> includeLoops self l lm = Ok lm' -> frame self lm lm'.
Proof.
  intros Hl H.
  pose proof (includeLoops_okP (frame self lm) self l lm) as Hinv.
  rewrite H in Hinv. apply Hinv; [|eapply frame_refl; exact Hl].
  intros filename lm1 attrWanted lm2 HP Hs.
  eapply frame_trans; [exact HP | eapply includeStep_frame; exact Hs].
Qed.


Lemma Flatten_closed lm self lm' :
  Flatten lm self = Ok lm' <->
  exists l lm1 l1,
    lm !! self = Some l /\
    (if HasInclusion l then includeLoops self l lm else Ok lm) = Ok lm1 /\
    lm1 !! self = Some l1 /\
    lm' = <[self := flattened l1]> lm1.
Proof.
  unfold Flatten. split.
  - destruct (lm !! self) as [l|] eqn:Hl; [|discriminate].
    destruct (if HasInclusion l then includeLoops self l lm else Ok lm)
      as [lm1| |] eqn:Hloops; try discriminate.
    destruct (lm1 !! self) as [l1|] eqn:Hl1; [|discriminate].
    simpl. rewrite (insertLoop_keepUncovered _ _ []) by apply tracks_new.
    intros [= <-]. exists l, lm1, l1. auto.
  - intros (l & lm1 & l1 & -> & -> & -> & ->).
    simpl. rewrite (insertLoop_keepUncovered _ _ []) by apply tracks_new.
    reflexivity.
Qed.

Lemma loops_frame lm self l lm1 :
  lm !! self = Some l ->
  (if HasInclusion l then includeLoops self l lm else Ok lm) = Ok lm1 ->
  frame self lm lm1.
Proof.
  intros Hl. destruct (HasInclusion l).
  - apply includeLoops_frame. exact Hl.
  - intros [= <-]. eapply frame_refl. exact Hl.
Qed.

End flatten_facts.



(** A chain of three: [example.com] covers [b.example.com] and
    [a.b.example.com], and it alone survives of the three. *)
Example Flatten_chain_survivors :
  exists lm' l',
    @Flatten reference_runtime chainFiles "A" = Ok lm' /\ lm' !! "A" = Some l' /\
    In "b.example.com" (values (DomainTypeList l')) /\
    In "a.b.example.com" (values (DomainTypeList l')) /\
    strictDotSuffix "b.example.com" "a.b.example.com" /\
    values (DomainTypeUniqueList l') = ["example.com"; "direct.net"] /\
    ~ In "b.example.com" (values (DomainTypeUniqueList l')).
Proof.
  eexists. eexists. split; [vm_compute; reflexivity|].
  split; [vm_compute; reflexivity|].
  split; [vm_compute; tauto|]. split; [vm_compute; tauto|].
  split; [exists "a"; reflexivity|]. split; [vm_compute; reflexivity|].
  vm_compute. intros [H|[H|[]]]; discriminate H.
Qed.







(** ** The order of the suffix rules *)
Section order_facts.
Context {rt : GoRuntime}.

Lemma keepUncovered_sublist seen domains : keepUncovered seen domains `sublist_of` domains.
Proof.
  revert seen. induction domains as [|d rest IH]; intros seen; simpl; [constructor|].
  case_bool_decide; simpl.
  - apply sublist_cons, IH.
  - apply sublist_skip, IH.
Qed.

Lemma Forall_sublist {A} (P : A -> Prop) (l1 l2 : list A) :
  l1 `sublist_of` l2 -> Forall P l2 -> Forall P l1.
Proof.
  induction 1 as [|x l1 l2 Hsub IH|x l1 l2 Hsub IH]; intros Hall;
    [constructor| |]; inversion Hall; subst; auto.
Qed.

Lemma StronglySorted_sublist {A} (R : A -> A -> Prop) (l1 l2 : list A) :
  l1 `sublist_of` l2 -> StronglySorted R l2 -> StronglySorted R l1.
Proof.
  induction 1 as [|x l1 l2 Hsub IH|x l1 l2 Hsub IH]; intros Hs.
  - constructor.
  - apply StronglySorted_inv in Hs as [Hs Hall]. constructor; [apply IH, Hs|].
    eapply Forall_sublist; eassumption.
  - apply StronglySorted_inv in Hs as [Hs _]. apply IH, Hs.
Qed.

Lemma Flatten_order lm self lm' l l' :
  Flatten lm self = Ok lm' -> lm !! self = Some l -> lm' !! self = Some l' ->
  StronglySorted (fun a b => labelCount a <= labelCount b) (DomainTypeList l') /\
  exists kept,
    DomainTypeUniqueList l' = DomainTypeUniqueList l ++ kept /\
    kept `sublist_of` DomainTypeList l'.
Proof.
  intros HF Hl Hl'. apply Flatten_closed in HF as (l0 & lm1 & l1 & Hl0 & Hloops & Hl1 & ->).
  rewrite lookup_insert_eq in Hl'. injection Hl' as <-.
  pose proof (loops_frame _ _ _ _ Hl0 Hloops) as [_ (la & lb & Ha & Hb & Hext)].
  assert (la = l) by congruence. assert (lb = l1) by congruence. subst la lb.
  unfold flattened. simpl. split; [apply sort_Slice_sorted|].
  eexists. split; [rewrite (ext_DomainTypeUniqueList _ _ Hext); reflexivity|].
  apply keepUncovered_sublist.
Qed.

End order_facts.

(** ** [ToGeoSite] in closed form *)

Section assembler_facts.

Lemma ifKeepLoop_false excludeAttrsMap attrs :
  ifKeepLoop excludeAttrsMap attrs = false <->
  exists attr, In attr attrs /\ excludeAttrsMap !! Key attr = Some true.
Proof.
  induction attrs as [|a attrs IH]; simpl.
  - split; [discriminate | intros (attr & [] & _)].
  - destruct (excludeAttrsMap !! Key a) as [[|]|] eqn:E; simpl.
    + split; [|reflexivity]. intros _. exists a. auto.
    + rewrite IH. split; intros (attr & Hin & Hx).
      * exists attr. auto.
      * destruct Hin as [<-|Hin]; [congruence|]. exists attr. auto.
    + rewrite IH. split; intros (attr & Hin & Hx).
      * exists attr. auto.
      * destruct Hin as [<-|Hin]; [congruence|]. exists attr. auto.
Qed.

Lemma excluded_iff excludeAttrs name domain :
  excluded excludeAttrs name domain <->
  match excludeAttrs ≫= (fun m => m !! name) with
  | Some excludeAttrsMap => ifKeepLoop excludeAttrsMap (Attribute domain) = false
  | None => False
  end.
Proof.
  unfold excluded. destruct (excludeAttrs ≫= _) as [m|].
  - rewrite ifKeepLoop_false. split.
    + intros (m' & attr & Hm & Hin & Hx). injection Hm as <-. exists attr. auto.
    + intros (attr & Hin & Hx). exists m, attr. auto.
  - split; [intros (m' & attr & Hm & _); discriminate | contradiction].
Qed.

#[global] Instance excluded_dec excludeAttrs name domain :
  Decision (excluded excludeAttrs name domain).
Proof.
  destruct (excludeAttrs ≫= (fun m => m !! name)) as [m|] eqn:E.
  - destruct (ifKeepLoop m (Attribute domain)) eqn:Ek.
    + right. rewrite excluded_iff, E, Ek. discriminate.
    + left. rewrite excluded_iff, E, Ek. reflexivity.
  - right. rewrite excluded_iff, E. tauto.
Defined.

#[global] Instance survives_dec excludeAttrs name ty domain :
  Decision (survives excludeAttrs name ty domain).
Proof. unfold survives. apply _. Defined.

(** The loop over the tagged rules is a filter. *)
Lemma appendTagged_closed ty excludeAttrs l domains :
  appendTagged ty excludeAttrs l domains =
  domains ++ filter (survives excludeAttrs (Name l) ty) (AttributeRuleUniqueList l).
Proof.
  unfold appendTagged. revert domains.
  induction (AttributeRuleUniqueList l) as [|d ds IH]; intros domains; simpl.
  - rewrite app_nil_r. reflexivity.
  - rewrite IH, filter_cons. clear IH.
    destruct (decide (Type_ d = ty)) as [Hty|Hty].
    + pose proof (excluded_iff excludeAttrs (Name l) d) as Hex.
      destruct (excludeAttrs ≫= _) as [m|].
      * destruct (ifKeepLoop m (Attribute d)) eqn:E.
        -- rewrite decide_True; [rewrite <- app_assoc; reflexivity|].
           split; [exact Hty|]. rewrite Hex. discriminate.
        -- rewrite decide_False; [reflexivity|]. intros [_ H]. apply H, Hex. reflexivity.
      * rewrite decide_True; [rewrite <- app_assoc; reflexivity|].
        split; [exact Hty|]. rewrite Hex. tauto.
    + rewrite decide_False; [reflexivity|]. intros [H _]. contradiction.
Qed.

End assembler_facts.

(** C5 (as amended).  The compiled rule set of a flattened file is what
    [ToGeoSite] stores in [GeoSite]: in this order, the untagged full rules,
    the tagged full rules that survive the exclusion, the deduplicated
    untagged suffix rules and the tagged suffix rules that survive the
    exclusion.  The full rules and the tagged rules come in the order of the
    lists of the collection, the file's own rules first, as the parser
    appended them; the suffix rules come by ascending number of labels, as
    [Flatten] sorted them, not in the order in which they were first seen. *)
Theorem ToGeoSite_order {rt : GoRuntime} (lm : ListInfoMap) (self : fileName)
    (l : ListInfo) (lm' : ListInfoMap) (l' : ListInfo)
    (excludeAttrs : option (gmap fileName (gmap attribute bool))) :
  lm !! self = Some l -> DomainTypeUniqueList l = [] ->
  Flatten lm self = Ok lm' -> lm' !! self = Some l' ->
  GeoSite (ToGeoSite excludeAttrs l')
  = Some (mkGeoSite (Name l')
       (FullTypeList l'
        ++ filter (survives excludeAttrs (Name l') Domain_Full) (AttributeRuleUniqueList l')
        ++ DomainTypeUniqueList l'
        ++ filter (survives excludeAttrs (Name l') Domain_RootDomain)
                  (AttributeRuleUniqueList l')))
  /\ FullTypeList l `prefix_of` FullTypeList l'
  /\ AttributeRuleUniqueList l `prefix_of` AttributeRuleUniqueList l'
  /\ DomainTypeUniqueList l' `sublist_of` DomainTypeList l'
  /\ StronglySorted (fun a b => labelCount a <= labelCount b) (DomainTypeUniqueList l').
Proof.
  intros Hl Hempty HF Hl'.
  split.
  { unfold ToGeoSite. rewrite !appendTagged_closed. simpl.
    rewrite <- !app_assoc. reflexivity. }
  destruct (Flatten_order lm self lm' l l' HF Hl Hl') as [Hs (kept & Hk & Hsub)].
  rewrite Hempty in Hk. simpl in Hk. subst kept.
  apply Flatten_closed in HF as (l0 & lm1 & l1 & Hl0 & Hloops & Hl1 & ->).
  rewrite lookup_insert_eq in Hl'. injection Hl' as <-.
  pose proof (loops_frame _ _ _ _ Hl0 Hloops) as [_ (la & lb & Ha & Hb & Hext)].
  assert (la = l) by congruence. assert (lb = l1) by congruence. subst la lb.
  split; [exact (ext_FullTypeList _ _ Hext)|].
  split; [exact (ext_AttributeRuleUniqueList _ _ Hext)|].
  split; [exact Hsub|].
  exact (StronglySorted_sublist _ _ _ Hsub Hs).
Qed.

Lemma ToGeoSite_order_witness :
  values (compiled excludeAds (flattenedFile reference_runtime mixedFiles "CN"))
  = ["www.example.com"; "example.com"; "cdn.example.net"]
  /\ StronglySorted (fun a b => labelCount a <= labelCount b)
       (DomainTypeUniqueList (flattenedFile reference_runtime mixedFiles "CN")).
Proof.
  destruct (@ToGeoSite_order reference_runtime mixedFiles "CN"
              (default NewListInfo (mixedFiles !! "CN"))
              (flattenOk reference_runtime mixedFiles "CN")
              (flattenedFile reference_runtime mixedFiles "CN") excludeAds)
    as (Hg & _ & _ & _ & Hs); try (vm_compute; reflexivity).
  split; [|exact Hs].
  unfold compiled. rewrite Hg. vm_compute. reflexivity.
Defined.

(** C5, the claim as stated fails for the suffix segment: the file declares
    [www.example.org] before [example.com], and the compiled rule set holds
    them by label count, [example.com] first. *)
Lemma ToGeoSite_first_seen_counterexample :
  values (DomainTypeList (default NewListInfo (orderFiles !! "A")))
  = ["www.example.org"; "example.com"]
  /\ values (compiled None (flattenedFile reference_runtime orderFiles "A"))
     = ["login.example.org"; "example.com"; "www.example.org"]
  /\ values (DomainTypeUniqueList (flattenedFile reference_runtime orderFiles "A"))
     <> values (DomainTypeList (default NewListInfo (orderFiles !! "A"))).
Proof.
  split; [vm_compute; reflexivity|]. split; [vm_compute; reflexivity|].
  vm_compute. discriminate.
Qed.

Section wellFormed_facts.
Context {rt : GoRuntime} {U : Unicode}.

Lemma wellFormed_New name : wellFormed (set_Name name NewListInfo).
Proof.
  constructor; simpl; try constructor.
  intros k ds. rewrite lookup_empty. discriminate.
Qed.

Lemma wellFormed_parseInclusion l inclusion :
  wellFormed l -> wellFormed (parseInclusion l inclusion).
Proof.
  intros Hwf. unfold parseInclusion.
  set (filename := strings.ToUpper _).
  assert (Hfold : forall attrs l0, wellFormed l0 ->
    wellFormed (foldl (fun l1 attr =>
      let attr0 := strings.ToLower (strings.TrimSpace attr) in
      if decide (attr0 = EmptyString) then l1
      else set_InclusionAttributeMap
             (append_at filename ["@" +:+ attr0] (InclusionAttributeMap l1)) l1) l0 attrs)).
  { induction attrs as [|a attrs IH]; intros l0 H0; simpl; [exact H0|].
    apply IH. destruct (decide _); [exact H0|]. destruct H0. constructor; assumption. }
  assert (H1 : wellFormed (set_HasInclusion true l)) by (destruct Hwf; constructor; assumption).
  destruct (strings.Split _ "@") as [|s0 [|s1 rest]].
  - apply Hfold, H1.
  - destruct H1. constructor; assumption.
  - apply Hfold, H1.
Qed.

Lemma wf_Groups_append_at m k ds :
  (forall k' ds', m !! k' = Some ds' ->
     Forall (fun d => Attribute d <> [] /\ attrsString (Attribute d) = k') ds') ->
  Forall (fun d => Attribute d <> [] /\ attrsString (Attribute d) = k) ds ->
  forall k' ds', append_at k ds m !! k' = Some ds' ->
     Forall (fun d => Attribute d <> [] /\ attrsString (Attribute d) = k') ds'.
Proof.
  intros Hm Hds k' ds'. unfold append_at. rewrite lookup_insert.
  destruct (decide (k = k')) as [<-|Hne]; [|apply Hm].
  intros [= <-]. apply Forall_app. split; [|exact Hds].
  unfold slice_at. destruct (m !! k) as [ds0|] eqn:E; simpl; [|constructor].
  apply (Hm _ _ E).
Qed.

Lemma wf_Groups_appendGroups groups m :
  (forall k ds, m !! k = Some ds ->
     Forall (fun d => Attribute d <> [] /\ attrsString (Attribute d) = k) ds) ->
  Forall (fun g => Forall (fun d => Attribute d <> [] /\ attrsString (Attribute d) = g.1) g.2)
         groups ->
  forall k ds, appendGroups groups m !! k = Some ds ->
     Forall (fun d => Attribute d <> [] /\ attrsString (Attribute d) = k) ds.
Proof.
  revert m. induction groups as [|[attr dl] groups IH]; intros m Hm Hg; [exact Hm|].
  rewrite appendGroups_cons. apply Forall_cons in Hg as [Hdl Hg].
  apply IH; [|exact Hg]. apply wf_Groups_append_at; assumption.
Qed.

Lemma wellFormed_classifyRule l rule :
  wellFormed l -> wellFormed (classifyRule l rule).
Proof.
  intros [HF HK HR HD HU HT HG]. unfold classifyRule.
  destruct (Attribute rule) as [|a attrs] eqn:Ha.
  - unfold untaggedOf in *.
    destruct (Type_ rule) eqn:Hty; constructor; simpl; try assumption;
      apply Forall_app; (split; [assumption|]); repeat constructor; assumption.
  - constructor; simpl; try assumption.
    + apply Forall_app. split; [assumption|]. repeat constructor. congruence.
    + apply wf_Groups_append_at; [exact HG|].
      repeat constructor; [congruence|]. rewrite Ha. reflexivity.
Qed.

Lemma map_range_groups (l : ListInfo) :
  wellFormed l ->
  Forall (fun g => Forall (fun d => Attribute d <> [] /\ attrsString (Attribute d) = g.1) g.2)
         (map_range (AttributeRuleListMap l)).
Proof.
  intros Hwf. apply Forall_forall. intros [k ds] Hin.
  apply map_range_lookup in Hin. exact (wf_Groups l Hwf k ds Hin).
Qed.

Lemma wellFormed_includeAll l includedList :
  wellFormed l -> wellFormed includedList -> wellFormed (includeAll l includedList).
Proof.
  intros Hl Hi. rewrite includeAll_closed.
  pose proof (map_range_groups _ Hi) as Hg.
  destruct Hl as [HF HK HR HD HU HT HG], Hi as [HF' HK' HR' HD' HU' HT' HG'].
  unfold untaggedOf in *.
  constructor; simpl; try (apply Forall_app; split; assumption); try assumption.
  apply wf_Groups_appendGroups; assumption.
Qed.

Lemma wellFormed_includeWanted attrWanted l includedList :
  wellFormed l -> wellFormed includedList ->
  wellFormed (includeWanted attrWanted l includedList).
Proof.
  intros Hl Hi. rewrite includeWanted_closed.
  pose proof (map_range_groups _ Hi) as Hg.
  assert (Hg' : Forall (fun g => Forall (fun d => Attribute d <> []
                  /\ attrsString (Attribute d) = g.1) g.2)
                  (wantedGroups attrWanted (map_range (AttributeRuleListMap includedList)))).
  { apply Forall_forall. intros g [_ Hin]%list_elem_of_filter.
    rewrite Forall_forall in Hg. apply Hg, Hin. }
  destruct Hl as [HF HK HR HD HU HT HG].
  constructor; simpl; try assumption.
  - apply Forall_app. split; [assumption|].
    apply Forall_forall. intros d (ds & Hds & Hd)%list_elem_of_In%in_concat.
    apply list_elem_of_In, list_elem_of_fmap in Hds as ([k ds'] & -> & Hin).
    rewrite Forall_forall in Hg'. specialize (Hg' _ Hin). simpl in *.
    rewrite Forall_forall in Hg'. apply Hg', list_elem_of_In, Hd.
  - apply wf_Groups_appendGroups; assumption.
Qed.

Lemma keepUncovered_subset seen domains d :
  In d (keepUncovered seen domains) -> In d domains.
Proof.
  intros (pre & post & -> & _)%keepUncovered_In. apply in_elt.
Qed.

Lemma wellFormed_flattened l : wellFormed l -> wellFormed (flattened l).
Proof.
  intros [HF HK HR HD HU HT HG]. unfold flattened.
  set (sorted := sort_Slice _ _).
  assert (Hs : untaggedOf Domain_RootDomain sorted).
  { unfold untaggedOf, sorted.
    eapply Permutation_Forall; [symmetry; apply sort_Slice_perm | exact HD]. }
  constructor; simpl; try assumption.
  apply Forall_app. split; [assumption|].
  apply Forall_forall. intros d Hd%list_elem_of_In%keepUncovered_subset.
  unfold untaggedOf in Hs. rewrite Forall_forall in Hs.
  apply Hs, list_elem_of_In, Hd.
Qed.

(** [Flatten] keeps a well-formed registry well formed. *)
Lemma wellFormed_Flatten lm self lm' :
  (forall f l, lm !! f = Some l -> wellFormed l) ->
  Flatten lm self = Ok lm' ->
  forall f l, lm' !! f = Some l -> wellFormed l.
Proof.
  intros Hwf (l & lm1 & l1 & Hl & Hloops & Hl1 & ->)%Flatten_closed.
  assert (H1 : forall f l, lm1 !! f = Some l -> wellFormed l).
  { destruct (HasInclusion l); [|injection Hloops as <-; exact Hwf].
    pose proof (includeLoops_okP (fun lm => forall f l, lm !! f = Some l -> wellFormed l)
                  self l lm) as Hinv.
    rewrite Hloops in Hinv. apply Hinv; [|exact Hwf].
    intros filename lm0 attrWanted lm2 H0 (l0 & incl & Hl0 & Hincl & ->)%includeStep_Ok f l2.
    rewrite lookup_insert. destruct (decide (self = f)) as [<-|Hne]; [|apply H0].
    intros [= <-]. destruct (decide (attrWanted = "@"));
      [apply wellFormed_includeAll | apply wellFormed_includeWanted]; eauto. }
  intros f l2. rewrite lookup_insert. destruct (decide (self = f)) as [<-|Hne]; [|apply H1].
  intros [= <-]. apply wellFormed_flattened. eauto.
Qed.

Lemma wellFormed_ToGeoSite excludeAttrs l : wellFormed l -> wellFormed (ToGeoSite excludeAttrs l).
Proof. intros []. unfold ToGeoSite. constructor; assumption. Qed.

End wellFormed_facts.

(** ** What the assembler emits *)
Section compiled_facts.

Lemma compiled_closed excludeAttrs l :
  compiled excludeAttrs l =
  FullTypeList l
  ++ filter (survives excludeAttrs (Name l) Domain_Full) (AttributeRuleUniqueList l)
  ++ DomainTypeUniqueList l
  ++ filter (survives excludeAttrs (Name l) Domain_RootDomain) (AttributeRuleUniqueList l).
Proof.
  unfold compiled, ToGeoSite. rewrite !appendTagged_closed. simpl.
  rewrite <- !app_assoc. reflexivity.
Qed.

Lemma compiled_In excludeAttrs l d :
  In d (compiled excludeAttrs l) <->
  In d (FullTypeList l) \/ In d (DomainTypeUniqueList l) \/
  (In d (AttributeRuleUniqueList l) /\
   (Type_ d = Domain_Full \/ Type_ d = Domain_RootDomain) /\
   ~ excluded excludeAttrs (Name l) d).
Proof.
  rewrite compiled_closed, !in_app_iff, <- !list_elem_of_In, !list_elem_of_filter.
  unfold survives. tauto.
Qed.

Lemma untaggedOf_In ty domains d :
  untaggedOf ty domains -> In d domains -> Type_ d = ty /\ Attribute d = [].
Proof.
  unfold untaggedOf. rewrite Forall_forall. intros H Hd. apply H, list_elem_of_In, Hd.
Qed.

Lemma tagged_In (l : ListInfo) d :
  wellFormed l -> In d (AttributeRuleUniqueList l) -> Attribute d <> [].
Proof.
  intros Hwf Hd. pose proof (wf_Tagged l Hwf) as H. rewrite Forall_forall in H.
  apply H, list_elem_of_In, Hd.
Qed.

End compiled_facts.

(** C6 (as amended).  For every tagged rule of kind Full or Suffix of a file,
    assembly drops the rule if and only if the exclusion set of the file
    holds one of the tags of the rule; the untagged rules in the compiled
    output are the untagged full rules and the deduplicated untagged suffix
    rules, whatever the exclusion set is. *)
Theorem ToGeoSite_exclusion (excludeAttrs : option (gmap fileName (gmap attribute bool)))
    (l : ListInfo) :
  wellFormed l ->
  (forall d, In d (AttributeRuleUniqueList l) ->
             Type_ d = Domain_Full \/ Type_ d = Domain_RootDomain ->
             (In d (compiled excludeAttrs l) <-> ~ excluded excludeAttrs (Name l) d)) /\
  (forall d, Attribute d = [] ->
             (In d (compiled excludeAttrs l) <->
              In d (FullTypeList l) \/ In d (DomainTypeUniqueList l))).
Proof.
  intros Hwf. split.
  - intros d Hd Hty. rewrite compiled_In. split; [|tauto].
    intros [H|[H|H]]; [| |tauto].
    + apply (untaggedOf_In _ _ _ (wf_Full l Hwf)) in H as [_ H].
      exfalso. exact (tagged_In l d Hwf Hd H).
    + apply (untaggedOf_In _ _ _ (wf_Unique l Hwf)) in H as [_ H].
      exfalso. exact (tagged_In l d Hwf Hd H).
  - intros d Hun. rewrite compiled_In. split; [|tauto].
    intros [H|[H|[H _]]]; [tauto | tauto |].
    exfalso. exact (tagged_In l d Hwf H Hun).
Qed.

(** C7 (as amended).  No rule of kind Keyword or Regex is part of the
    compiled output: it holds rules of kind Full and Suffix only, so the
    untagged keyword and regular-expression lists and the tagged rules of
    these kinds are left out, with or without an exclusion set. *)
Theorem ToGeoSite_no_keyword_regexp
    (excludeAttrs : option (gmap fileName (gmap attribute bool))) (l : ListInfo) :
  wellFormed l ->
  (forall d, In d (compiled excludeAttrs l) ->
             Type_ d = Domain_Full \/ Type_ d = Domain_RootDomain) /\
  (forall d, In d (KeywordTypeList l) \/ In d (RegexpTypeList l) ->
             ~ In d (compiled excludeAttrs l)) /\
  (forall d, In d (AttributeRuleUniqueList l) ->
             Type_ d = Domain_Plain \/ Type_ d = Domain_Regex ->
             ~ In d (compiled excludeAttrs l)).
Proof.
  intros Hwf.
  assert (Hty : forall d, In d (compiled excludeAttrs l) ->
            Type_ d = Domain_Full \/ Type_ d = Domain_RootDomain).
  { intros d [H|[H|(_ & H & _)]]%compiled_In; [| |exact H].
    - left. apply (untaggedOf_In _ _ _ (wf_Full l Hwf)), H.
    - right. apply (untaggedOf_In _ _ _ (wf_Unique l Hwf)), H. }
  split; [exact Hty|]. split.
  - intros d [H|H] Hc; apply Hty in Hc.
    + apply (untaggedOf_In _ _ _ (wf_Keyword l Hwf)) in H as [H _].
      destruct Hc; congruence.
    + apply (untaggedOf_In _ _ _ (wf_Regexp l Hwf)) in H as [H _].
      destruct Hc; congruence.
  - intros d _ H Hc. apply Hty in Hc. destruct H, Hc; congruence.
Qed.

(** ** The sample registries are well formed *)
Section sample_facts.
Context (rt : GoRuntime) {U : Unicode}.

Lemma wellFormed_processLine l line l' :
  wellFormed l -> processLine l line = Ok l' -> wellFormed l'.
Proof.
  intros Hwf. unfold processLine, parseRule.
  destruct (decide (strings.TrimSpace line = EmptyString)); [discriminate|].
  destruct (strings.HasPrefix (strings.TrimSpace line) "include:").
  - intros [= <-]. apply wellFormed_parseInclusion, Hwf.
  - destruct (decide (strings.TrimSpace (hd EmptyString _) = EmptyString)); [discriminate|].
    destruct (parseTypeRule _ zeroDomain) as [rule [err|]]; [discriminate|].
    destruct (parseAttributes _ rule) as [rule'| |]; try discriminate.
    intros [= <-]. apply wellFormed_classifyRule, Hwf.
Qed.

Lemma wellFormed_ProcessList isEmpty removeComment l lines l' :
  wellFormed l -> ProcessList isEmpty removeComment l lines = Ok l' -> wellFormed l'.
Proof.
  intros Hwf Hl. unfold ProcessList in Hl.
  pose proof (foldl_okP wellFormed (processListStep isEmpty removeComment) lines (Ok l))
    as H.
  rewrite Hl in H. apply H; [|exact Hwf].
  intros [l0| |] line Hst; try exact I. simpl.
  destruct (isEmpty line); [exact Hst|].
  destruct (isEmpty (removeComment line)); [exact Hst|].
  destruct (processLine l0 (removeComment line)) eqn:E; try exact I.
  simpl. eapply wellFormed_processLine; eassumption.
Qed.

Lemma wellFormed_parseLines name lines l :
  parseLines name lines = Ok l -> wellFormed l.
Proof. apply wellFormed_ProcessList, wellFormed_New. Qed.

Lemma wellFormed_registry files f l :
  registry files !! f = Some l -> wellFormed l.
Proof.
  unfold registry.
  assert (H : forall lm : ListInfoMap,
            (forall f l, lm !! f = Some l -> wellFormed l) ->
            forall f l,
              foldl (fun lm '(name, lines) =>
                       match parseLines name lines with
                       | Ok l => <[name := l]> lm
                       | _ => lm
                       end) lm files !! f = Some l -> wellFormed l).
  { induction files as [|[name lines] files IH]; intros lm Hlm; simpl; [exact Hlm|].
    apply IH. destruct (parseLines name lines) as [l0| |] eqn:E; try exact Hlm.
    intros f0 l1. rewrite lookup_insert. destruct (decide (name = f0)); [|apply Hlm].
    intros [= <-]. eapply wellFormed_parseLines. exact E. }
  apply H. intros f0 l0. rewrite lookup_empty. discriminate.
Qed.

Lemma wellFormed_flattenedFile files name :
  wellFormed (flattenedFile rt (registry files) name).
Proof.
  unfold flattenedFile, flattenOk.
  destruct (@Flatten rt (registry files) name) as [lm'| |] eqn:E.
  - destruct (lm' !! name) as [l|] eqn:El; simpl; [|apply (wellFormed_New EmptyString)].
    eapply wellFormed_Flatten; [|exact E|exact El]. apply wellFormed_registry.
  - destruct (registry files !! name) as [l|] eqn:El; simpl;
      [eapply wellFormed_registry; exact El | apply (wellFormed_New EmptyString)].
  - destruct (registry files !! name) as [l|] eqn:El; simpl;
      [eapply wellFormed_registry; exact El | apply (wellFormed_New EmptyString)].
Qed.

End sample_facts.

Lemma ToGeoSite_exclusion_witness :
  let l := flattenedFile reference_runtime mixedFiles "CN" in
  (In hostTest (compiled excludeAds l) <-> ~ excluded excludeAds (Name l) hostTest)
  /\ (In cdnExampleNet (compiled excludeAds l) <->
      ~ excluded excludeAds (Name l) cdnExampleNet)
  /\ values (compiled excludeAds l) = ["www.example.com"; "example.com"; "cdn.example.net"]
  /\ values (compiled None l)
     = ["www.example.com"; "host.test"; "example.com"; "shop.example.com"; "cdn.example.net"].
Proof.
  pose proof (ToGeoSite_exclusion excludeAds
                (flattenedFile reference_runtime mixedFiles "CN")
                (wellFormed_flattenedFile reference_runtime _ "CN")) as [H _].
  split; [apply H; [vm_compute; tauto | left; reflexivity]|].
  split; [apply H; [vm_compute; tauto | right; reflexivity]|].
  split; vm_compute; reflexivity.
Defined.

(** C6, the claim as stated fails: with no exclusion set at all, the tagged
    keyword rule of the file is dropped, and its untagged keyword rule is not
    included. *)
Lemma ToGeoSite_exclusion_counterexample :
  let l := flattenedFile reference_runtime mixedFiles "CN" in
  In keywordTracker (AttributeRuleUniqueList l)
  /\ ~ excluded None (Name l) keywordTracker
  /\ ~ In keywordTracker (compiled None l)
  /\ In keywordPixel (KeywordTypeList l)
  /\ ~ In keywordPixel (compiled None l).
Proof.
  split; [vm_compute; tauto|].
  split; [intros (m & attr & H & _); discriminate H|].
  split; [vm_compute; intuition discriminate|].
  split; [vm_compute; tauto|]. vm_compute; intuition discriminate.
Qed.

Lemma ToGeoSite_no_keyword_regexp_witness :
  let l := flattenedFile reference_runtime mixedFiles "CN" in
  values (KeywordTypeList l) = ["pixel"]
  /\ (forall d, In d (compiled excludeAds l) ->
                Type_ d = Domain_Full \/ Type_ d = Domain_RootDomain)
  /\ ~ In keywordPixel (compiled excludeAds l).
Proof.
  pose proof (ToGeoSite_no_keyword_regexp excludeAds
                (flattenedFile reference_runtime mixedFiles "CN")
                (wellFormed_flattenedFile reference_runtime _ "CN")) as (H1 & H2 & _).
  split; [vm_compute; reflexivity|]. split; [exact H1|].
  apply H2. left. vm_compute. tauto.
Defined.

(** C7, the claim as stated fails: the flattened file holds an untagged
    keyword rule, an untagged regular expression and a tagged keyword rule,
    and the compiled output, with no exclusion set, holds none of them. *)
Lemma ToGeoSite_keyword_regexp_counterexample :
  let l := flattenedFile reference_runtime mixedFiles "CN" in
  values (KeywordTypeList l) = ["pixel"]
  /\ values (RegexpTypeList l) = ["^ad[0-9]+\.example$"]
  /\ In keywordTracker (AttributeRuleUniqueList l)
  /\ map (fun d => (Type_ d, Value d)) (compiled None l)
     = [(Domain_Full, "www.example.com"); (Domain_Full, "host.test");
        (Domain_RootDomain, "example.com"); (Domain_RootDomain, "shop.example.com");
        (Domain_RootDomain, "cdn.example.net")].
Proof.
  split; [vm_compute; reflexivity|]. split; [vm_compute; reflexivity|].
  split; [vm_compute; tauto|]. vm_compute. reflexivity.
Qed.

(** ** The rule token *)
Section parseTypeRule_facts.
Context {U : Unicode}.
Import strings strings_facts.

(** A token without a colon is a suffix rule. *)
Lemma parseTypeRule_no_colon token rule :
  hasByte ":" token = false ->
  parseTypeRule token rule =
  (mkDomain Domain_RootDomain (ToLower (TrimSpace token)) (Attribute rule), None).
Proof. intros H. unfold parseTypeRule. rewrite (Split_no_sep _ _ H). reflexivity. Qed.

(** A token with one colon: the prefix names the kind, case-insensitively;
    the value is trimmed, and lower-cased unless the kind is Regex; a prefix
    that names no kind is an error. *)
Lemma parseTypeRule_one_colon ruleType ruleVal rule :
  hasByte ":" ruleType = false -> hasByte ":" ruleVal = false ->
  parseTypeRule (ruleType +:+ String ":" ruleVal) rule =
  match kindOf (TrimSpace ruleType) with
  | Some Domain_Regex => (mkDomain Domain_Regex (TrimSpace ruleVal) (Attribute rule), None)
  | Some kind => (mkDomain kind (ToLower (TrimSpace ruleVal)) (Attribute rule), None)
  | None => (mkDomain (Type_ rule) (ToLower (TrimSpace ruleVal)) (Attribute rule),
             Some (errors.New ("unknown domain type: " +:+ TrimSpace ruleType)))
  end.
Proof.
  intros Hp Hv. unfold parseTypeRule, kindOf.
  rewrite Split_app, (Split_no_sep _ _ Hp), (Split_no_sep _ _ Hv). simpl.
  repeat (destruct (decide _); [reflexivity|]). reflexivity.
Qed.

(** A token with two colons or more: nothing is written, nothing is reported. *)
Lemma parseTypeRule_more_colons p v w rule :
  parseTypeRule (p +:+ String ":" (v +:+ String ":" w)) rule = (rule, None).
Proof.
  unfold parseTypeRule. rewrite !Split_app.
  pose proof (Split_length_pos p ":"). pose proof (Split_length_pos v ":").
  pose proof (Split_length_pos w ":").
  assert (Hlen : 3 <= length (Split p ":" ++ Split v ":" ++ Split w ":"))
    by (rewrite !length_app; lia).
  destruct (Split p ":" ++ Split v ":" ++ Split w ":") as [|a [|b [|c rest]]];
    simpl in Hlen; try lia. reflexivity.
Qed.

End parseTypeRule_facts.

(** C4, where the code departs from the claim.  The token is split at every
    colon, and a token with two or more colons falls through the [switch]:
    [regexp:^a:b$] and [full:a:b], which a split at the first colon reads as
    the Regex rule [^a:b$] and the Full rule [a:b], come back as the zero
    rule (kind Keyword, empty value) with no error. *)
Theorem parseTypeRule_two_colons {U : Unicode} :
  parseTypeRule "regexp:^a:b$" zeroDomain = (zeroDomain, None)
  /\ parseTypeRule "full:a:b" zeroDomain = (zeroDomain, None)
  /\ snd (parseRule NewListInfo "regexp:^a:b$")
     = Ok (Some (mkDomain Domain_Plain EmptyString []))
  /\ parseTypeRule "regexp:^a.b$" zeroDomain
     = (mkDomain Domain_Regex "^a.b$" [], None).
Proof. repeat split; vm_compute; reflexivity. Qed.

(** ** One directive among the others *)

Section directive_facts.
Context {rt : GoRuntime}.

Lemma segmentOf_prefix {A} (part mid whole : list A) :
  segmentOf part mid -> mid `prefix_of` whole -> segmentOf part whole.
Proof.
  intros (pre & post & ->) [k ->]. exists pre, (post ++ k).
  rewrite <- !app_assoc. reflexivity.
Qed.

Lemma segmentOf_app_r {A} (l part : list A) : segmentOf part (l ++ part).
Proof. exists l, []. rewrite app_nil_r. reflexivity. Qed.

Lemma prefix_segmentOf {A} (part whole : list A) :
  part `prefix_of` whole -> segmentOf part whole.
Proof. intros [k ->]. exists [], k. reflexivity. Qed.

(** A failed outcome stays as it is. *)
Lemma foldl_not_Ok {A B} (f : outcome A -> B -> outcome A) xs st :
  (forall st b, (forall a, st <> Ok a) -> f st b = st) ->
  (forall a, st <> Ok a) -> foldl f st xs = st.
Proof.
  intros Hf. induction xs as [|x xs IH]; intros Hst; simpl; [reflexivity|].
  rewrite (Hf st x Hst). apply IH, Hst.
Qed.

(** A fold that ends well went well through each of its elements. *)
Lemma foldl_Ok_split {A B} (f : outcome A -> B -> outcome A) xs1 x xs2 a0 a' :
  (forall st b, (forall a, st <> Ok a) -> f st b = st) ->
  foldl f (Ok a0) (xs1 ++ x :: xs2) = Ok a' ->
  exists a1 a2, foldl f (Ok a0) xs1 = Ok a1 /\ f (Ok a1) x = Ok a2
                /\ foldl f (Ok a2) xs2 = Ok a'.
Proof.
  intros Hf. rewrite foldl_app. simpl. intros H.
  destruct (foldl f (Ok a0) xs1) as [a1| |] eqn:E1.
  - destruct (f (Ok a1) x) as [a2| |] eqn:E2; [eauto| |];
      rewrite foldl_not_Ok in H by (assumption || discriminate); discriminate.
  - rewrite (Hf (Err e) x) in H by discriminate.
    rewrite foldl_not_Ok in H by (assumption || discriminate). discriminate.
  - rewrite (Hf (Panic msg) x) in H by discriminate.
    rewrite foldl_not_Ok in H by (assumption || discriminate). discriminate.
Qed.

Lemma includeStep_strict self filename st attrWanted :
  (forall lm, st <> Ok lm) -> includeStep self filename st attrWanted = st.
Proof. intros H. destruct st; [congruence | reflexivity | reflexivity]. Qed.

Lemma includeSteps_strict self filename st attrs :
  (forall lm, st <> Ok lm) -> foldl (includeStep self filename) st attrs = st.
Proof. apply foldl_not_Ok. intros; apply includeStep_strict; assumption. Qed.

Lemma includeSteps_frame self filename attrs lm lm' l :
  lm !! self = Some l ->
  foldl (includeStep self filename) (Ok lm) attrs = Ok lm' -> frame self lm lm'.
Proof.
  intros Hl H.
  pose proof (foldl_okP (frame self lm) (includeStep self filename) attrs (Ok lm)) as Hinv.
  rewrite H in Hinv. apply Hinv; [|eapply frame_refl; exact Hl].
  intros st aw. apply includeStep_okP.
  intros lm1 aw' lm2 HP Hs. eapply frame_trans; [exact HP|].
  eapply includeStep_frame. exact Hs.
Qed.

Lemma includeFiles_frame self files lm lm' l :
  lm !! self = Some l ->
  foldl (fun st '(filename, attrs) => foldl (includeStep self filename) st attrs)
        (Ok lm) files = Ok lm' ->
  frame self lm lm'.
Proof.
  intros Hl H.
  pose proof (foldl_okP (frame self lm)
    (fun st '(filename, attrs) => foldl (includeStep self filename) st attrs)
    files (Ok lm)) as Hinv.
  rewrite H in Hinv. apply Hinv; [|eapply frame_refl; exact Hl].
  intros st [filename attrs] Hst. apply foldl_okP; [|exact Hst].
  intros st' aw. apply includeStep_okP.
  intros lm1 aw' lm2 HP Hs. eapply frame_trans; [exact HP|].
  eapply includeStep_frame. exact Hs.
Qed.

Lemma frame_self self lm lm' : frame self lm lm' -> is_Some (lm' !! self).
Proof. intros [_ (l & l' & _ & H & _)]. eauto. Qed.

(** Every recorded directive gets its step: the loops reach it in a store
    that extends the first one, and the last store extends the one the step
    leaves. *)
Lemma includeLoops_step self l lm lm1 filename attrs attrWanted :
  lm !! self = Some l ->
  includeLoops self l lm = Ok lm1 ->
  InclusionAttributeMap l !! filename = Some attrs ->
  In attrWanted attrs ->
  exists lma lmb,
    frame self lm lma /\ includeStep self filename (Ok lma) attrWanted = Ok lmb
    /\ frame self lmb lm1.
Proof.
  intros Hl Hloops Hattrs Hin. unfold includeLoops in Hloops.
  apply map_range_lookup, list_elem_of_In, in_split in Hattrs as (fs1 & fs2 & Hfs).
  rewrite Hfs in Hloops.
  apply foldl_Ok_split in Hloops as (lmp & lmq & Hp & Hstep & Hq);
    [|intros st [f a] Hst; apply includeSteps_strict, Hst].
  apply in_split in Hin as (as1 & as2 & ->).
  apply foldl_Ok_split in Hstep as (lma & lmb & Ha & Hs & Hb);
    [|intros st a Hst; apply includeStep_strict, Hst].
  pose proof (includeFiles_frame _ _ _ _ _ Hl Hp) as Fp.
  destruct (frame_self _ _ _ Fp) as [lp Hlp].
  pose proof (includeSteps_frame _ _ _ _ _ _ Hlp Ha) as Fa.
  destruct (frame_self _ _ _ Fa) as [la Hla].
  pose proof (includeStep_frame _ _ _ _ _ Hs) as Fs.
  destruct (frame_self _ _ _ Fs) as [lb Hlb].
  pose proof (includeSteps_frame _ _ _ _ _ _ Hlb Hb) as Fb.
  destruct (frame_self _ _ _ Fb) as [lq Hlq].
  pose proof (includeFiles_frame _ _ _ _ _ Hlq Hq) as Fq.
  exists lma, lmb. split; [eapply frame_trans; eassumption|].
  split; [exact Hs|]. eapply frame_trans; eassumption.
Qed.

End directive_facts.

(** ** The inclusion line *)
Section parseInclusion_facts.
Context {U : Unicode}.
Import strings strings_facts.

Lemma TrimSpace_include x :
  TrimSpace ("include:" +:+ x) = "include:" +:+ TrimRightSpace x.
Proof.
  unfold String.append; fold String.append.
  rewrite TrimSpace_cons by reflexivity.
  rewrite !TrimRightSpace_cons by reflexivity. reflexivity.
Qed.

Lemma TrimPrefix_include t : TrimPrefix ("include:" +:+ t) "include:" = t.
Proof.
  unfold TrimPrefix, HasPrefix. rewrite prefix_app. reflexivity.
Qed.

(** [include:X] with no [@] records the placeholder ["@"] for the file [X],
    trimmed and upper-cased. *)
Lemma parseInclusion_no_filter l x :
  hasByte "@" x = false ->
  parseInclusion l ("include:" +:+ x) =
  set_InclusionAttributeMap
    (append_at (ToUpper (TrimSpace x)) ["@"] (InclusionAttributeMap l))
    (set_HasInclusion true l).
Proof.
  intros Hx. unfold parseInclusion.
  rewrite TrimSpace_include, TrimPrefix_include.
  rewrite (Split_no_sep _ _ (hasByte_TrimRightSpace _ _ Hx)). simpl hd.
  rewrite TrimSpace_TrimRightSpace. reflexivity.
Qed.

End parseInclusion_facts.

(** ** A directive of the file's text is in its inclusion map *)
Section recorded_facts.
Context {U : Unicode}.
Import strings strings_facts.

Lemma slice_at_append_at_In {V} (m : gmap string (list V)) k vs k' (a : V) :
  In a (slice_at m k') -> In a (slice_at (append_at k vs m) k').
Proof.
  rewrite slice_at_append_at. destruct (decide (k = k')) as [->|]; [|tauto].
  rewrite in_app_iff. tauto.
Qed.

Lemma parseInclusion_keeps l inclusion X a :
  HasInclusion (parseInclusion l inclusion) = true /\
  (In a (slice_at (InclusionAttributeMap l) X) ->
   In a (slice_at (InclusionAttributeMap (parseInclusion l inclusion)) X)).
Proof.
  unfold parseInclusion. set (filename := ToUpper _).
  assert (Hfold : forall attrs l0,
    let l1 := foldl (fun l1 attr =>
      let attr0 := ToLower (TrimSpace attr) in
      if decide (attr0 = EmptyString) then l1
      else set_InclusionAttributeMap
             (append_at filename ["@" +:+ attr0] (InclusionAttributeMap l1)) l1) l0 attrs in
    HasInclusion l1 = HasInclusion l0 /\
    (In a (slice_at (InclusionAttributeMap l0) X) ->
     In a (slice_at (InclusionAttributeMap l1) X))).
  { induction attrs as [|at0 attrs IH]; intros l0; simpl; [tauto|].
    destruct (decide _).
    - apply IH.
    - destruct (IH (set_InclusionAttributeMap
                 (append_at filename ["@" +:+ ToLower (TrimSpace at0)]
                            (InclusionAttributeMap l0)) l0)) as [H1 H2].
      split; [exact H1|]. intros Ha. apply H2. simpl.
      apply slice_at_append_at_In, Ha. }
  destruct (Split _ "@") as [|s0 [|s1 rest]].
  - destruct (Hfold [] (set_HasInclusion true l)) as [H1 H2]. split; [exact H1 | exact H2].
  - simpl. split; [reflexivity|]. apply slice_at_append_at_In.
  - destruct (Hfold (s1 :: rest) (set_HasInclusion true l)) as [H1 H2].
    split; [exact H1 | exact H2].
Qed.

Lemma classifyRule_inclusions l rule :
  HasInclusion (classifyRule l rule) = HasInclusion l /\
  InclusionAttributeMap (classifyRule l rule) = InclusionAttributeMap l.
Proof.
  unfold classifyRule. destruct (Attribute rule); [destruct (Type_ rule)|]; auto.
Qed.

Lemma processLine_keeps l line l' X a :
  processLine l line = Ok l' ->
  HasInclusion l = true /\ In a (slice_at (InclusionAttributeMap l) X) ->
  HasInclusion l' = true /\ In a (slice_at (InclusionAttributeMap l') X).
Proof.
  unfold processLine, parseRule.
  destruct (decide (TrimSpace line = EmptyString)); [discriminate|].
  destruct (HasPrefix (TrimSpace line) "include:").
  - intros [= <-] [_ Ha]. destruct (parseInclusion_keeps l (TrimSpace line) X a). auto.
  - destruct (decide (TrimSpace (hd EmptyString _) = EmptyString)); [discriminate|].
    destruct (parseTypeRule _ zeroDomain) as [rule [err|]]; [discriminate|].
    destruct (parseAttributes _ rule) as [rule'| |]; try discriminate.
    intros [= <-]. destruct (classifyRule_inclusions l rule') as [-> ->]. tauto.
Qed.

Lemma processLine_include l line x :
  TrimSpace line = "include:" +:+ x ->
  hasByte "@" x = false ->
  processLine l line =
  Ok (set_InclusionAttributeMap
        (append_at (ToUpper (TrimSpace x)) ["@"] (InclusionAttributeMap l))
        (set_HasInclusion true l)).
Proof.
  intros Hline Hx. unfold processLine, parseRule. rewrite Hline.
  rewrite decide_False by discriminate.
  unfold HasPrefix. rewrite prefix_app.
  rewrite parseInclusion_no_filter by exact Hx. reflexivity.
Qed.

(** A file whose text has a line that [ProcessList] passes on as
    [include:X], with no [@], has the placeholder ["@"] recorded for [X]. *)
Lemma ProcessList_recorded isEmpty removeComment l0 lines l line x :
  ProcessList isEmpty removeComment l0 lines = Ok l ->
  In line lines ->
  isEmpty line = false -> isEmpty (removeComment line) = false ->
  TrimSpace (removeComment line) = "include:" +:+ x ->
  hasByte "@" x = false ->
  HasInclusion l = true /\
  In "@" (slice_at (InclusionAttributeMap l) (ToUpper (TrimSpace x))).
Proof.
  intros Hparse (ls1 & ls2 & ->)%in_split He1 He2 Htrim Hx. unfold ProcessList in Hparse.
  apply foldl_Ok_split in Hparse as (la & lb & _ & Hline & Hrest);
    [|intros [l1| |] b Hst; [exfalso; eapply Hst; reflexivity | reflexivity | reflexivity]].
  simpl in Hline. rewrite He1, He2 in Hline.
  rewrite (processLine_include _ _ _ Htrim Hx) in Hline. injection Hline as <-.
  pose proof (foldl_okP
    (fun l => HasInclusion l = true /\
              In "@" (slice_at (InclusionAttributeMap l) (ToUpper (TrimSpace x))))
    (processListStep isEmpty removeComment) ls2
    (Ok (set_InclusionAttributeMap
           (append_at (ToUpper (TrimSpace x)) ["@"] (InclusionAttributeMap la))
           (set_HasInclusion true la)))) as Hinv.
  rewrite Hrest in Hinv. apply Hinv.
  - intros [l1| |] line0 Hst; try exact I. simpl.
    destruct (isEmpty line0); [exact Hst|].
    destruct (isEmpty (removeComment line0)); [exact Hst|].
    destruct (processLine l1 (removeComment line0)) eqn:E; try exact I.
    simpl. eapply processLine_keeps; eassumption.
  - simpl. split; [reflexivity|]. rewrite slice_at_append_at.
    rewrite decide_True by reflexivity. rewrite in_app_iff. right. left. reflexivity.
Qed.

End recorded_facts.

(** ** An inclusion without a filter *)

Section include_all_facts.
Context {rt : GoRuntime} {U : Unicode}.

Lemma segmentOf_app_prefix {A} (l part mid : list A) :
  part `prefix_of` mid -> segmentOf part (l ++ mid).
Proof. intros [k ->]. exists l, k. reflexivity. Qed.

Lemma includeAll_holds l includedList target :
  extends target includedList -> holdsAll target (includeAll l includedList).
Proof.
  intros []. rewrite includeAll_closed.
  constructor; simpl; try (apply segmentOf_app_prefix; assumption).
  intros k. rewrite slice_at_appendGroups by apply map_range_NoDup.
  rewrite list_to_map_map_range. apply segmentOf_app_prefix. auto.
Qed.

Lemma holdsAll_extends target l l' : holdsAll target l -> extends l l' -> holdsAll target l'.
Proof.
  intros [] []. constructor; try (eapply segmentOf_prefix; eassumption).
  intros k. eapply segmentOf_prefix; eauto.
Qed.

End include_all_facts.

(** C8. For a file whose text has a line that [ProcessList] passes on as
    [include:X], with no [@] (whatever [isEmpty] and [removeComment] are),
    [Flatten] copies into its collection the untagged lists of the four
    kinds of [X] ([X] trimmed and upper-cased), each list in one piece and in
    its order (the suffix list up to the reordering by label count), and all
    tagged rules of [X], as the records they are, into the tagged list and,
    group by group, into the tagged-rule map. *)
Theorem Flatten_include_all {rt : GoRuntime} {U : Unicode}
    (isEmpty : string -> bool) (removeComment : string -> string)
    (lm : ListInfoMap) (self : fileName) (l0 : ListInfo)
    (lines : list string) (line x : string) (l target : ListInfo) (lm' : ListInfoMap) :
  ProcessList isEmpty removeComment l0 lines = Ok l ->
  In line lines ->
  isEmpty line = false -> isEmpty (removeComment line) = false ->
  strings.TrimSpace (removeComment line) = "include:" +:+ x ->
  strings.hasByte "@" x = false ->
  lm !! self = Some l ->
  lm !! strings.ToUpper (strings.TrimSpace x) = Some target ->
  Flatten lm self = Ok lm' ->
  exists l', lm' !! self = Some l' /\
    segmentOf (FullTypeList target) (FullTypeList l') /\
    segmentOf (KeywordTypeList target) (KeywordTypeList l') /\
    segmentOf (RegexpTypeList target) (RegexpTypeList l') /\
    (exists rest, DomainTypeList l' ≡ₚ DomainTypeList target ++ rest) /\
    segmentOf (AttributeRuleUniqueList target) (AttributeRuleUniqueList l') /\
    (forall k, segmentOf (slice_at (AttributeRuleListMap target) k)
                         (slice_at (AttributeRuleListMap l') k)).
Proof.
  intros Hparse Hline He1 He2 Htrim Hx Hl Htarget
    (l2 & lm1 & l1 & Hl0 & Hloops & Hl1 & ->)%Flatten_closed.
  rewrite Hl in Hl0. injection Hl0 as <-.
  destruct (ProcessList_recorded _ _ _ _ _ _ _ Hparse Hline He1 He2 Htrim Hx)
    as [Hinc Hrec].
  set (X := strings.ToUpper (strings.TrimSpace x)) in *.
  rewrite Hinc in Hloops.
  unfold slice_at in Hrec.
  destruct (InclusionAttributeMap l !! X) as [attrs|] eqn:Hattrs; [|contradiction].
  simpl in Hrec.
  destruct (includeLoops_step _ _ _ _ _ _ _ Hl Hloops Hattrs Hrec)
    as (lma & lmb & Fa & Hstep & Fb).
  apply includeStep_Ok in Hstep as (la & incl & Hla & Hincl & ->).
  rewrite decide_True in Fb by reflexivity.
  assert (Hext : extends target incl).
  { destruct Fa as [Hother (l3 & la' & Hl3 & Hla' & Hext)].
    destruct (decide (X = self)) as [HX|HX].
    - rewrite HX in *. rewrite Hl in Htarget, Hl3.
      injection Htarget as <-. injection Hl3 as <-.
      rewrite Hincl in Hla'. injection Hla' as <-. exact Hext.
    - rewrite (Hother X HX), Htarget in Hincl. injection Hincl as <-.
      apply extends_refl. }
  assert (Hholds : holdsAll target l1).
  { destruct Fb as [_ (lb & l1' & Hlb & Hl1' & Hext')].
    rewrite lookup_insert_eq in Hlb. injection Hlb as <-.
    rewrite Hl1 in Hl1'. injection Hl1' as <-.
    eapply holdsAll_extends; [|exact Hext']. apply includeAll_holds, Hext. }
  exists (flattened l1). split; [apply lookup_insert_eq|].
  destruct Hholds as [HF HK HR HD HT HG]. unfold flattened. simpl.
  repeat (split; [assumption|]). split; [|split; assumption].
  destruct HD as (pre & post & HD). exists (pre ++ post).
  rewrite sort_Slice_perm, HD.
  rewrite (Permutation_app_comm pre), <- app_assoc.
  apply Permutation_app_head, Permutation_app_comm.
Qed.

Lemma Flatten_include_all_witness :
  let lm := registry includingFiles in
  exists l' target, flattenOk reference_runtime lm "B" !! "B" = Some l'
    /\ lm !! "A" = Some target
    /\ segmentOf (FullTypeList target) (FullTypeList l')
    /\ segmentOf (KeywordTypeList target) (KeywordTypeList l')
    /\ segmentOf (RegexpTypeList target) (RegexpTypeList l')
    /\ (exists rest, DomainTypeList l' ≡ₚ DomainTypeList target ++ rest)
    /\ segmentOf (AttributeRuleUniqueList target) (AttributeRuleUniqueList l')
    /\ (forall k, segmentOf (slice_at (AttributeRuleListMap target) k)
                            (slice_at (AttributeRuleListMap l') k))
    /\ values (FullTypeList l') = ["www.direct.net"; "login.example.com"]
    /\ values (AttributeRuleUniqueList l') = ["cn.example.com"; "ads.example.org"].
Proof.
  destruct (@Flatten_include_all reference_runtime ascii_letters (fun _ => false) (fun line => line)
              (registry includingFiles) "B" (set_Name "B" NewListInfo)
              ["direct.net"; " include:a "; "full:www.direct.net"] " include:a " "a"
              (default NewListInfo (registry includingFiles !! "B"))
              (default NewListInfo (registry includingFiles !! "A"))
              (flattenOk reference_runtime (registry includingFiles) "B"))
    as (l' & Hl' & H); try (vm_compute; reflexivity).
  - vm_compute. tauto.
  - exists l', (default NewListInfo (registry includingFiles !! "A")).
    split; [exact Hl'|]. split; [vm_compute; reflexivity|].
    destruct H as (H1 & H2 & H3 & H4 & H5 & H6).
    repeat (split; [assumption|]).
    assert (l' = flattenedFile reference_runtime (registry includingFiles) "B") as ->
      by (unfold flattenedFile; rewrite Hl'; reflexivity).
    split; vm_compute; reflexivity.
Defined.

(** ** The key test of the filtered inclusion *)

Section key_facts.
Context {U : Unicode}.
Import strings strings_facts.

Lemma middle_of_list {A} (x0 y : A) (M A1 B : list A) (w : A) :
  x0 :: M ++ [y] = A1 ++ w :: B -> A1 <> [] -> B <> [] -> In w M.
Proof.
  intros Heq HA HB. destruct A1 as [|a A1]; [congruence|].
  injection Heq as _ Heq.
  destruct (exists_last HB) as (B' & b & ->).
  change (M ++ [y] = A1 ++ (w :: B') ++ [b]) in Heq.
  rewrite app_assoc in Heq. apply app_inj_tail in Heq as [-> _].
  apply in_elt.
Qed.

(** The test of the default case, on any key: the wanted tag is one of the
    tags the key spells. *)
Lemma attrMatches_keyTags k w :
  hasByte "@" w = false ->
  attrMatches k ("@" +:+ w) = true <-> In w (keyTags k).
Proof.
  intros Hw. unfold attrMatches, keyTags. rewrite Contains_spec. split.
  - intros (pre & post & Heq).
    apply (f_equal (fun s => Split s "@")) in Heq.
    change (("@" +:+ w) +:+ "@") with (String "@" (w +:+ String "@" EmptyString)) in Heq.
    change (k +:+ "@") with (k +:+ String "@" EmptyString) in Heq.
    rewrite sapp_cons, sapp_assoc in Heq.
    change (String "@" EmptyString +:+ post) with (String "@" post) in Heq.
    rewrite !Split_app, (Split_no_sep _ _ Hw) in Heq. simpl in Heq.
    pose proof (Split_not_nil k "@") as Hk. pose proof (Split_not_nil pre "@") as Hpre.
    pose proof (Split_not_nil post "@") as Hpost.
    destruct (Split k "@") as [|k0 ks]; [congruence|]. simpl.
    eapply (middle_of_list k0 EmptyString ks (Split pre "@") (Split post "@") w);
      assumption.
  - intros Hin. pose proof (Join_Split k "@") as Hk.
    destruct (Split k "@") as [|k0 ks]; [contradiction|]. simpl in Hin.
    apply in_split in Hin as (T1 & T2 & ->).
    assert (Hpost : exists post, Join (w :: T2) "@" +:+ "@" = (w +:+ "@") +:+ post).
    { destruct T2 as [|t T2].
      - exists EmptyString. simpl. rewrite sapp_nil_r. reflexivity.
      - exists (Join (t :: T2) "@" +:+ "@").
        rewrite Join_cons by discriminate. rewrite !sapp_assoc. reflexivity. }
    destruct Hpost as [post Hpost].
    exists (Join (k0 :: T1) "@"), post. rewrite <- Hk.
    change (k0 :: T1 ++ w :: T2) with ((k0 :: T1) ++ w :: T2).
    rewrite Join_app by discriminate.
    rewrite sapp_assoc. f_equal.
    change (String "@" (Join (w :: T2) "@") +:+ "@")
      with (String "@" (Join (w :: T2) "@" +:+ "@")).
    rewrite Hpost. reflexivity.
Qed.




End key_facts.

(** ** An inclusion with a filter *)

Section include_wanted_facts.
Context {rt : GoRuntime} {U : Unicode}.
Import strings strings_facts.






End include_wanted_facts.





(** ** Further properties of the parser and of [Flatten] *)

(** X1. [Flatten] keeps every collection of a well-formed registry well
    formed: after it, each untagged list of each file still holds untagged
    rules of its own kind only, the tagged list holds tagged rules only, and
    each group of the tagged-rule map is filed under the key of its rules. *)
Theorem Flatten_keeps_wellFormed {rt : GoRuntime} (lm : ListInfoMap) (self : fileName)
    (lm' : ListInfoMap) :
  (forall f l, lm !! f = Some l -> wellFormed l) ->
  Flatten lm self = Ok lm' ->
  forall f l, lm' !! f = Some l -> wellFormed l.
Proof.
  intros Hwf Hflat f l Hl. exact (wellFormed_Flatten lm self lm' Hwf Hflat f l Hl).
Qed.

Lemma Flatten_keeps_wellFormed_witness :
  wellFormed (flattenedFile reference_runtime typedFiles "TOP").
Proof.
  apply (@Flatten_keeps_wellFormed reference_runtime typedFiles "TOP"
           (flattenOk reference_runtime typedFiles "TOP")
           (fun f l => wellFormed_registry _ f l)
           ltac:(vm_compute; reflexivity) "TOP").
  vm_compute. reflexivity.
Defined.

(** X2. [ProcessList], whatever [isEmpty] and [removeComment] are, takes a
    well-formed collection to a well-formed one: [classifyRule] files an
    untagged rule in the list of its kind and a tagged rule in the tagged
    list and under the key made of its attributes. *)
Theorem ProcessList_keeps_wellFormed {U : Unicode} (isEmpty : string -> bool)
    (removeComment : string -> string) (l : ListInfo) (lines : list string)
    (l' : ListInfo) :
  wellFormed l -> ProcessList isEmpty removeComment l lines = Ok l' -> wellFormed l'.
Proof.
  intros Hwf Hl. exact (wellFormed_ProcessList isEmpty removeComment l lines l' Hwf Hl).
Qed.

Lemma ProcessList_keeps_wellFormed_witness :
  wellFormed (default NewListInfo (typedFiles !! "BASE")).
Proof.
  apply (ProcessList_keeps_wellFormed (fun _ => false) (fun line => line)
           (set_Name "BASE" NewListInfo)
           ["full:a.example.org"; "keyword:exa"; "regexp:^b\.example$";
            "example.org"; "sub.example.org @cn"]).
  - apply wellFormed_New.
  - vm_compute. reflexivity.
Defined.



(** X4. The test of the filtered inclusion is a test on tags: a group key
    followed by [@] contains [@w@] exactly when [w] is one of the tags that
    the key spells, for every wanted tag [w] without an [@]. *)
Theorem attrMatches_is_tag_membership (k w : string) :
  strings.hasByte "@" w = false ->
  attrMatches k ("@" +:+ w) = true <-> In w (keyTags k).
Proof. intros Hw. exact (attrMatches_keyTags k w Hw). Qed.

Lemma attrMatches_is_tag_membership_witness :
  attrMatches "@cn@ads" "@ads" = true <-> In "ads" (keyTags "@cn@ads").
Proof. apply (attrMatches_is_tag_membership "@cn@ads" "ads"). reflexivity. Defined.

(** * The rest of the parser, the flags and the exporters *)

(** ** Case and white space *)
Section case_facts.
Context {U : Unicode}.
Import strings strings_facts.

Lemma lowerByte_idem c : lowerByte (lowerByte c) = lowerByte c.
Proof. destruct c as [[] [] [] [] [] [] [] []]; vm_compute; reflexivity. Qed.

Lemma asciiSpace_lowerByte c : asciiSpace (lowerByte c) = asciiSpace c.
Proof. destruct c as [[] [] [] [] [] [] [] []]; vm_compute; reflexivity. Qed.

Lemma lowerByte_blank c : Ascii.eqb (lowerByte c) " " = Ascii.eqb c " ".
Proof. destruct c as [[] [] [] [] [] [] [] []]; vm_compute; reflexivity. Qed.

Lemma lowerByte_colon c : Ascii.eqb (lowerByte c) ":" = Ascii.eqb c ":".
Proof. destruct c as [[] [] [] [] [] [] [] []]; vm_compute; reflexivity. Qed.

Lemma lower_idem s : mapBytes lowerByte (mapBytes lowerByte s) = mapBytes lowerByte s.
Proof.
  induction s as [|c s IH]; simpl; [reflexivity|].
  rewrite lowerByte_idem, IH. reflexivity.
Qed.

(** On an ASCII string [ToLower] is idempotent. *)
Lemma ToLower_idem s : isASCII s = true -> ToLower (ToLower s) = ToLower s.
Proof.
  intros H. rewrite (ToLower_ascii s H).
  rewrite ToLower_ascii by (rewrite isASCII_lower; exact H). apply lower_idem.
Qed.

Lemma TrimLeftSpace_lower s :
  isASCII s = true ->
  TrimLeftSpace (mapBytes lowerByte s) = mapBytes lowerByte (TrimLeftSpace s).
Proof.
  induction s as [|c s IH]; [reflexivity|]. intros [Hc Hs]%andb_true_iff.
  change (mapBytes lowerByte (String c s)) with (String (lowerByte c) (mapBytes lowerByte s)).
  rewrite !TrimLeftSpace_ascii by (rewrite ?isASCIIByte_lowerByte; exact Hc).
  rewrite asciiSpace_lowerByte. destruct (asciiSpace c); [exact (IH Hs) | reflexivity].
Qed.

Lemma TrimRightSpace_lower s :
  isASCII s = true ->
  TrimRightSpace (mapBytes lowerByte s) = mapBytes lowerByte (TrimRightSpace s).
Proof.
  induction s as [|c s IH]; [reflexivity|]. intros [Hc Hs]%andb_true_iff.
  change (mapBytes lowerByte (String c s)) with (String (lowerByte c) (mapBytes lowerByte s)).
  rewrite !TrimRightSpace_ascii by (rewrite ?isASCIIByte_lowerByte; exact Hc).
  rewrite (IH Hs), asciiSpace_lowerByte.
  destruct (TrimRightSpace s); simpl; [destruct (asciiSpace c)|]; reflexivity.
Qed.

(** On an ASCII string trimming and lower-casing commute. *)
Lemma TrimSpace_ToLower s : isASCII s = true -> TrimSpace (ToLower s) = ToLower (TrimSpace s).
Proof.
  intros H. rewrite (ToLower_ascii s H), (ToLower_ascii _ (isASCII_TrimSpace s H)).
  unfold TrimSpace.
  rewrite (TrimLeftSpace_lower s H), (TrimRightSpace_lower _ (isASCII_TrimLeftSpace s H)).
  reflexivity.
Qed.

Lemma hasByte_lower_blank s : hasByte " " (mapBytes lowerByte s) = hasByte " " s.
Proof.
  induction s as [|c s IH]; [reflexivity|]. simpl. rewrite lowerByte_blank, IH. reflexivity.
Qed.

Lemma hasByte_lower_colon s : hasByte ":" (mapBytes lowerByte s) = hasByte ":" s.
Proof.
  induction s as [|c s IH]; [reflexivity|]. simpl. rewrite lowerByte_colon, IH. reflexivity.
Qed.

Lemma hasByte_ToLower_blank s : isASCII s = true -> hasByte " " (ToLower s) = hasByte " " s.
Proof. intros H. rewrite (ToLower_ascii s H). apply hasByte_lower_blank. Qed.

Lemma hasByte_ToLower_colon s : isASCII s = true -> hasByte ":" (ToLower s) = hasByte ":" s.
Proof. intros H. rewrite (ToLower_ascii s H). apply hasByte_lower_colon. Qed.

(** The pieces of a string hold no byte that the string does not hold. *)
Lemma Split_pieces_hasByte c s sep :
  hasByte c s = false -> Forall (fun w => hasByte c w = false) (Split s sep).
Proof.
  induction s as [|d s IH]; simpl.
  - intros _. repeat constructor.
  - intros [Hd Hs]%orb_false_iff. specialize (IH Hs).
    destruct (Ascii.eqb d sep).
    + constructor; [reflexivity | exact IH].
    + destruct (Split s sep) as [|w ws]; [repeat constructor; simpl; rewrite Hd; reflexivity|].
      inversion IH; subst. constructor; [simpl; rewrite Hd; assumption | assumption].
Qed.

End case_facts.

(** ** What a parsed rule looks like *)
Section parsed_rule_facts.
Context {U : Unicode}.
Import strings strings_facts.

Lemma storedValue_piece ty w :
  isASCII w = true -> hasByte " " w = false -> hasByte ":" w = false ->
  storedValue ty (ToLower (TrimSpace w)) /\ storedValue Domain_Regex (TrimSpace w).
Proof.
  intros Ha Hb Hc. pose proof (isASCII_TrimSpace w Ha) as Hat.
  split; (split; [|split; [|split]]).
  - rewrite (TrimSpace_ToLower _ Hat), TrimSpace_idem. reflexivity.
  - rewrite (hasByte_ToLower_blank _ Hat). apply hasByte_TrimSpace, Hb.
  - rewrite (hasByte_ToLower_colon _ Hat). apply hasByte_TrimSpace, Hc.
  - intros _. apply ToLower_idem, Hat.
  - apply TrimSpace_idem.
  - apply hasByte_TrimSpace, Hb.
  - apply hasByte_TrimSpace, Hc.
  - congruence.
Qed.

Lemma storedValue_empty ty : storedValue ty EmptyString.
Proof. repeat split. Qed.

Lemma parseTypeRule_storedValue token rule rule' :
  isASCII token = true -> hasByte " " token = false ->
  storedValue (Type_ rule) (Value rule) ->
  parseTypeRule token rule = (rule', None) ->
  storedValue (Type_ rule') (Value rule') /\ Attribute rule' = Attribute rule.
Proof.
  intros Ha Hb Hrule. unfold parseTypeRule.
  pose proof (Split_pieces_no_sep token ":") as Hc.
  pose proof (Split_pieces_hasByte " " token ":" Hb) as Hb'.
  pose proof (isASCII_Split token ":" Ha) as Ha'.
  destruct (Split token ":") as [|kv0 [|kv1 [|kv2 kv]]].
  - intros [= <-]. auto.
  - intros [= <-]. simpl. split; [|reflexivity].
    inversion Hc; inversion Hb'; inversion Ha'; subst.
    apply storedValue_piece; assumption.
  - inversion Hc as [|? ? _ Hc1]; inversion Hb' as [|? ? _ Hb1];
      inversion Ha' as [|? ? _ Ha1]; subst.
    inversion Hc1; inversion Hb1; inversion Ha1; subst.
    pose proof (storedValue_piece Domain_Full kv1 ltac:(assumption) ltac:(assumption)
                  ltac:(assumption)) as [Hlow Hraw].
    repeat case_decide; intros [= <-]; simpl; split; try reflexivity.
    + destruct Hlow as (?&?&?&?); repeat split; auto.
    + destruct Hlow as (?&?&?&?); repeat split; auto.
    + destruct Hlow as (?&?&?&?); repeat split; auto.
    + exact Hraw.
  - intros [= <-]. auto.
Qed.

Lemma parseAttribute_storedTag attr a :
  isASCII attr = true -> hasByte " " attr = false -> parseAttribute attr = Ok a -> storedTag a.
Proof.
  unfold parseAttribute. destruct attr as [|c rest]; [discriminate|].
  simpl. intros [_ Ha]%andb_true_iff [_ Hb]%orb_false_iff.
  destruct (negb (Ascii.eqb c "@")); [discriminate|]. intros [= <-].
  unfold storedTag. cbn [Key TypedValue].
  split; [apply ToLower_idem, Ha|]. split; [|reflexivity].
  rewrite (hasByte_ToLower_blank _ Ha). exact Hb.
Qed.

Lemma parseAttributes_storedTag parts rule rule' :
  Forall (fun w => isASCII w = true) parts ->
  Forall (fun w => hasByte " " w = false) parts ->
  Forall storedTag (Attribute rule) ->
  parseAttributes parts rule = Ok rule' ->
  Forall storedTag (Attribute rule').
Proof.
  revert rule. induction parts as [|p parts IH]; intros rule Hascii Hparts Hrule; simpl.
  - intros [= <-]. exact Hrule.
  - inversion Hparts as [|? ? Hp Hps]; inversion Hascii as [|? ? Ha Has]; subst.
    case_decide; [apply IH; assumption|].
    destruct (parseAttribute (TrimSpace p)) as [a| |] eqn:Hpa; try discriminate.
    apply IH; [assumption|assumption|]. simpl. apply Forall_app. split; [exact Hrule|].
    constructor; [|constructor].
    eapply parseAttribute_storedTag; [| |exact Hpa].
    + apply isASCII_TrimSpace, Ha.
    + apply hasByte_TrimSpace, Hp.
Qed.

Lemma parseRule_stored l line l' rule :
  isASCII line = true ->
  parseRule l line = (l', Ok (Some rule)) ->
  storedValue (Type_ rule) (Value rule) /\ Forall storedTag (Attribute rule).
Proof.
  intros Hascii. unfold parseRule. case_decide; [discriminate|].
  destruct (HasPrefix (TrimSpace line) "include:"); [discriminate|].
  case_decide; [discriminate|].
  pose proof (Split_pieces_no_sep (TrimSpace line) " ") as Hb.
  pose proof (isASCII_Split (TrimSpace line) " " (isASCII_TrimSpace _ Hascii)) as Ha.
  pose proof (Split_not_nil (TrimSpace line) " ") as Hne.
  destruct (Split (TrimSpace line) " ") as [|p parts]; [congruence|].
  inversion Hb as [|? ? Hp Hparts]; inversion Ha as [|? ? Hpa Hpartsa]; subst.
  simpl hd in *. simpl tl.
  destruct (parseTypeRule (TrimSpace p) zeroDomain) as [rule0 [err|]] eqn:Ht; [discriminate|].
  apply parseTypeRule_storedValue in Ht as [Hv Hattr];
    [|apply isASCII_TrimSpace, Hpa | apply hasByte_TrimSpace, Hp | apply storedValue_empty].
  pose proof (parseAttributes_outcome parts rule0) as Hout.
  destruct (parseAttributes parts rule0) as [rule1| |] eqn:Hp1; try discriminate.
  intros [= _ <-]. destruct Hout as [-> ->]. split; [exact Hv|].
  eapply parseAttributes_storedTag; [exact Hpartsa|exact Hparts| |exact Hp1].
  rewrite Hattr. constructor.
Qed.

End parsed_rule_facts.

(** ** The inclusion line with empty filter segments *)
Section blank_filter_facts.
Context {U : Unicode}.
Import strings strings_facts.

Lemma inclusion_loop_blank (filename : fileName) segs (l1 : ListInfo) :
  Forall (fun seg => TrimSpace seg = EmptyString) segs ->
  foldl (fun l attr =>
           let attr := ToLower (TrimSpace attr) in
           if decide (attr = EmptyString) then l
           else set_InclusionAttributeMap
                  (append_at filename ["@" +:+ attr] (InclusionAttributeMap l)) l)
        l1 segs = l1.
Proof.
  intros Hsegs. revert l1. induction Hsegs as [|seg rest Hseg _ IH]; intros l1; [reflexivity|].
  simpl. rewrite Hseg. change (ToLower EmptyString) with EmptyString.
  rewrite decide_True by reflexivity. apply IH.
Qed.

Lemma parseInclusion_blank l x y :
  hasByte "@" x = false ->
  Forall (fun seg => TrimSpace seg = EmptyString) (Split y "@") ->
  parseInclusion l ("include:" +:+ x +:+ String "@" y) = set_HasInclusion true l.
Proof.
  intros Hx Hy. unfold parseInclusion.
  rewrite TrimSpace_include, TrimPrefix_include.
  destruct (Split_TrimRightSpace (x +:+ String "@" y) "@" eq_refl)
    as (init & wl & post & Hpost & Ht' & Ht).
  rewrite Split_app, (Split_no_sep _ _ Hx) in Ht. simpl in Ht.
  rewrite Ht'.
  pose proof (Split_not_nil y "@") as Hne.
  destruct (Split y "@") as [|s0 segs0]; [congruence|]. clear Hne.
  destruct init as [|w0 init]; simpl in Ht; [discriminate Ht|].
  injection Ht as <- Ht. rewrite Ht in Hy.
  apply Forall_app in Hy as [Hinit Hlast].
  assert (Hsegs : Forall (fun seg => TrimSpace seg = EmptyString) (init ++ [wl])).
  { apply Forall_app. split; [exact Hinit|]. constructor; [|constructor].
    inversion Hlast as [|? ? Hw _]; subst.
    rewrite (TrimSpace_app _ _ Hpost) in Hw. exact Hw. }
  rewrite <- app_comm_cons.
  destruct (init ++ [wl]) as [|s segs] eqn:Hshape; [destruct init; discriminate|].
  exact (inclusion_loop_blank _ (s :: segs) _ Hsegs).
Qed.

End blank_filter_facts.

(** ** An included file that is not in the registry *)
Section missing_file_facts.
Context {rt : GoRuntime}.

Lemma includeStep_okOrNil self filename st attrWanted :
  okOrNil st -> okOrNil (includeStep self filename st attrWanted).
Proof.
  destruct st as [lm| |]; simpl; auto.
  intros _. destruct (lm !! self), (lm !! filename); simpl; auto.
Qed.

Lemma foldl_inv {A B} (Q : A -> Prop) (f : A -> B -> A) xs a :
  (forall a b, Q a -> Q (f a b)) -> Q a -> Q (foldl f a xs).
Proof.
  intros Hf. revert a. induction xs as [|x xs IH]; intros a Ha; simpl; auto.
Qed.

Lemma includeLoops_okOrNil self l lm : okOrNil (includeLoops self l lm).
Proof.
  unfold includeLoops. apply foldl_inv; [|exact I].
  intros st [filename attrs] Hst. apply foldl_inv; [|exact Hst].
  intros st' aw. apply includeStep_okOrNil.
Qed.

Lemma includeLoops_missing self l lm filename attrs :
  lm !! self = Some l ->
  InclusionAttributeMap l !! filename = Some attrs -> attrs <> [] ->
  lm !! filename = None ->
  includeLoops self l lm = Panic "nil pointer dereference".
Proof.
  intros Hl Hattrs Hne Hmiss.
  pose proof (includeLoops_okOrNil self l lm) as Hq.
  destruct (includeLoops self l lm) as [lm1|e|msg] eqn:Hloops; simpl in Hq;
    [exfalso | contradiction | congruence].
  destruct attrs as [|attrWanted attrs]; [congruence|].
  destruct (includeLoops_step self l lm lm1 filename (attrWanted :: attrs) attrWanted
              Hl Hloops Hattrs (or_introl eq_refl))
    as (lma & lmb & [Hother _] & Hstep & _).
  assert (Hf : filename <> self) by congruence.
  unfold includeStep in Hstep. rewrite (Hother filename Hf), Hmiss in Hstep.
  destruct (lma !! self); discriminate.
Qed.

End missing_file_facts.

(** ** The assembler under a configuration that names no tag of the file *)
Section exclusion_frame_facts.

Lemma ToGeoSite_ineffective excludeAttrs l :
  (forall m k, excludeAttrs ≫= (fun m => m !! Name l) = Some m -> m !! k <> Some true) ->
  ToGeoSite excludeAttrs l = ToGeoSite None l.
Proof.
  intros Hno. unfold ToGeoSite. rewrite !appendTagged_closed.
  assert (Hs : forall ty d, survives excludeAttrs (Name l) ty d <-> survives None (Name l) ty d).
  { intros ty d. unfold survives, excluded. split; intros [Hty Hex]; (split; [exact Hty|]).
    - intros (m & a & Hm & _). discriminate.
    - intros (m & a & Hm & _ & Hk). exact (Hno m (Key a) Hm Hk). }
  rewrite (list_filter_iff _ _ _ (Hs Domain_Full)).
  rewrite (list_filter_iff _ _ _ (Hs Domain_RootDomain)). reflexivity.
Qed.

End exclusion_frame_facts.

(** ** The flags *)
Section flag_facts.
Context {U : Unicode}.
Import strings strings_facts.

Lemma length_zero_iff (s : string) : String.length s = 0 <-> s = EmptyString.
Proof. destruct s; simpl; split; (congruence || lia). Qed.

Lemma tagSet_lookup tags k :
  tagSet tags !! k = if decide (In k tags) then Some true else None.
Proof.
  unfold tagSet. induction tags as [|t tags IH]; simpl.
  - rewrite lookup_empty. reflexivity.
  - destruct (decide (t = k)) as [->|Hne].
    + rewrite lookup_insert_eq. rewrite decide_True by auto. reflexivity.
    + rewrite lookup_insert_ne by exact Hne. rewrite IH.
      destruct (decide (In k tags)).
      * rewrite decide_True by auto. reflexivity.
      * rewrite decide_False by tauto. reflexivity.
Qed.

(** The inner loop of an entry, on the set of the file. *)
Lemma entry_loop filename segs (m : gmap fileName (gmap attribute bool)) inner :
  m !! filename = Some inner ->
  foldl (fun m attr =>
           let attr := TrimSpace attr in
           if decide (String.length attr = 0) then m
           else <[filename := <[attr := true]> (default ∅ (m !! filename))]> m)
        m segs
  = <[filename := foldl (fun inner attr => <[attr := true]> inner) inner
                        (filter (fun attr => attr <> EmptyString) (map TrimSpace segs))]> m.
Proof.
  revert m inner. induction segs as [|seg segs IH]; intros m inner Hm; simpl.
  - rewrite insert_id by exact Hm. reflexivity.
  - rewrite filter_cons. case_decide as Hlen.
    + apply length_zero_iff in Hlen. rewrite decide_False by tauto. apply IH, Hm.
    + rewrite length_zero_iff in Hlen. rewrite decide_True by exact Hlen.
      rewrite (IH _ (<[TrimSpace seg := true]> inner)).
      * rewrite Hm. simpl. rewrite insert_insert_eq. reflexivity.
      * rewrite Hm. simpl. apply lookup_insert_eq.
Qed.

Lemma insert_fold_lookup tags (inner : gmap attribute bool) k :
  foldl (fun inner attr => <[attr := true]> inner) inner tags !! k
  = if decide (In k tags) then Some true else inner !! k.
Proof.
  revert inner. induction tags as [|t tags IH]; intros inner; simpl; [reflexivity|].
  rewrite IH. destruct (decide (In k tags)).
  - rewrite decide_True by auto. reflexivity.
  - destruct (decide (t = k)) as [->|Hne].
    + rewrite lookup_insert_eq, decide_True by auto. reflexivity.
    + rewrite lookup_insert_ne by exact Hne. rewrite decide_False by tauto. reflexivity.
Qed.

(** One entry of the flag puts the set of its tags under its file, whatever
    was there, and leaves the other files alone. *)
Lemma excludeEntry_closed m e :
  excludeEntry m e = <[entryFile e := tagSet (entryTags e)]> m.
Proof.
  unfold excludeEntry. cbv zeta. fold (entryFile e).
  rewrite (entry_loop _ _ _ ∅) by apply lookup_insert_eq.
  rewrite insert_insert_eq. f_equal. apply map_eq. intros k.
  rewrite insert_fold_lookup, tagSet_lookup, lookup_empty. reflexivity.
Qed.

Lemma parseExcludeAttrs_closed excludeAttrs name :
  excludeAttrs <> EmptyString ->
  parseExcludeAttrs excludeAttrs !! name
  = (fun e => tagSet (entryTags e))
      <$> last (filter (fun e => entryFile e = name) (Split excludeAttrs ",")).
Proof.
  intros Hne. unfold parseExcludeAttrs. rewrite decide_False by exact Hne.
  induction (Split excludeAttrs ",") as [|e es IH] using rev_ind; [reflexivity|].
  rewrite foldl_app, filter_app. simpl. rewrite excludeEntry_closed, filter_cons, filter_nil.
  destruct (decide (entryFile e = name)) as [<-|Hf].
  - rewrite lookup_insert_eq, last_snoc. reflexivity.
  - rewrite lookup_insert_ne by exact Hf. rewrite app_nil_r. exact IH.
Qed.

Lemma exportLists_loop (acc : list string) xs :
  foldl (fun exportListsSlice exportList =>
           let exportList := TrimSpace exportList in
           if decide (0 < String.length exportList)
           then exportListsSlice ++ [exportList] else exportListsSlice) acc xs
  = acc ++ filter (fun name => name <> EmptyString) (map TrimSpace xs).
Proof.
  revert acc. induction xs as [|x xs IH]; intros acc; simpl.
  - rewrite app_nil_r. reflexivity.
  - rewrite IH, filter_cons. case_decide as Hlen.
    + rewrite decide_True by (rewrite <- length_zero_iff; lia).
      rewrite <- app_assoc. reflexivity.
    + rewrite decide_False by (rewrite <- length_zero_iff; lia). reflexivity.
Qed.

Lemma parseExportLists_closed exportLists :
  parseExportLists exportLists
  = filter (fun name => name <> EmptyString) (map TrimSpace (Split exportLists ",")).
Proof.
  unfold parseExportLists. case_decide as He.
  - subst. reflexivity.
  - apply exportLists_loop.
Qed.

Lemma exportLists_names exportLists :
  Forall (fun name => name <> EmptyString /\ TrimSpace name = name
                      /\ hasByte "," name = false)
         (parseExportLists exportLists).
Proof.
  rewrite parseExportLists_closed. apply Forall_forall. intros name.
  rewrite list_elem_of_filter, list_elem_of_fmap. intros [Hne (piece & -> & Hin)].
  split; [exact Hne|]. split; [apply TrimSpace_idem|].
  apply hasByte_TrimSpace.
  pose proof (Split_pieces_no_sep exportLists ",") as Hall.
  rewrite Forall_forall in Hall. apply Hall, Hin.
Qed.

End flag_facts.

(** ** The exporters in closed form *)
Section exporter_facts.
Import strings strings_facts.

Lemma sapp_line a c r : (a +:+ String c EmptyString) +:+ r = a +:+ String c r.
Proof. rewrite sapp_assoc. reflexivity. Qed.

Lemma export_loop (step : string -> Domain -> string) (P : Domain -> Prop)
    `{!forall rule, Decision (P rule)} (lineOf : Domain -> string) bytes rules :
  (forall bytes rule,
     step bytes rule
     = if decide (P rule) then bytes +:+ (lineOf rule +:+ String "010" EmptyString)
       else bytes) ->
  foldl step bytes rules = bytes +:+ lines (map lineOf (filter P rules)).
Proof.
  intros Hstep. revert bytes. induction rules as [|rule rules IH]; intros bytes; simpl.
  - rewrite sapp_nil_r. reflexivity.
  - rewrite IH, Hstep, filter_cons. destruct (decide (P rule)); [|reflexivity].
    simpl. rewrite !sapp_assoc. reflexivity.
Qed.

Lemma ToPlainText_closed now l geosite :
  GeoSite l = Some geosite ->
  ToPlainText now l
  = Ok (generatedHeader now
        +:+ lines (map plainTextLine (filter nonBlank (GeoSite_Domain geosite)))).
Proof.
  intros Hg. unfold ToPlainText. rewrite Hg. f_equal.
  apply export_loop. intros bytes rule. cbv beta zeta. unfold nonBlank, plainTextLine.
  case_decide as Hlen; rewrite length_zero_iff in Hlen.
  - rewrite decide_False by tauto. reflexivity.
  - rewrite decide_True by exact Hlen. reflexivity.
Qed.

Lemma list_step rule (A : Type) (a b c : A) :
  match Type_ rule with
  | Domain_Full => a
  | Domain_RootDomain => b
  | _ => c
  end
  = if decide (listed rule) then (if decide (Type_ rule = Domain_Full) then a else b)
    else c.
Proof.
  destruct (decide (listed rule)) as [Hl|Hl];
    destruct (decide (Type_ rule = Domain_Full)) as [Hf|Hf].
  - rewrite Hf. reflexivity.
  - destruct Hl as [Hl|Hl]; [contradiction|]. rewrite Hl. reflexivity.
  - exfalso. apply Hl. left. exact Hf.
  - unfold listed in Hl. destruct (Type_ rule); try reflexivity; exfalso; apply Hl; auto.
Qed.

Lemma ToSurgeList_closed now l geosite :
  GeoSite l = Some geosite ->
  ToSurgeList now l
  = Ok (generatedHeader now
        +:+ lines (map surgeLine
                       (filter (fun rule => nonBlank rule /\ listed rule)
                               (GeoSite_Domain geosite)))).
Proof.
  intros Hg. unfold ToSurgeList. rewrite Hg. f_equal.
  apply export_loop. intros bytes rule. cbv beta zeta. unfold nonBlank, surgeLine.
  rewrite list_step.
  case_decide as Hlen; rewrite length_zero_iff in Hlen.
  - rewrite (decide_False (P := _ /\ _)) by tauto. reflexivity.
  - destruct (decide (listed rule)) as [Hl|Hl].
    + rewrite (decide_True (P := _ /\ _)) by tauto.
      destruct (decide (Type_ rule = Domain_Full)); rewrite !sapp_assoc; reflexivity.
    + rewrite (decide_False (P := _ /\ _)) by tauto. reflexivity.
Qed.

Lemma ToMihomoList_closed now l geosite :
  GeoSite l = Some geosite ->
  ToMihomoList now l
  = Ok ((generatedHeader now +:+ ("payload:" +:+ String "010" EmptyString))
        +:+ lines (map mihomoLine
                       (filter (fun rule => nonBlank rule /\ listed rule)
                               (GeoSite_Domain geosite)))).
Proof.
  intros Hg. unfold ToMihomoList. rewrite Hg. f_equal.
  apply export_loop. intros bytes rule. cbv beta zeta. unfold nonBlank, mihomoLine.
  rewrite list_step.
  case_decide as Hlen; rewrite length_zero_iff in Hlen.
  - rewrite (decide_False (P := _ /\ _)) by tauto. reflexivity.
  - destruct (decide (listed rule)) as [Hl|Hl].
    + rewrite (decide_True (P := _ /\ _)) by tauto.
      destruct (decide (Type_ rule = Domain_Full)); rewrite !sapp_assoc; reflexivity.
    + rewrite (decide_False (P := _ /\ _)) by tauto. reflexivity.
Qed.

Lemma ToQuantumultXList_closed now l geosite :
  GeoSite l = Some geosite ->
  ToQuantumultXList now l
  = Ok (generatedHeader now
        +:+ lines (map (quantumultXLine (policyOf (Name l)))
                       (filter (fun rule => nonBlank rule /\ listed rule)
                               (GeoSite_Domain geosite)))).
Proof.
  intros Hg. unfold ToQuantumultXList. rewrite Hg. cbv zeta. f_equal.
  apply export_loop. intros bytes rule. cbv beta. unfold nonBlank, quantumultXLine.
  rewrite list_step.
  case_decide as Hlen; rewrite length_zero_iff in Hlen.
  - rewrite (decide_False (P := _ /\ _)) by tauto. reflexivity.
  - destruct (decide (listed rule)) as [Hl|Hl].
    + rewrite (decide_True (P := _ /\ _)) by tauto.
      destruct (decide (Type_ rule = Domain_Full)); rewrite !sapp_assoc; reflexivity.
    + rewrite (decide_False (P := _ /\ _)) by tauto. reflexivity.
Qed.

(** Every rule that the assembler hands over is a full-domain rule or a
    suffix rule, when the collection is well formed. *)
Lemma compiled_listed excludeAttrs l d :
  wellFormed l -> In d (compiled excludeAttrs l) -> listed d.
Proof.
  intros Hwf [H|[H|(_ & H & _)]]%compiled_In.
  - left. exact (proj1 (untaggedOf_In _ _ _ (wf_Full l Hwf) H)).
  - right. exact (proj1 (untaggedOf_In _ _ _ (wf_Unique l Hwf) H)).
  - exact H.
Qed.

Lemma filter_listed excludeAttrs l :
  wellFormed l ->
  filter (fun rule => nonBlank rule /\ listed rule) (compiled excludeAttrs l)
  = filter nonBlank (compiled excludeAttrs l).
Proof.
  intros Hwf.
  assert (Hall : forall d, In d (compiled excludeAttrs l) -> listed d)
    by (intros d; apply compiled_listed, Hwf).
  induction (compiled excludeAttrs l) as [|d ds IH]; [reflexivity|].
  rewrite !filter_cons, IH by (intros d' Hd'; apply Hall; right; exact Hd').
  assert (listed d) by (apply Hall; left; reflexivity).
  destruct (decide (nonBlank d)).
  - rewrite decide_True by tauto. reflexivity.
  - rewrite decide_False by tauto. reflexivity.
Qed.

Lemma GeoSite_ToGeoSite excludeAttrs l :
  GeoSite (ToGeoSite excludeAttrs l)
  = Some (mkGeoSite (Name l) (compiled excludeAttrs l)).
Proof. reflexivity. Qed.

End exporter_facts.

(** ** Reading the plain text back *)
Section read_back_facts.
Context {U : Unicode}.
Import strings strings_facts.

Lemma Split_length s sep : length (Split s sep) = S (countByte sep s).
Proof.
  induction s as [|c s IH]; [reflexivity|]. simpl.
  destruct (Ascii.eqb c sep); simpl; [rewrite IH; reflexivity|].
  destruct (Split s sep) as [|w ws]; simpl in *; lia.
Qed.

Lemma TrimRight_cons c s cutset :
  Ascii.eqb c cutset = false -> TrimRight (String c s) cutset = String c (TrimRight s cutset).
Proof. intros Hc. simpl. rewrite Hc. destruct (TrimRight s cutset); reflexivity. Qed.

Lemma countByte_TrimRight c s cutset :
  Ascii.eqb cutset c = false -> countByte c (TrimRight s cutset) = countByte c s.
Proof.
  intros Hc. induction s as [|d s IH]; [reflexivity|]. simpl.
  destruct (TrimRight s cutset) as [|e t].
  - destruct (Ascii.eqb d cutset) eqn:Hd; simpl.
    + apply Ascii.eqb_eq in Hd. subst d. rewrite Hc. exact IH.
    + simpl in IH. rewrite <- IH. reflexivity.
  - change (countByte c (String d (String e t)))
      with ((if Ascii.eqb d c then 1 else 0) + countByte c (String e t)).
    rewrite IH. reflexivity.
Qed.

Lemma hasByte_TrimRight c s cutset :
  hasByte c s = false -> hasByte c (TrimRight s cutset) = false.
Proof.
  induction s as [|d s IH]; [reflexivity|]. simpl.
  intros [Hd Hs]%orb_false_iff. specialize (IH Hs).
  destruct (TrimRight s cutset) as [|e t].
  - destruct (Ascii.eqb d cutset); simpl; [reflexivity|]. rewrite Hd. reflexivity.
  - simpl in *. rewrite Hd. exact IH.
Qed.

Lemma HasPrefix_include_head c t :
  Ascii.eqb c "i" = false -> HasPrefix (String c t) "include:" = false.
Proof.
  intros Hi. unfold HasPrefix.
  change (String.prefix "include:" (String c t))
    with (if ascii_dec "i" c then String.prefix "nclude:" t else false).
  destruct (ascii_dec "i" c) as [<-|_]; [discriminate | reflexivity].
Qed.

(** A line of one token, which is no inclusion: the rule is what
    [parseTypeRule] makes of the token. *)
Lemma parseRule_one_token l0 line :
  TrimSpace line <> EmptyString ->
  HasPrefix (TrimSpace line) "include:" = false ->
  hasByte " " (TrimSpace line) = false ->
  parseRule l0 line =
  match parseTypeRule (TrimSpace line) zeroDomain with
  | (_, Some err) => (l0, Err err)
  | (rule, None) => (l0, Ok (Some rule))
  end.
Proof.
  intros Hne Hpre Hb. unfold parseRule.
  rewrite decide_False by exact Hne. rewrite Hpre, (Split_no_sep _ _ Hb).
  simpl hd. simpl tl. rewrite TrimSpace_idem. rewrite decide_False by exact Hne.
  destruct (parseTypeRule (TrimSpace line) zeroDomain) as [rule [err|]]; reflexivity.
Qed.

Lemma parseTypeRule_many token rule :
  3 <= length (Split token ":") -> parseTypeRule token rule = (rule, None).
Proof.
  unfold parseTypeRule. destruct (Split token ":") as [|a [|b [|c rest]]]; simpl; try lia.
  reflexivity.
Qed.

(** The right end is trimmed after the last plain byte. *)
Lemma TrimRightSpace_before_plain r k v :
  plainByte k = true ->
  TrimRightSpace (r +:+ String k v) = r +:+ String k (TrimRightSpace v).
Proof.
  intros Hk. induction r as [|c r IH].
  - apply TrimRightSpace_cons, Hk.
  - rewrite sapp_cons, TrimRightSpace_unfold, IH. rewrite decide_False; [reflexivity|].
    intros Hall. apply (allSpace_count k _ Hk) in Hall.
    rewrite <- sapp_cons, countByte_app in Hall. simpl in Hall.
    rewrite Ascii.eqb_refl in Hall. lia.
Qed.

(** The line of an untagged rule with a stored value is the type prefix and
    the value, and reads back as the rule. *)
Lemma typed_line_read_back l0 (p : string) c r ty v :
  p = String c r ->
  plainByte c = true -> Ascii.eqb c "i" = false ->
  hasByte " " p = false -> hasByte ":" p = false ->
  kindOf (TrimSpace p) = Some ty ->
  storedValue ty v ->
  parseRule l0 (p +:+ String ":" v) = (l0, Ok (Some (mkDomain ty v []))).
Proof.
  intros Hp Hc Hi Hpb Hpc Hkind (Ht & Hb & Hcol & Hlow).
  assert (Hline : TrimSpace (p +:+ String ":" v) = p +:+ String ":" v).
  { subst p. rewrite sapp_cons, (TrimSpace_cons _ _ Hc). f_equal.
    rewrite TrimRightSpace_before_plain by reflexivity.
    rewrite (TrimSpace_fixed_right _ Ht). reflexivity. }
  rewrite parseRule_one_token; rewrite Hline.
  - rewrite parseTypeRule_one_colon by assumption. rewrite Hkind.
    rewrite Ht. destruct ty; try (rewrite Hlow by discriminate); reflexivity.
  - subst p. rewrite sapp_cons. discriminate.
  - subst p. rewrite sapp_cons. apply HasPrefix_include_head, Hi.
  - rewrite hasByte_app, Hpb. simpl. exact Hb.
Qed.

Lemma plainTextLine_read_back l0 rule :
  Attribute rule = [] -> storedValue (Type_ rule) (Value rule) ->
  parseRule l0 (plainTextLine rule) = (l0, Ok (Some rule)).
Proof.
  destruct rule as [ty v attrs]. simpl. intros -> Hs.
  unfold plainTextLine, plainTextRule. cbn [Type_ Value Attribute].
  rewrite (proj1 Hs).
  destruct ty.
  - apply (typed_line_read_back l0 "keyword" "k" "eyword"); auto.
  - apply (typed_line_read_back l0 "regexp" "r" "egexp"); auto.
  - apply (typed_line_read_back l0 "domain" "d" "omain"); auto.
  - apply (typed_line_read_back l0 "full" "f" "ull"); auto.
Qed.

(** The text of a tagged rule starts with its type prefix and holds two
    colons at least. *)
Lemma tags_fold c (r : string) (attrs : list Domain_Attribute) :
  foldl (fun ruleString attr => ruleString +:+ ("@" +:+ Key attr +:+ ","))
        (String c r) attrs
  = String c (foldl (fun ruleString attr => ruleString +:+ ("@" +:+ Key attr +:+ ","))
                    r attrs).
Proof.
  revert r. induction attrs as [|a attrs IH]; intros r; simpl; [reflexivity|].
  rewrite sapp_cons. apply IH.
Qed.

Lemma tags_fold_colons (r : string) (attrs : list Domain_Attribute) :
  countByte ":" r
  <= countByte ":" (foldl (fun ruleString attr => ruleString +:+ ("@" +:+ Key attr +:+ ","))
                          r attrs).
Proof.
  revert r. induction attrs as [|a attrs IH]; intros r; simpl; [lia|].
  etransitivity; [|apply IH]. rewrite countByte_app. lia.
Qed.

Lemma tags_fold_blank (r : string) (attrs : list Domain_Attribute) :
  hasByte " " r = false ->
  Forall (fun a => hasByte " " (Key a) = false) attrs ->
  hasByte " " (foldl (fun ruleString attr => ruleString +:+ ("@" +:+ Key attr +:+ ","))
                     r attrs) = false.
Proof.
  intros Hr Hall. revert r Hr.
  induction Hall as [|a attrs Ha _ IH]; intros r Hr; simpl; [exact Hr|].
  apply IH. rewrite !hasByte_app, Hr, Ha. reflexivity.
Qed.

Lemma tagged_text_read_back l0 (p : string) c r ruleVal attrs :
  p = String c r ->
  plainByte c = true -> Ascii.eqb c "i" = false -> Ascii.eqb c "," = false ->
  hasByte " " p = false -> 1 <= countByte ":" p ->
  hasByte " " ruleVal = false ->
  Forall (fun a => hasByte " " (Key a) = false) attrs ->
  parseRule l0
    (TrimRight (foldl (fun ruleString attr => ruleString +:+ ("@" +:+ Key attr +:+ ","))
                      ((p +:+ ruleVal) +:+ ":") attrs) ",")
  = (l0, Ok (Some zeroDomain)).
Proof.
  intros Hp Hc Hi Hcomma Hpb Hpc Hvb Hkeys.
  set (text := foldl _ _ attrs).
  assert (Hblank : hasByte " " (TrimSpace (TrimRight text ",")) = false).
  { apply hasByte_TrimSpace, hasByte_TrimRight, tags_fold_blank; [|exact Hkeys].
    rewrite !hasByte_app, Hpb, Hvb. reflexivity. }
  assert (Hcolons : 2 <= countByte ":" (TrimSpace (TrimRight text ","))).
  { rewrite countByte_TrimSpace, countByte_TrimRight by reflexivity.
    etransitivity; [|apply tags_fold_colons].
    rewrite !countByte_app. simpl. lia. }
  assert (Hhead : exists t, TrimSpace (TrimRight text ",") = String c t).
  { unfold text. subst p. rewrite !sapp_cons, tags_fold, (TrimRight_cons _ _ _ Hcomma).
    rewrite (TrimSpace_cons _ _ Hc). eauto. }
  destruct Hhead as [t Hhead].
  rewrite parseRule_one_token.
  - rewrite parseTypeRule_many; [reflexivity|]. rewrite Split_length. lia.
  - rewrite Hhead. discriminate.
  - rewrite Hhead. apply HasPrefix_include_head, Hi.
  - exact Hblank.
Qed.

Lemma tagged_line_read_back l0 rule :
  Attribute rule <> [] ->
  hasByte " " (Value rule) = false ->
  Forall (fun a => hasByte " " (Key a) = false) (Attribute rule) ->
  parseRule l0 (plainTextLine rule) = (l0, Ok (Some zeroDomain)).
Proof.
  intros Hne Hb Hkeys. unfold plainTextLine, plainTextRule.
  destruct (Attribute rule) as [|a attrs]; [congruence|].
  apply (hasByte_TrimSpace " ") in Hb.
  destruct (Type_ rule).
  - apply (tagged_text_read_back l0 "keyword:" "k" "eyword:"); auto; vm_compute; lia.
  - apply (tagged_text_read_back l0 "regexp:" "r" "egexp:"); auto; vm_compute; lia.
  - apply (tagged_text_read_back l0 "domain:" "d" "omain:"); auto; vm_compute; lia.
  - apply (tagged_text_read_back l0 "full:" "f" "ull:"); auto; vm_compute; lia.
Qed.

End read_back_facts.

(** ** Exclusion tags and the case of letters *)
Section tag_case_facts.
Context {U : Unicode}.
Import strings strings_facts.

Lemma capital_tags_exclude_nothing excludeAttrs name l line l' rule :
  excludeAttrs <> EmptyString ->
  Forall (fun e => entryFile e = name ->
                   Forall (fun attr => ToLower attr <> attr) (entryTags e))
         (Split excludeAttrs ",") ->
  isASCII line = true ->
  parseRule l line = (l', Ok (Some rule)) ->
  ~ excluded (Some (parseExcludeAttrs excludeAttrs)) name rule.
Proof.
  intros Hne Hall Hascii Hrule (m & a & Hm & Hin & Hk). simpl in Hm.
  rewrite (parseExcludeAttrs_closed _ _ Hne) in Hm.
  destruct (last _) as [e|] eqn:Hlast; [|discriminate]. simpl in Hm. injection Hm as <-.
  apply last_Some_elem_of, list_elem_of_filter in Hlast as [Hfile He].
  rewrite Forall_forall in Hall. specialize (Hall e He Hfile).
  rewrite tagSet_lookup in Hk. case_decide as Htag; [|discriminate].
  rewrite Forall_forall in Hall. apply (Hall (Key a)); [apply list_elem_of_In, Htag|].
  apply (parseRule_stored _ _ _ _ Hascii) in Hrule as [_ Htags].
  rewrite Forall_forall in Htags. apply Htags, list_elem_of_In, Hin.
Qed.

End tag_case_facts.

(** ** The GFWList exporter in closed form *)
Section gfwlist_facts.
Import strings strings_facts.

Lemma lines_app xs ys : lines (xs ++ ys) = lines xs +:+ lines ys.
Proof.
  induction xs as [|x xs IH]; [reflexivity|]. simpl. rewrite IH, sapp_assoc. reflexivity.
Qed.

Lemma export_lines_loop (step : string -> Domain -> string) (P : Domain -> Prop)
    `{!forall rule, Decision (P rule)} (linesOf : Domain -> list string) bytes rules :
  (forall bytes rule,
     step bytes rule = if decide (P rule) then bytes +:+ lines (linesOf rule) else bytes) ->
  foldl step bytes rules = bytes +:+ lines (flat_map linesOf (filter P rules)).
Proof.
  intros Hstep. revert bytes. induction rules as [|rule rules IH]; intros bytes; simpl.
  - rewrite sapp_nil_r. reflexivity.
  - rewrite IH, Hstep, filter_cons. destruct (decide (P rule)); [|reflexivity].
    simpl. rewrite lines_app, !sapp_assoc. reflexivity.
Qed.

Lemma ToGFWList_closed now l geosite :
  GeoSite l = Some geosite ->
  ToGFWList (Some now) l
  = Ok (gfwHeader now
        +:+ lines (flat_map gfwLines (filter nonBlank (GeoSite_Domain geosite)))).
Proof.
  intros Hg. unfold ToGFWList. cbv zeta. rewrite Hg. f_equal.
  rewrite (export_lines_loop _ nonBlank gfwLines).
  - f_equal. unfold gfwHeader. simpl. rewrite !sapp_assoc. reflexivity.
  - intros bytes rule. unfold nonBlank, gfwLines. cbv zeta.
    case_decide as Hlen; rewrite length_zero_iff in Hlen.
    + rewrite decide_False by tauto. reflexivity.
    + rewrite decide_True by exact Hlen.
      destruct (Type_ rule); simpl; rewrite ?sapp_assoc; reflexivity.
Qed.

End gfwlist_facts.

Example ToPlainText_ex :
  ToPlainText "now" (ToGeoSite None (flattenedFile reference_runtime mixedFiles "CN"))
  = Ok (generatedHeader "now" +:+
        String.concat EmptyString
          (map (fun s => s +:+ String "010" EmptyString)
             ["full:www.example.com"; "full:host.test:@cn,@ads"; "domain:example.com";
              "domain:shop.example.com:@ads"; "domain:cdn.example.net:@cn"])).
Proof. vm_compute. reflexivity. Qed.

Example parseExcludeAttrs_ex :
  parseExcludeAttrs "cn@!cn@ads, geolocation-cn@!cn@ads,cn@x"
  = {["CN" := {["x" := true]}; "GEOLOCATION-CN" := {["!cn" := true; "ads" := true]}]}.
Proof. vm_compute. reflexivity. Qed.

(** ** The parser never panics *)
Section total_facts.
Context {U : Unicode}.

Lemma parseRule_no_panic l line msg : (parseRule l line).2 <> Panic msg.
Proof.
  unfold parseRule. case_decide; [discriminate|].
  destruct (strings.HasPrefix _ _); [discriminate|].
  case_decide; [discriminate|].
  destruct (parseTypeRule _ _) as [rule [err|]]; [discriminate|].
  pose proof (parseAttributes_outcome
                (tl (strings.Split (strings.TrimSpace line) " ")) rule) as Hout.
  destruct (parseAttributes _ rule); simpl; [discriminate | discriminate | contradiction].
Qed.

Lemma processLine_no_panic l line msg : processLine l line <> Panic msg.
Proof.
  unfold processLine. pose proof (parseRule_no_panic l line) as Hp.
  destruct (parseRule l line) as [l1 [[rule|]| |msg']]; simpl in Hp; try discriminate.
  intros [= ->]. exact (Hp msg eq_refl).
Qed.

Lemma ProcessList_no_panic isEmpty removeComment l lines msg :
  ProcessList isEmpty removeComment l lines <> Panic msg.
Proof.
  unfold ProcessList.
  apply (foldl_inv (fun st => forall msg, st <> Panic msg)); [|discriminate].
  intros st line Hst msg'. unfold processListStep.
  destruct st as [l1| |]; [|discriminate|apply Hst].
  destruct (isEmpty line); [discriminate|].
  destruct (isEmpty (removeComment line)); [discriminate|].
  apply processLine_no_panic.
Qed.

End total_facts.

(** ** Further properties: the parser, the flags and the exporters *)

(** X5. Whatever line of ASCII bytes [parseRule] makes a rule of, the rule
    is stored in normal form: its value has no white space at either end,
    holds neither a blank nor a colon, and is lower-case unless the rule is a
    regular expression; the key of each of its tags is lower-case, without a
    blank, and carries the value [true].  (On a line with a byte above 127
    the case of the letters is the matter of the Unicode tables.) *)
Theorem parseRule_stores_normal_form {U : Unicode} (l : ListInfo) (line : string)
    (l' : ListInfo) (rule : Domain) :
  strings.isASCII line = true ->
  parseRule l line = (l', Ok (Some rule)) ->
  storedValue (Type_ rule) (Value rule) /\ Forall storedTag (Attribute rule).
Proof. intros Hascii Hrule. exact (parseRule_stored l line l' rule Hascii Hrule). Qed.

Lemma parseRule_stores_normal_form_witness :
  storedValue (Type_ hostTest) (Value hostTest) /\ Forall storedTag (Attribute hostTest).
Proof.
  apply (parseRule_stores_normal_form NewListInfo "  Full:HOST.Test  @CN @Ads "
           NewListInfo hostTest).
  - reflexivity.
  - vm_compute. reflexivity.
Defined.

(** X6. An inclusion line whose filter holds empty segments only, such as
    [include:X @], records nothing for [X]: neither a wanted tag nor the
    placeholder ["@"] that stands for the whole file.  The line only sets
    [HasInclusion]. *)
Theorem parseInclusion_blank_filter {U : Unicode} (l : ListInfo) (x y : string) :
  strings.hasByte "@" x = false ->
  Forall (fun seg => strings.TrimSpace seg = EmptyString) (strings.Split y "@") ->
  parseInclusion l ("include:" +:+ x +:+ String "@" y) = set_HasInclusion true l.
Proof. intros Hx Hy. exact (parseInclusion_blank l x y Hx Hy). Qed.

Lemma parseInclusion_blank_filter_witness :
  parseInclusion NewListInfo "include:google @ @ " = set_HasInclusion true NewListInfo.
Proof.
  apply (parseInclusion_blank_filter NewListInfo "google " " @ ").
  - reflexivity.
  - repeat constructor.
Defined.

(** X7. [Flatten] on a file that includes a file which is not in the
    registry panics with a nil dereference: [lm[filename]] is the nil
    pointer and the first field read through it fails.  No error is
    returned. *)
Theorem Flatten_missing_file_panics {rt : GoRuntime} (lm : ListInfoMap)
    (self : fileName) (l : ListInfo) (filename : fileName) (attrs : list attribute) :
  lm !! self = Some l -> HasInclusion l = true ->
  InclusionAttributeMap l !! filename = Some attrs -> attrs <> [] ->
  lm !! filename = None ->
  Flatten lm self = Panic "nil pointer dereference".
Proof.
  intros Hl Hinc Hattrs Hne Hmiss. unfold Flatten. rewrite Hl, Hinc.
  rewrite (includeLoops_missing self l lm filename attrs Hl Hattrs Hne Hmiss).
  reflexivity.
Qed.

Lemma Flatten_missing_file_panics_witness :
  @Flatten reference_runtime danglingFiles "A" = Panic "nil pointer dereference".
Proof.
  apply (@Flatten_missing_file_panics reference_runtime danglingFiles "A"
           (default NewListInfo (danglingFiles !! "A")) "B" ["@"]).
  - vm_compute. reflexivity.
  - vm_compute. reflexivity.
  - vm_compute. reflexivity.
  - discriminate.
  - vm_compute. reflexivity.
Defined.

(** X8. After [Flatten] the suffix list of the file is sorted by the number
    of labels, fewest first, whatever order the rules were declared in, and
    what [Flatten] appends to the unique list is a subsequence of that sorted
    list: the deduplicated suffix rules come out by label count as well. *)
Theorem Flatten_sorts_by_label_count {rt : GoRuntime} (lm : ListInfoMap)
    (self : fileName) (lm' : ListInfoMap) (l l' : ListInfo) :
  Flatten lm self = Ok lm' -> lm !! self = Some l -> lm' !! self = Some l' ->
  StronglySorted (fun a b => labelCount a <= labelCount b) (DomainTypeList l') /\
  exists kept,
    DomainTypeUniqueList l' = DomainTypeUniqueList l ++ kept /\
    kept `sublist_of` DomainTypeList l' /\
    StronglySorted (fun a b => labelCount a <= labelCount b) kept.
Proof.
  intros HF Hl Hl'.
  destruct (Flatten_order lm self lm' l l' HF Hl Hl') as [Hs (kept & Hk & Hsub)].
  split; [exact Hs|]. exists kept. split; [exact Hk|]. split; [exact Hsub|].
  exact (StronglySorted_sublist _ _ _ Hsub Hs).
Qed.

Lemma Flatten_sorts_by_label_count_witness :
  StronglySorted (fun a b => labelCount a <= labelCount b)
    (DomainTypeList (flattenedFile reference_runtime chainFiles "A")) /\
  exists kept,
    DomainTypeUniqueList (flattenedFile reference_runtime chainFiles "A")
    = DomainTypeUniqueList (default NewListInfo (chainFiles !! "A")) ++ kept /\
    kept `sublist_of` DomainTypeList (flattenedFile reference_runtime chainFiles "A") /\
    StronglySorted (fun a b => labelCount a <= labelCount b) kept.
Proof.
  apply (@Flatten_sorts_by_label_count reference_runtime chainFiles "A"
           (flattenOk reference_runtime chainFiles "A")).
  - vm_compute. reflexivity.
  - vm_compute. reflexivity.
  - vm_compute. reflexivity.
Defined.

(** X9. The exclusion configuration acts on a file only through the tags set
    under the name of that file: a configuration that sets no tag under it
    (it names other files only, or lists no tag for this one) compiles the
    file as the nil configuration does. *)
Theorem ToGeoSite_ineffective_exclusion
    (excludeAttrs : option (gmap fileName (gmap attribute bool))) (l : ListInfo) :
  (forall m k, excludeAttrs ≫= (fun m => m !! Name l) = Some m -> m !! k <> Some true) ->
  ToGeoSite excludeAttrs l = ToGeoSite None l.
Proof. intros Hno. exact (ToGeoSite_ineffective excludeAttrs l Hno). Qed.

Lemma ToGeoSite_ineffective_exclusion_witness :
  ToGeoSite excludeElsewhere (flattenedFile reference_runtime mixedFiles "CN")
  = ToGeoSite None (flattenedFile reference_runtime mixedFiles "CN").
Proof.
  apply (ToGeoSite_ineffective_exclusion excludeElsewhere
           (flattenedFile reference_runtime mixedFiles "CN")).
  intros m k Hm. vm_compute in Hm. discriminate.
Defined.

(** X10. The flag [excludeattrs]: the exclusion set of a file is the set of
    the tags of the last entry that names the file, trimmed and upper-cased;
    an earlier entry for the same file is dropped, not merged, and a file
    that no entry names has no set. *)
Theorem parseExcludeAttrs_last_entry_wins {U : Unicode} (excludeAttrs : string)
    (name : fileName) :
  excludeAttrs <> EmptyString ->
  parseExcludeAttrs excludeAttrs !! name
  = (fun e => tagSet (entryTags e))
      <$> last (filter (fun e => entryFile e = name) (strings.Split excludeAttrs ",")).
Proof. intros Hne. exact (parseExcludeAttrs_closed excludeAttrs name Hne). Qed.

Lemma parseExcludeAttrs_last_entry_wins_witness :
  parseExcludeAttrs "cn@!cn@ads, geolocation-cn@!cn ,cn@x" !! "CN" = Some (tagSet ["x"])
  /\ parseExcludeAttrs "cn@!cn@ads, geolocation-cn@!cn ,cn@x" !! "APPLE" = None.
Proof.
  split.
  - rewrite (parseExcludeAttrs_last_entry_wins "cn@!cn@ads, geolocation-cn@!cn ,cn@x" "CN")
      by discriminate.
    vm_compute. reflexivity.
  - rewrite (parseExcludeAttrs_last_entry_wins "cn@!cn@ads, geolocation-cn@!cn ,cn@x"
               "APPLE") by discriminate.
    vm_compute. reflexivity.
Defined.

(** X11. The tags of the flag [excludeattrs] keep their case, whereas the
    tags of the rules are lower-cased by the parser: when every tag that the
    flag lists for a file is changed by [ToLower] (it holds a capital
    letter), no rule parsed from a line of ASCII bytes is excluded for the
    file. *)
Theorem exclusion_tags_keep_case {U : Unicode} (excludeAttrs : string) (name : fileName)
    (l : ListInfo) (line : string) (l' : ListInfo) (rule : Domain) :
  excludeAttrs <> EmptyString ->
  Forall (fun e => entryFile e = name ->
                   Forall (fun attr => strings.ToLower attr <> attr) (entryTags e))
         (strings.Split excludeAttrs ",") ->
  strings.isASCII line = true ->
  parseRule l line = (l', Ok (Some rule)) ->
  ~ excluded (Some (parseExcludeAttrs excludeAttrs)) name rule.
Proof.
  intros Hne Hall Hascii Hrule.
  exact (capital_tags_exclude_nothing excludeAttrs name l line l' rule Hne Hall Hascii Hrule).
Qed.

Lemma exclusion_tags_keep_case_witness :
  ~ excluded (Some (parseExcludeAttrs "cn@ADS")) "CN" hostTest.
Proof.
  apply (exclusion_tags_keep_case "cn@ADS" "CN" NewListInfo "full:host.test @cn @ADS"
           NewListInfo hostTest).
  - discriminate.
  - apply (bool_decide_unpack _). vm_compute. exact I.
  - reflexivity.
  - vm_compute. reflexivity.
Defined.

(** X12. The flag [exportlists]: the exported names are the pieces between
    the commas, trimmed, in their order and with their repetitions, without
    the empty ones; so each name is non-empty, has no white space at either
    end and holds no comma. *)
Theorem parseExportLists_names_trimmed (exportLists : string) :
  parseExportLists exportLists
  = filter (fun name => name <> EmptyString)
           (map strings.TrimSpace (strings.Split exportLists ","))
  /\ Forall (fun name => name <> EmptyString /\ strings.TrimSpace name = name
                         /\ strings.hasByte "," name = false)
            (parseExportLists exportLists).
Proof.
  split; [exact (parseExportLists_closed exportLists) | exact (exportLists_names exportLists)].
Qed.

(** X13. The line that [ToPlainText] writes for an untagged rule in the
    parser's normal form reads back, through [parseRule], as the same rule:
    for such rules the plain text is a faithful copy of what was parsed. *)
Theorem plain_text_round_trip {U : Unicode} (l0 : ListInfo) (rule : Domain) :
  Attribute rule = [] -> storedValue (Type_ rule) (Value rule) ->
  parseRule l0 (plainTextLine rule) = (l0, Ok (Some rule)).
Proof. intros Ha Hs. exact (plainTextLine_read_back l0 rule Ha Hs). Qed.

Lemma plain_text_round_trip_witness :
  parseRule NewListInfo (plainTextLine wwwExampleCom)
  = (NewListInfo, Ok (Some wwwExampleCom)).
Proof.
  apply (plain_text_round_trip NewListInfo wwwExampleCom).
  - reflexivity.
  - repeat split.
Defined.

(** X14. The line that [ToPlainText] writes for a tagged rule,
    [type:value:@a1,@a2], does not read back: it holds two colons, so
    [parseRule] takes it for one token with too many parts and returns the
    zero rule (a keyword rule with the empty value and no tag) without an
    error, whatever the rule was. *)
Theorem plain_text_tagged_not_read_back {U : Unicode} (l0 : ListInfo) (rule : Domain) :
  Attribute rule <> [] ->
  strings.hasByte " " (Value rule) = false ->
  Forall (fun a => strings.hasByte " " (Key a) = false) (Attribute rule) ->
  parseRule l0 (plainTextLine rule) = (l0, Ok (Some zeroDomain)).
Proof. intros Hne Hb Hkeys. exact (tagged_line_read_back l0 rule Hne Hb Hkeys). Qed.

Lemma plain_text_tagged_not_read_back_witness :
  parseRule NewListInfo (plainTextLine hostTest) = (NewListInfo, Ok (Some zeroDomain)).
Proof.
  apply (plain_text_tagged_not_read_back NewListInfo hostTest).
  - discriminate.
  - reflexivity.
  - repeat constructor.
Defined.

(** X15. What the exporters write, once [l.GeoSite] is set: after the header,
    [ToPlainText] writes one line for each rule with a non-blank value, and
    [ToSurgeList], [ToMihomoList] and [ToQuantumultXList] write one line for
    each full-domain or suffix rule with a non-blank value, all in the order
    of [l.GeoSite.Domain]; a keyword rule, a regular expression and a rule
    with a blank value leave no trace in the three lists, and no tag does. *)
Theorem exporters_write_listed_rules (now : string) (l : ListInfo) (geosite : GeoSite_) :
  GeoSite l = Some geosite ->
  ToPlainText now l
  = Ok (generatedHeader now
        +:+ lines (map plainTextLine (filter nonBlank (GeoSite_Domain geosite))))
  /\ ToSurgeList now l
     = Ok (generatedHeader now
           +:+ lines (map surgeLine
                          (filter (fun rule => nonBlank rule /\ listed rule)
                                  (GeoSite_Domain geosite))))
  /\ ToMihomoList now l
     = Ok ((generatedHeader now +:+ ("payload:" +:+ String "010" EmptyString))
           +:+ lines (map mihomoLine
                          (filter (fun rule => nonBlank rule /\ listed rule)
                                  (GeoSite_Domain geosite))))
  /\ ToQuantumultXList now l
     = Ok (generatedHeader now
           +:+ lines (map (quantumultXLine (policyOf (Name l)))
                          (filter (fun rule => nonBlank rule /\ listed rule)
                                  (GeoSite_Domain geosite)))).
Proof.
  intros Hg. split; [exact (ToPlainText_closed now l geosite Hg)|].
  split; [exact (ToSurgeList_closed now l geosite Hg)|].
  split; [exact (ToMihomoList_closed now l geosite Hg)|].
  exact (ToQuantumultXList_closed now l geosite Hg).
Qed.

Lemma exporters_write_listed_rules_witness :
  ToPlainText "now" (ToGeoSite None (default NewListInfo (mixedFiles !! "CN")))
  = Ok (generatedHeader "now"
        +:+ lines ["full:www.example.com"; "full:host.test:@cn,@ads";
                   "domain:shop.example.com:@ads"; "domain:cdn.example.net:@cn"])
  /\ ToSurgeList "now" (ToGeoSite None (default NewListInfo (mixedFiles !! "CN")))
     = Ok (generatedHeader "now"
           +:+ lines ["DOMAIN,www.example.com"; "DOMAIN,host.test";
                      "DOMAIN-SUFFIX,shop.example.com"; "DOMAIN-SUFFIX,cdn.example.net"])
  /\ ToMihomoList "now" (ToGeoSite None (default NewListInfo (mixedFiles !! "CN")))
     = Ok ((generatedHeader "now" +:+ ("payload:" +:+ String "010" EmptyString))
           +:+ lines ["  - 'www.example.com'"; "  - 'host.test'";
                      "  - '+.shop.example.com'"; "  - '+.cdn.example.net'"])
  /\ ToQuantumultXList "now" (ToGeoSite None (default NewListInfo (mixedFiles !! "CN")))
     = Ok (generatedHeader "now"
           +:+ lines ["host, www.example.com, direct"; "host, host.test, direct";
                      "host-suffix, shop.example.com, direct";
                      "host-suffix, cdn.example.net, direct"]).
Proof.
  assert (Hg : GeoSite (ToGeoSite None (default NewListInfo (mixedFiles !! "CN")))
               = Some (mkGeoSite "CN"
                         (compiled None (default NewListInfo (mixedFiles !! "CN")))))
    by (vm_compute; reflexivity).
  destruct (exporters_write_listed_rules "now" _ _ Hg) as (Hp & Hs & Hm & Hq).
  split; [rewrite Hp; vm_compute; reflexivity|].
  split; [rewrite Hs; vm_compute; reflexivity|].
  split; [rewrite Hm; vm_compute; reflexivity|].
  rewrite Hq. vm_compute. reflexivity.
Defined.

(** X16. After [ToGeoSite] on a well-formed collection the three list
    exporters write a line for every compiled rule whose value is not blank:
    the compiled rules are full-domain and suffix rules only, so none is
    passed over on account of its kind. *)
Theorem exporters_after_ToGeoSite (now : string)
    (excludeAttrs : option (gmap fileName (gmap attribute bool))) (l : ListInfo) :
  wellFormed l ->
  ToSurgeList now (ToGeoSite excludeAttrs l)
  = Ok (generatedHeader now
        +:+ lines (map surgeLine (filter nonBlank (compiled excludeAttrs l))))
  /\ ToMihomoList now (ToGeoSite excludeAttrs l)
     = Ok ((generatedHeader now +:+ ("payload:" +:+ String "010" EmptyString))
           +:+ lines (map mihomoLine (filter nonBlank (compiled excludeAttrs l))))
  /\ ToQuantumultXList now (ToGeoSite excludeAttrs l)
     = Ok (generatedHeader now
           +:+ lines (map (quantumultXLine (policyOf (Name l)))
                          (filter nonBlank (compiled excludeAttrs l)))).
Proof.
  intros Hwf. pose proof (GeoSite_ToGeoSite excludeAttrs l) as Hg.
  rewrite <- (filter_listed excludeAttrs l Hwf).
  split; [exact (ToSurgeList_closed now _ _ Hg)|].
  split; [exact (ToMihomoList_closed now _ _ Hg)|].
  exact (ToQuantumultXList_closed now _ _ Hg).
Qed.

Lemma exporters_after_ToGeoSite_witness :
  ToSurgeList "now" (ToGeoSite excludeAds (flattenedFile reference_runtime mixedFiles "CN"))
  = Ok (generatedHeader "now"
        +:+ lines ["DOMAIN,www.example.com"; "DOMAIN-SUFFIX,example.com";
                   "DOMAIN-SUFFIX,cdn.example.net"]).
Proof.
  destruct (exporters_after_ToGeoSite "now" excludeAds
              (flattenedFile reference_runtime mixedFiles "CN")
              (wellFormed_flattenedFile reference_runtime _ "CN")) as (Hs & _ & _).
  rewrite Hs. vm_compute. reflexivity.
Defined.

(** X17. [ProcessList] never panics, whatever the lines and whatever the
    helpers [isEmpty] and [removeComment] are: [parseAttribute] indexes the
    first byte of its argument, and [parseRule] hands it no empty token.  A
    file is read to the end or refused with an error. *)
Theorem ProcessList_never_panics {U : Unicode} (isEmpty : string -> bool)
    (removeComment : string -> string) (l : ListInfo) (lines : list string)
    (msg : string) :
  ProcessList isEmpty removeComment l lines <> Panic msg.
Proof. exact (ProcessList_no_panic isEmpty removeComment l lines msg). Qed.

(** X18. What [ToGFWList] returns.  When the location did not load, or
    [l.GeoSite] is nil, it panics.  Otherwise it returns the header and then,
    for each rule with a non-blank value and in the order of
    [l.GeoSite.Domain], the two lines [|http://v] and [|https://v] for a
    full-domain rule, [||v] for a suffix rule, [v] for a keyword rule and
    [/v/] for a regular expression; a rule with a blank value and the tags
    of a rule leave no trace. *)
Theorem ToGFWList_writes_rules (now : option string) (l : ListInfo) :
  ToGFWList now l
  = match now, GeoSite l with
    | None, _ => Panic "time: missing Location in call to Time.In"
    | Some _, None => Panic "nil pointer dereference"
    | Some t, Some geosite =>
        Ok (gfwHeader t
            +:+ lines (flat_map gfwLines (filter nonBlank (GeoSite_Domain geosite))))
    end.
Proof.
  destruct now as [t|]; [|reflexivity].
  destruct (GeoSite l) as [geosite|] eqn:Hg.
  - exact (ToGFWList_closed t l geosite Hg).
  - unfold ToGFWList. rewrite Hg. reflexivity.
Qed.

Example ToGFWList_sample :
  ToGFWList (Some "now") (ToGeoSite None (default NewListInfo (mixedFiles !! "CN")))
  = Ok (gfwHeader "now"
        +:+ lines ["|http://www.example.com"; "|https://www.example.com";
                   "|http://host.test"; "|https://host.test";
                   "||shop.example.com"; "||cdn.example.net"]).
Proof. vm_compute. reflexivity. Qed.
